(** * LUT file-format codecs of [colour.io.luts]: a shallow embedding

    The development embeds the Sony [.spi3d] codec
    ([colour/io/luts/sony_spi3d.py]), the Resolve [.cube] codec
    ([colour/io/luts/resolve_cube.py]) and the dispatch function [read_LUT]
    ([colour/io/luts/__init__.py]) and proves properties of their
    index ordering, validation and error behaviour.

    Conventions.
    - A Python [str] is a [list ascii]; an [ascii] stands for a code point
      below 256.
    - A Python exception is a value of [exception]; a computation that may
      raise has type [result A].
    - An [ndarray] is a shape together with its elements in C (row-major)
      order, as for a contiguous numpy array.
    - Integers are [Z]; the int64 range of numpy integer arrays is checked
      where a token is converted.
    - Floating-point numbers are not computed with: table values belong to
      an abstract [FloatModel]; only the grid of [linear_table], which is
      rounded to integers before use, is computed in exact rationals. *)

From Stdlib Require Import Ascii String List ZArith NArith Arith Lia Bool.
From Stdlib Require Import QArith Qround Qabs Lqa DecimalNat.
From Stdlib Require Import Permutation Sorted.
Import ListNotations.

Set Implicit Arguments.

Local Open Scope nat_scope.

(** ** Python strings *)

Module Py.

Definition str := list ascii.

(** A string literal. *)
Definition lit (s : string) : str := list_ascii_of_string s.

Definition str_eqb (a b : str) : bool :=
  if list_eq_dec ascii_dec a b then true else false.

(** [str.isspace] on one character: White_Space code points below 256 and
    the separators U+001C..U+001F. *)
Definition isspace (c : ascii) : bool :=
  let n := N_of_ascii c in
  ((9 <=? n) && (n <=? 13) || (28 <=? n) && (n <=? 32)
   || (n =? 133) || (n =? 160))%N.

Fixpoint lstrip (s : str) : str :=
  match s with
  | [] => []
  | c :: s' => if isspace c then lstrip s' else s
  end.

Definition rstrip (s : str) : str := rev (lstrip (rev s)).

(** [s.strip()] *)
Definition strip (s : str) : str := rstrip (lstrip s).

(** [s.split()]: the maximal runs of non-whitespace characters. [cur] is
    the run being read, reversed. *)
Fixpoint split_go (cur : str) (s : str) : list str :=
  match s with
  | [] => match cur with [] => [] | _ => [rev cur] end
  | c :: s' =>
      if isspace c
      then match cur with
           | [] => split_go [] s'
           | _ => rev cur :: split_go [] s'
           end
      else split_go (c :: cur) s'
  end.

Definition split (s : str) : list str := split_go [] s.

(** [s.startswith(p)] *)
Fixpoint startswith (s p : str) : bool :=
  match p, s with
  | [], _ => true
  | _ :: _, [] => false
  | a :: p', b :: s' => Ascii.eqb a b && startswith s' p'
  end.

(** [sep.join(l)] *)
Fixpoint join (sep : str) (l : list str) : str :=
  match l with
  | [] => []
  | [x] => x
  | x :: l' => x ++ sep ++ join sep l'
  end.

(** [s[1:-1]] *)
Definition slice_1_m1 (s : str) : str := removelast (tl s).

Definition LF : ascii := "010"%char.
Definition DQ : ascii := "034"%char.

(** A string literal between double quotes. *)
Definition quoted (s : string) : str := DQ :: lit s ++ [DQ].
Definition CR : ascii := "013"%char.

(** [f.readlines()] of a file opened in text mode: a line ends at the
    line feed, at a carriage return, or at a carriage return followed by a
    line feed, each of which is read as one line feed and kept at the end
    of the line. *)
Fixpoint readlines_go (cur : str) (s : str) : list str :=
  match s with
  | [] => match cur with [] => [] | _ => [rev cur] end
  | c :: s' =>
      if Ascii.eqb c LF then rev (LF :: cur) :: readlines_go [] s'
      else if Ascii.eqb c CR then
        match s' with
        | c' :: s'' =>
            if Ascii.eqb c' LF then rev (LF :: cur) :: readlines_go [] s''
            else rev (LF :: cur) :: readlines_go [] s'
        | [] => [rev (LF :: cur)]
        end
      else readlines_go (c :: cur) s'
  end.

Definition readlines (text : str) : list str := readlines_go [] text.

(** [s.lower()] on the letters A..Z. *)
Definition lower_char (c : ascii) : ascii :=
  let n := N_of_ascii c in
  if ((65 <=? n) && (n <=? 90))%N then ascii_of_N (n + 32) else c.

Definition lower (s : str) : str := map lower_char s.

(** [len(set(l))] for a list of strings. *)
Definition len_set (l : list str) : nat :=
  length (nodup (list_eq_dec ascii_dec) l).

End Py.

Import Py.

(** ** Exceptions *)

Inductive exception : Type :=
| AssertionError (msg : str)
| ValueError
| IndexError
| KeyError
| OverflowError
| AttributeError
| UnboundLocalError.

Inductive result (A : Type) : Type :=
| Ok (a : A)
| Raise (e : exception).

Arguments Ok {A} a.
Arguments Raise {A} e.

Definition bind {A B} (r : result A) (k : A -> result B) : result B :=
  match r with
  | Ok a => k a
  | Raise e => Raise e
  end.

Notation "x <- r ;; k" := (bind r (fun x => k))
  (at level 61, r at next level, right associativity).
Notation "r ;;; k" := (bind r (fun _ => k))
  (at level 61, right associativity).

(** [attest(condition, message)] of [colour.utilities]: the
    validation-failure primitive.

    Modelled from the spec: [colour/utilities/common.py] is not available;
    the spec names it the assertion primitive, and a failed condition is
    the assertion error carrying the message. *)
Definition attest (condition : bool) (msg : str) : result unit :=
  if condition then Ok tt else Raise (AssertionError msg).

Fixpoint mapM {A B} (f : A -> result B) (l : list A) : result (list B) :=
  match l with
  | [] => Ok []
  | x :: l' => y <- f x ;; ys <- mapM f l' ;; Ok (y :: ys)
  end.

Definition is_ok {A} (r : result A) : bool :=
  match r with Ok _ => true | Raise _ => false end.

(** ** Integer tokens *)

Definition is_digit (c : ascii) : bool :=
  let n := N_of_ascii c in ((48 <=? n) && (n <=? 57))%N.

Definition digit_val (c : ascii) : N := (N_of_ascii c - 48)%N.

(** Decimal digits of a natural number, most significant first. *)
Fixpoint uint_chars (d : Decimal.uint) : str :=
  match d with
  | Decimal.Nil => []
  | Decimal.D0 d => "0"%char :: uint_chars d
  | Decimal.D1 d => "1"%char :: uint_chars d
  | Decimal.D2 d => "2"%char :: uint_chars d
  | Decimal.D3 d => "3"%char :: uint_chars d
  | Decimal.D4 d => "4"%char :: uint_chars d
  | Decimal.D5 d => "5"%char :: uint_chars d
  | Decimal.D6 d => "6"%char :: uint_chars d
  | Decimal.D7 d => "7"%char :: uint_chars d
  | Decimal.D8 d => "8"%char :: uint_chars d
  | Decimal.D9 d => "9"%char :: uint_chars d
  end.

Definition nat_chars (n : nat) : str := uint_chars (Nat.to_uint n).

(** [format(i, "d")] *)
Definition format_int (z : Z) : str :=
  match z with
  | Zneg p => "-"%char :: nat_chars (Pos.to_nat p)
  | _ => nat_chars (Z.to_nat z)
  end.

(** Value of a digit string read left to right. *)
Fixpoint digits_value (acc : N) (s : str) : option N :=
  match s with
  | [] => Some acc
  | c :: s' =>
      if is_digit c then digits_value (10 * acc + digit_val c)%N s'
      else None
  end.

Definition nat_of_digits (s : str) : option N :=
  match s with
  | [] => None
  | _ => digits_value 0%N s
  end.

(** [int(token)] for the spellings sign-and-digits; other spellings are a
    [ValueError]. *)
Definition int_of_token (t : str) : result Z :=
  match t with
  | "-"%char :: t' =>
      match nat_of_digits t' with
      | Some n => Ok (- Z.of_N n)%Z
      | None => Raise ValueError
      end
  | "+"%char :: t' =>
      match nat_of_digits t' with
      | Some n => Ok (Z.of_N n)
      | None => Raise ValueError
      end
  | _ =>
      match nat_of_digits t with
      | Some n => Ok (Z.of_N n)
      | None => Raise ValueError
      end
  end.

Definition in_int64 (z : Z) : bool :=
  ((- 2 ^ 63 <=? z) && (z <? 2 ^ 63))%Z.

(** Conversion of one token to a numpy [int64]. *)
Definition int64_of_token (t : str) : result Z :=
  z <- int_of_token t ;;
  if in_int64 z then Ok z else Raise OverflowError.

(** [as_int_scalar(token)] *)
Definition as_int_scalar (t : str) : result Z := int64_of_token t.

(** [as_int_array(tokens)] on a list of tokens. *)
Definition as_int_array (ts : list str) : result (list Z) :=
  mapM int64_of_token ts.

(** ** Floating-point values

    The codecs store, compare, parse and print floating-point numbers but
    never compute with table values.  The operations they use are the
    interface [FloatModel]. *)

Class FloatModel : Type := {
  float : Type;
  (** [a == b] *)
  float_eqb : float -> float -> bool;
  (** the float equal to an integer, as in the comparison of a float
      array with an integer array *)
  float_of_int : Z -> float;
  (** [float(token)]; [None] stands for the [ValueError] *)
  float_of_token : str -> option float;
  (** [format(x, "0.<decimals>f")] *)
  format_float : nat -> float -> str
}.

(** ** Arrays *)

Record ndarray (A : Type) : Type := mk_ndarray {
  shape : list nat;
  data : list A
}.

Arguments mk_ndarray {A} shape data.

Definition prod_shape (sh : list nat) : nat := fold_right Nat.mul 1 sh.

Section Arrays.

Variable A : Type.

(** [np.asarray(rows)] for a list of rows: rows of unequal lengths are
    refused. *)
Definition as_array (rows : list (list A)) : result (ndarray A) :=
  match rows with
  | [] => Ok (mk_ndarray [0] [])
  | r :: _ =>
      if forallb (fun r' => length r' =? length r) rows
      then Ok (mk_ndarray [length rows; length r] (concat rows))
      else Raise ValueError
  end.

(** Position [k] of a slice bound in a sequence of length [n]. *)
Definition slice_bound (k : Z) (n : nat) : nat :=
  if (k <? 0)%Z then Z.to_nat (Z.of_nat n + k) else Nat.min (Z.to_nat k) n.

(** [a[:k]] along the first axis. *)
Definition slice_to (k : Z) (a : ndarray A) : result (ndarray A) :=
  match shape a with
  | [] => Raise IndexError
  | n :: sh =>
      let m := slice_bound k n in
      Ok (mk_ndarray (m :: sh) (firstn (m * prod_shape sh) (data a)))
  end.

(** [a[k:]] along the first axis. *)
Definition slice_from (k : Z) (a : ndarray A) : result (ndarray A) :=
  match shape a with
  | [] => Raise IndexError
  | n :: sh =>
      let m := slice_bound k n in
      Ok (mk_ndarray ((n - m) :: sh) (skipn (m * prod_shape sh) (data a)))
  end.

(** Multi-index of a flat position, last index fastest (C order). *)
Fixpoint unravel_C (sh : list nat) (c : nat) : list nat :=
  match sh with
  | [] => []
  | _ :: sh' => (c / prod_shape sh') :: unravel_C sh' (c mod prod_shape sh')
  end.

(** Multi-index of a flat position, first index fastest (Fortran order). *)
Fixpoint unravel_F (sh : list nat) (f : nat) : list nat :=
  match sh with
  | [] => []
  | d :: sh' => (f mod d) :: unravel_F sh' (f / d)
  end.

Fixpoint ravel_C (sh idx : list nat) : nat :=
  match sh, idx with
  | _ :: sh', i :: idx' => i * prod_shape sh' + ravel_C sh' idx'
  | _, _ => 0
  end.

Fixpoint ravel_F (sh idx : list nat) : nat :=
  match sh, idx with
  | d :: sh', i :: idx' => i + d * ravel_F sh' idx'
  | _, _ => 0
  end.

(** The elements of [a] read in Fortran order. *)
Definition flatten_F (dflt : A) (a : ndarray A) : list A :=
  map (fun f => nth (ravel_C (shape a) (unravel_F (shape a) f)) (data a) dflt)
      (seq 0 (length (data a))).

(** [a.reshape(new)] *)
Definition reshape_C (new : list nat) (a : ndarray A) : result (ndarray A) :=
  if prod_shape new =? length (data a)
  then Ok (mk_ndarray new (data a))
  else Raise ValueError.

(** [a.reshape(new, order="F")]: the elements are read in Fortran order and
    placed in Fortran order. *)
Definition reshape_F (new : list nat) (a : ndarray A) : result (ndarray A) :=
  if prod_shape new =? length (data a)
  then match data a with
       | [] => Ok (mk_ndarray new [])
       | dflt :: _ =>
           Ok (mk_ndarray new
                 (map (fun c => nth (ravel_F new (unravel_C new c))
                                    (flatten_F dflt a) dflt)
                      (seq 0 (length (data a)))))
       end
  else Raise ValueError.

(** The shape [[-1, 3]]: the first dimension is inferred. *)
Definition shape_m1_3 (a : ndarray A) : result (list nat) :=
  if length (data a) mod 3 =? 0
  then Ok [length (data a) / 3; 3]
  else Raise ValueError.

(** The shape [(s, s, s, 3)] for an integer [s] read from a file; a
    negative dimension is refused. *)
Definition shape_cube (s : Z) : result (list nat) :=
  if (s <? 0)%Z then Raise ValueError
  else Ok [Z.to_nat s; Z.to_nat s; Z.to_nat s; 3].

(** Width of a row along the first axis. *)
Definition row_width (a : ndarray A) : nat := prod_shape (tl (shape a)).

(** [a[i]] along the first axis for [0 <= i], as a flat list. *)
Definition row (a : ndarray A) (i : nat) : result (list A) :=
  match shape a with
  | [] => Raise IndexError
  | n :: _ =>
      if i <? n
      then Ok (firstn (row_width a) (skipn (i * row_width a) (data a)))
      else Raise IndexError
  end.

(** The rows of [a] along the first axis: [for row in a]. *)
Definition rows (a : ndarray A) : list (list A) :=
  map (fun i => firstn (row_width a) (skipn (i * row_width a) (data a)))
      (seq 0 (hd 0 (shape a))).

(** [a[:, k]] for a two-dimensional array. *)
Definition column (a : ndarray A) (k : nat) : result (list A) :=
  match shape a with
  | [_; w] =>
      if k <? w
      then Ok (flat_map (fun r => firstn 1 (skipn k r)) (rows a))
      else Raise IndexError
  | _ => Raise IndexError
  end.

(** [a[perm]] for a list of row positions, all within bounds. *)
Definition take_rows (a : ndarray A) (perm : list nat) : ndarray A :=
  mk_ndarray (length perm :: tl (shape a))
    (flat_map (fun i => firstn (row_width a) (skipn (i * row_width a) (data a)))
              perm).

Variable eqb : A -> A -> bool.

Fixpoint list_eqb (l1 l2 : list A) : bool :=
  match l1, l2 with
  | [], [] => true
  | x :: l1', y :: l2' => eqb x y && list_eqb l1' l2'
  | _, _ => false
  end.

(** [np.array_equal(a, b)] *)
Definition array_equal (a b : ndarray A) : bool :=
  (if list_eq_dec Nat.eq_dec (shape a) (shape b) then true else false)
  && list_eqb (data a) (data b).

(** [len(np.unique(a))]: the number of distinct elements. *)
Fixpoint distinct (l : list A) : list A :=
  match l with
  | [] => []
  | x :: l' => if existsb (eqb x) l' then distinct l' else x :: distinct l'
  end.

Definition len_unique (a : ndarray A) : nat := length (distinct (data a)).

End Arrays.

Definition map_array {A B} (f : A -> B) (a : ndarray A) : ndarray B :=
  mk_ndarray (shape a) (map f (data a)).

(** ** Sorting: [np.lexsort] *)

(** Order of positions [p] and [q] under the keys of [np.lexsort(keys)]:
    the last key is the primary one. [cols] lists the keys from the
    primary one on. *)
Fixpoint pos_cmp (cols : list (list Z)) (p q : nat) : comparison :=
  match cols with
  | [] => Eq
  | col :: cols' =>
      match (nth p col 0 ?= nth q col 0)%Z with
      | Eq => pos_cmp cols' p q
      | c => c
      end
  end.

Definition pos_leb (cols : list (list Z)) (p q : nat) : bool :=
  match pos_cmp cols p q with Gt => false | _ => true end.

Fixpoint insert_pos (cols : list (list Z)) (p : nat) (l : list nat)
  : list nat :=
  match l with
  | [] => [p]
  | q :: l' =>
      if pos_leb cols p q then p :: l else q :: insert_pos cols p l'
  end.

(** Stable insertion sort of a list of positions. *)
Fixpoint sort_pos (cols : list (list Z)) (l : list nat) : list nat :=
  match l with
  | [] => []
  | p :: l' => insert_pos cols p (sort_pos cols l')
  end.

(** [np.lexsort(keys)]: the positions in sorted order; the sort is stable. *)
Definition lexsort (keys : list (list Z)) : list nat :=
  sort_pos (rev keys) (seq 0 (length (hd [] keys))).

(** ** The grid of [LUT3D.linear_table] *)

(** [np.around]: rounding to the nearest integer, halves to the even
    neighbour. *)
Definition around (q : Q) : Z :=
  let f := Qfloor q in
  match Qcompare (q - inject_Z f) (1 # 2) with
  | Lt => f
  | Gt => (f + 1)%Z
  | Eq => if Z.even f then f else (f + 1)%Z
  end.

(** [np.linspace(0, 1, n)] *)
Definition linspace01 (n : nat) : list Q :=
  match n with
  | 1 => [0%Q]
  | _ => map (fun i => inject_Z (Z.of_nat i) / inject_Z (Z.of_nat (n - 1)))%Q
             (seq 0 n)
  end.

(** [LUT3D.linear_table(size)] with the default domain.

    Modelled from the spec: [colour/io/luts/lut.py] is not available.  The
    table is the uniform [size x size x size x 3] grid spanning
    [[0,0,0],[1,1,1]]: the entry at grid point [(i, j, k)] is the triple of
    the [i]-th, [j]-th and [k]-th samples, and the canonical enumeration of
    its rows is lexicographic in (axis 0, axis 1, axis 2).  A negative
    number of samples is refused, as by [np.linspace]. *)
Definition linear_table (size : Z) : result (ndarray Q) :=
  if (size <? 0)%Z then Raise ValueError
  else
    let n := Z.to_nat size in
    let samples := linspace01 n in
    Ok (mk_ndarray [n; n; n; 3]
          (flat_map (fun r =>
             flat_map (fun g =>
               flat_map (fun b => [r; g; b]) samples) samples) samples)).

(** [as_int_array(np.around(LUT3D.linear_table(size) * (size - 1)))
      .reshape((-1, 3))] *)
Definition expected_indexes (size : Z) : result (ndarray Z) :=
  t <- linear_table size ;;
  let scaled := map_array (fun q => around (q * inject_Z (size - 1))%Q) t in
  sh <- shape_m1_3 scaled ;;
  reshape_C sh scaled.

(** ** The LUT data model *)

Section Codecs.

Context {FM : FloatModel}.

Inductive LUT_class : Type := class_LUT1D | class_LUT3x1D | class_LUT3D.

Definition LUT_class_eqb (a b : LUT_class) : bool :=
  match a, b with
  | class_LUT1D, class_LUT1D => true
  | class_LUT3x1D, class_LUT3x1D => true
  | class_LUT3D, class_LUT3D => true
  | _, _ => false
  end.

Record LUT : Type := mk_LUT {
  class : LUT_class;
  table : ndarray float;
  name : str;
  domain : ndarray float;
  comments : list str
}.

(** A node of a [LUTSequence]: a table or a matrix operator. *)
Inductive operator : Type :=
| Table (l : LUT)
| LUTOperatorMatrix (matrix offset : ndarray float).

(** What the codecs read and write. *)
Inductive LUT_value : Type :=
| Single (o : operator)
| LUTSequence (ops : list operator).

Definition f0 : float := float_of_int 0.
Definition f1 : float := float_of_int 1.

(** [np.array([[0, 0, 0], [1, 1, 1]])] *)
Definition default_domain : ndarray float :=
  mk_ndarray [2; 3] [f0; f0; f0; f1; f1; f1].

Definition default_domain_1D : ndarray float := mk_ndarray [2] [f0; f1].

Definition optional {A} (value : option A) (default : A) : A :=
  match value with Some v => v | None => default end.

(** The constructors of the three table classes.

    Modelled from the spec: [colour/io/luts/lut.py] is not available.  A
    table stores its fields as given; a missing domain is the default
    domain and missing comments are the empty list. *)
Definition LUT1D (t : ndarray float) (n : str) (d : option (ndarray float))
    (c : list str) : LUT :=
  mk_LUT class_LUT1D t n (optional d default_domain_1D) c.

Definition LUT3x1D (t : ndarray float) (n : str) (d : option (ndarray float))
    (c : list str) : LUT :=
  mk_LUT class_LUT3x1D t n (optional d default_domain) c.

Definition LUT3D (t : ndarray float) (n : str) (d : option (ndarray float))
    (c : list str) : LUT :=
  mk_LUT class_LUT3D t n (optional d default_domain) c.

(** [LUT.size]: [table.shape[0]]. *)
Definition size (l : LUT) : nat := hd 0 (shape (table l)).

(** [LUT.is_domain_explicit()].

    Modelled from the spec: for a 1D or 3x1D table the domain is explicit
    when [len(domain) != 2], for a 3D table when its shape is not the
    two-row shape [(2, 3)]. *)
Definition is_domain_explicit (l : LUT) : bool :=
  match class l with
  | class_LUT3D =>
      if list_eq_dec Nat.eq_dec (shape (domain l)) [2; 3] then false else true
  | _ => negb (hd 0 (shape (domain l)) =? 2)
  end.

(** [tstack([v, v, v])] for a vector [v].

    Modelled from the spec: [colour/utilities/array.py] is not available;
    stacking three copies of a vector of length [k] along a new last axis
    gives the [k x 3] array whose [i]-th row repeats [v[i]]. *)
Definition tstack3 (v : list float) : ndarray float :=
  mk_ndarray [length v; 3] (flat_map (fun x => [x; x; x]) v).

(** [LUT.as_LUT(LUT3x1D)] for a 1D table.

    Modelled from the spec: the single channel is broadcast to three
    identical channels; name and comments are kept. *)
Definition as_LUT3x1D (l : LUT) : LUT :=
  mk_LUT class_LUT3x1D (tstack3 (data (table l))) (name l)
         (tstack3 (data (domain l))) (comments l).

Definition float_array_equal := array_equal float_eqb.

(** [as_float_array(tokens)] for a list of tokens. *)
Definition as_float_tokens (ts : list str) : result (list float) :=
  mapM (fun t => match float_of_token t with
                 | Some x => Ok x
                 | None => Raise ValueError
                 end) ts.

(** ** Files being written *)

(** A computation that appends to the text of an open file and may raise;
    what was written before the exception stays written. *)
Definition writer (A : Type) : Type := str -> str * result A.

Definition wret {A} (a : A) : writer A := fun buf => (buf, Ok a).

Definition wbind {A B} (w : writer A) (k : A -> writer B) : writer B :=
  fun buf =>
    match w buf with
    | (buf', Ok a) => k a buf'
    | (buf', Raise e) => (buf', Raise e)
    end.

(** [file.write(s)] *)
Definition fwrite (s : str) : writer unit := fun buf => (buf ++ s, Ok tt).

Definition wlift {A} (r : result A) : writer A := fun buf => (buf, r).

Fixpoint wfor {A} (body : A -> writer unit) (l : list A) : writer unit :=
  match l with
  | [] => wret tt
  | x :: l' => wbind (body x) (fun _ => wfor body l')
  end.

(** The effect of a write function: the advisory warnings issued, the text
    of the file if it was opened, and the value returned or exception
    raised. *)
Record outcome : Type := mk_outcome {
  warnings : list str;
  written : option str;
  returned : result bool
}.

(** ** The Sony [.spi3d] codec *)

(** [path_to_title] of [colour/io/luts/common.py], which is not available:
    the title derived from a file name. *)
Variable path_to_title : str -> str.

Record spi3d_state : Type := mk_spi3d_state {
  sp_size : Z;
  sp_data_table : list (list float);
  sp_data_indexes : list (list Z);
  sp_comments : list str
}.

(** One iteration of the reading loop on a stripped, non-empty line. *)
Definition spi3d_line (st : spi3d_state) (line : str) : result spi3d_state :=
  if startswith line (lit "#") then
    Ok (mk_spi3d_state (sp_size st) (sp_data_table st) (sp_data_indexes st)
          (sp_comments st ++ [strip (tl line)]))
  else
    let tokens := split line in
    st1 <- (if length tokens =? 3 then
              attest (len_set tokens =? 1)
                     (lit "Non-uniform " ++ quoted "LUT" ++ lit " shape is unsupported!") ;;;
              sz <- as_int_scalar (hd [] tokens) ;;
              Ok (mk_spi3d_state sz (sp_data_table st) (sp_data_indexes st)
                    (sp_comments st))
            else Ok st) ;;
    if length tokens =? 6 then
      values <- as_float_tokens (skipn 3 tokens) ;;
      idx <- as_int_array (firstn 3 tokens) ;;
      Ok (mk_spi3d_state (sp_size st1) (sp_data_table st1 ++ [values])
            (sp_data_indexes st1 ++ [idx]) (sp_comments st1))
    else Ok st1.

Fixpoint spi3d_lines (st : spi3d_state) (lines : list str)
  : result spi3d_state :=
  match lines with
  | [] => Ok st
  | line :: lines' => st' <- spi3d_line st line ;; spi3d_lines st' lines'
  end.

(** [filter(None, (line.strip() for line in f.readlines()))] *)
Definition stripped_lines (text : str) : list str :=
  filter (fun l => negb (length l =? 0)) (map strip (readlines text)).

Definition spi3d_initial : spi3d_state := mk_spi3d_state 2 [] [] [].

(** The part of [read_LUT_SonySPI3D] that follows the reading loop. *)
Definition spi3d_finish (title : str) (st : spi3d_state) : result LUT :=
  indexes <- as_array (sp_data_indexes st) ;;
  c2 <- column indexes 2 ;;
  c1 <- column indexes 1 ;;
  c0 <- column indexes 0 ;;
  let sorting_indexes := lexsort [c2; c1; c0] in
  expected <- expected_indexes (sp_size st) ;;
  attest (array_equal Z.eqb (take_rows indexes sorting_indexes) expected)
         (lit "Indexes do not match expected " ++ quoted "LUT3D" ++ lit " indexes!") ;;;
  values <- as_array (sp_data_table st) ;;
  sh <- shape_cube (sp_size st) ;;
  table <- reshape_C sh (take_rows values sorting_indexes) ;;
  Ok (LUT3D table title (Some default_domain) (sp_comments st)).

(** [read_LUT_SonySPI3D(path)] on a file with the given text. *)
Definition read_LUT_SonySPI3D (path : str) (text : str) : result LUT :=
  st <- spi3d_lines spi3d_initial (stripped_lines text) ;;
  spi3d_finish (path_to_title path) st.

(** [str(LUT)] of a sequence, printed in the advisory warning. *)
Variable str_LUTSequence : list operator -> str.

(** [operator.is_domain_explicit()]: a matrix operator has no domain. *)
Definition op_is_domain_explicit (o : operator) : result bool :=
  match o with
  | Table l => Ok (is_domain_explicit l)
  | LUTOperatorMatrix _ _ => Raise AttributeError
  end.

Definition isinstance (o : operator) (c : LUT_class) : bool :=
  match o with
  | Table l => LUT_class_eqb (class l) c
  | LUTOperatorMatrix _ _ => false
  end.

Definition op_domain (o : operator) : result (ndarray float) :=
  match o with
  | Table l => Ok (domain l)
  | LUTOperatorMatrix _ _ => Raise AttributeError
  end.

(** The choice of the table to write and the advisory warning. *)
Definition spi3d_select (L : LUT_value) : list str * result operator :=
  match L with
  | LUTSequence ops =>
      ([quoted "LUT" ++ lit " is a " ++ quoted "LUTSequence"
          ++ lit " instance was passed, using first sequence " ++ quoted "LUT"
          ++ lit ":" ++ [LF] ++ str_LUTSequence ops],
       match ops with
       | o :: _ => Ok o
       | [] => Raise IndexError
       end)
  | Single o => ([], Ok o)
  end.

(** The three validations of [write_LUT_SonySPI3D]. *)
Definition spi3d_validate (o : operator) : result LUT :=
  e <- op_is_domain_explicit o ;;
  attest (negb e) (quoted "LUT" ++ lit " domain must be implicit!") ;;;
  attest (isinstance o class_LUT3D)
         (quoted "LUT" ++ lit " must be either a 3D " ++ quoted "LUT" ++ lit "!") ;;;
  d <- op_domain o ;;
  attest (float_array_equal d default_domain)
         (quoted "LUT" ++ lit " domain must be [[0, 0, 0], [1, 1, 1]]!") ;;;
  match o with
  | Table l => Ok l
  | LUTOperatorMatrix _ _ => Raise AttributeError
  end.

Definition SP : str := lit " ".

(** [_format_array] of [write_LUT_SonySPI3D]: three integers and three
    values. *)
Definition spi3d_format_array (decimals : nat) (array : list Z)
    (values : list float) : result str :=
  match array, values with
  | [i; j; k], r :: g :: b :: _ =>
      Ok (format_int i ++ SP ++ format_int j ++ SP ++ format_int k ++ SP
          ++ format_float decimals r ++ SP ++ format_float decimals g ++ SP
          ++ format_float decimals b)
  | _, _ => Raise IndexError
  end.

Definition write_comments (cs : list str) : writer unit :=
  wfor (fun c => fwrite (lit "# " ++ c ++ [LF])) cs.

(** The body of the [with open(path, "w")] block. *)
Definition spi3d_body (decimals : nat) (l : LUT) : writer unit :=
  wbind (fwrite (lit "SPILUT 1.0" ++ [LF])) (fun _ =>
  wbind (fwrite (lit "3 3" ++ [LF])) (fun _ =>
  let s := format_int (Z.of_nat (size l)) in
  wbind (fwrite (s ++ SP ++ s ++ SP ++ s ++ [LF])) (fun _ =>
  wbind (wlift (expected_indexes (Z.of_nat (size l)))) (fun indexes =>
  wbind (wlift (sh <- shape_m1_3 (table l) ;; reshape_C sh (table l)))
    (fun tbl =>
  wbind (wfor (fun ir =>
           wbind (wlift (values <- row tbl (fst ir) ;;
                         spi3d_format_array decimals (snd ir) values))
                 (fun text => fwrite (text ++ [LF])))
           (combine (seq 0 (length (rows indexes))) (rows indexes)))
    (fun _ => write_comments (comments l))))))).

(** [write_LUT_SonySPI3D(LUT, path, decimals)] *)
Definition write_LUT_SonySPI3D (L : LUT_value) (decimals : nat) : outcome :=
  let (ws, chosen) := spi3d_select L in
  match (o <- chosen ;; spi3d_validate o) with
  | Raise e => mk_outcome ws None (Raise e)
  | Ok l =>
      let (text, r) := spi3d_body decimals l [] in
      mk_outcome ws (Some text) (r ;;; Ok true)
  end.

(** ** The Resolve [.cube] codec *)

Record cube_state : Type := mk_cube_state {
  cs_title : str;
  cs_domain_3x1D : option (ndarray float);
  cs_domain_3D : option (ndarray float);
  cs_size_3x1D : Z;
  cs_size_3D : Z;
  cs_data : list (list str);
  cs_comments : list str;
  cs_has_3x1D : bool;
  cs_has_3D : bool
}.

Definition set_title (st : cube_state) (t : str) : cube_state :=
  mk_cube_state t (cs_domain_3x1D st) (cs_domain_3D st) (cs_size_3x1D st)
    (cs_size_3D st) (cs_data st) (cs_comments st) (cs_has_3x1D st)
    (cs_has_3D st).

Definition set_domain_3x1D (st : cube_state) (d : ndarray float)
  : cube_state :=
  mk_cube_state (cs_title st) (Some d) (cs_domain_3D st) (cs_size_3x1D st)
    (cs_size_3D st) (cs_data st) (cs_comments st) (cs_has_3x1D st)
    (cs_has_3D st).

Definition set_domain_3D (st : cube_state) (d : ndarray float) : cube_state :=
  mk_cube_state (cs_title st) (cs_domain_3x1D st) (Some d) (cs_size_3x1D st)
    (cs_size_3D st) (cs_data st) (cs_comments st) (cs_has_3x1D st)
    (cs_has_3D st).

Definition set_size_3x1D (st : cube_state) (n : Z) : cube_state :=
  mk_cube_state (cs_title st) (cs_domain_3x1D st) (cs_domain_3D st) n
    (cs_size_3D st) (cs_data st) (cs_comments st) true (cs_has_3D st).

Definition set_size_3D (st : cube_state) (n : Z) : cube_state :=
  mk_cube_state (cs_title st) (cs_domain_3x1D st) (cs_domain_3D st)
    (cs_size_3x1D st) n (cs_data st) (cs_comments st) (cs_has_3x1D st) true.

Definition add_data (st : cube_state) (tokens : list str) : cube_state :=
  mk_cube_state (cs_title st) (cs_domain_3x1D st) (cs_domain_3D st)
    (cs_size_3x1D st) (cs_size_3D st) (cs_data st ++ [tokens])
    (cs_comments st) (cs_has_3x1D st) (cs_has_3D st).

Definition add_comment (st : cube_state) (c : str) : cube_state :=
  mk_cube_state (cs_title st) (cs_domain_3x1D st) (cs_domain_3D st)
    (cs_size_3x1D st) (cs_size_3D st) (cs_data st) (cs_comments st ++ [c])
    (cs_has_3x1D st) (cs_has_3D st).

(** [tokens[1]] *)
Definition second (tokens : list str) : result str :=
  match tokens with
  | _ :: t :: _ => Ok t
  | _ => Raise IndexError
  end.

(** One iteration of the reading loop of [read_LUT_ResolveCube]. *)
Definition cube_line (st : cube_state) (raw : str) : result cube_state :=
  let line := strip raw in
  if length line =? 0 then Ok st
  else if startswith line (lit "#") then Ok (add_comment st (strip (tl line)))
  else
    let tokens := split line in
    match tokens with
    | [] => Raise IndexError
    | t0 :: rest =>
        if str_eqb t0 (lit "TITLE") then
          Ok (set_title st (slice_1_m1 (join SP rest)))
        else if str_eqb t0 (lit "LUT_1D_INPUT_RANGE") then
          v <- as_float_tokens rest ;; Ok (set_domain_3x1D st (tstack3 v))
        else if str_eqb t0 (lit "LUT_3D_INPUT_RANGE") then
          v <- as_float_tokens rest ;; Ok (set_domain_3D st (tstack3 v))
        else if str_eqb t0 (lit "LUT_1D_SIZE") then
          t1 <- second tokens ;; n <- as_int_scalar t1 ;;
          Ok (set_size_3x1D st n)
        else if str_eqb t0 (lit "LUT_3D_SIZE") then
          t1 <- second tokens ;; n <- as_int_scalar t1 ;;
          Ok (set_size_3D st n)
        else Ok (add_data st tokens)
    end.

Fixpoint cube_lines (st : cube_state) (lines : list str)
  : result cube_state :=
  match lines with
  | [] => Ok st
  | line :: lines' => st' <- cube_line st line ;; cube_lines st' lines'
  end.

Definition cube_initial (title : str) : cube_state :=
  mk_cube_state title None None 2 2 [] [] false false.

(** [as_float_array(data)] for the list of the token lists of the data
    rows. *)
Definition as_float_table (rows : list (list str))
  : result (ndarray float) :=
  values <- mapM as_float_tokens rows ;; as_array values.

(** The part of [read_LUT_ResolveCube] that follows the reading loop. *)
Definition cube_finish (st : cube_state) : result LUT_value :=
  table <- as_float_table (cs_data st) ;;
  if cs_has_3x1D st && cs_has_3D st then
    table_1D <- slice_to (cs_size_3x1D st) table ;;
    rest <- slice_from (cs_size_3x1D st) table ;;
    sh <- shape_cube (cs_size_3D st) ;;
    table_3D <- reshape_F sh rest ;;
    Ok (LUTSequence
          [Table (LUT3x1D table_1D (cs_title st ++ lit " - Shaper")
                    (cs_domain_3x1D st) []);
           Table (LUT3D table_3D (cs_title st ++ lit " - Cube")
                    (cs_domain_3D st) (cs_comments st))])
  else if cs_has_3x1D st then
    Ok (Single (Table (LUT3x1D table (cs_title st) (cs_domain_3x1D st)
                         (cs_comments st))))
  else if cs_has_3D st then
    sh <- shape_cube (cs_size_3D st) ;;
    table' <- reshape_F sh table ;;
    Ok (Single (Table (LUT3D table' (cs_title st) (cs_domain_3D st)
                         (cs_comments st))))
  else Raise UnboundLocalError.

(** [read_LUT_ResolveCube(path)] on a file with the given text. *)
Definition read_LUT_ResolveCube (path : str) (text : str)
  : result LUT_value :=
  st <- cube_lines (cube_initial (path_to_title path)) (readlines text) ;;
  cube_finish st.

(** The tables and names of [LUT3x1D()] and [LUT3D()] built without
    arguments, which [colour/io/luts/lut.py] (not available) defines; their
    domain is the default domain. *)
Variable unity_table_3x1D unity_table_3D : ndarray float.
Variable unity_name_3x1D unity_name_3D : str.

Record cube_job : Type := mk_cube_job {
  job_name : str;
  has_3x1D : bool;
  has_3D : bool;
  shaper : LUT;
  cube : LUT
}.

(** The case analysis on the class of [LUT] that opens
    [write_LUT_ResolveCube]: the two tables to write. *)
Definition cube_prepare (L : LUT_value) : result cube_job :=
  match L with
  | LUTSequence ops =>
      match ops with
      | [Table a; Table b] =>
          attest ((LUT_class_eqb (class a) class_LUT1D
                   || LUT_class_eqb (class a) class_LUT3x1D)
                  && LUT_class_eqb (class b) class_LUT3D)
                 (lit "LUTSequence must be 1D + 3D or 3x1D + 3D!") ;;;
          let a' := if LUT_class_eqb (class a) class_LUT1D
                    then as_LUT3x1D a else a in
          Ok (mk_cube_job (name a' ++ lit " - " ++ name b) true true a' b)
      | _ => Raise (AssertionError
                      (lit "LUTSequence must be 1D + 3D or 3x1D + 3D!"))
      end
  | Single (Table l) =>
      match class l with
      | class_LUT1D =>
          Ok (mk_cube_job (name l) true false (as_LUT3x1D l)
                (LUT3D unity_table_3D unity_name_3D None []))
      | class_LUT3x1D =>
          Ok (mk_cube_job (name l) true false l
                (LUT3D unity_table_3D unity_name_3D None []))
      | class_LUT3D =>
          Ok (mk_cube_job (name l) false true
                (LUT3x1D unity_table_3x1D unity_name_3x1D None []) l)
      end
  | Single (LUTOperatorMatrix _ _) => Raise ValueError
  end.

(** The validations of [write_LUT_ResolveCube]. *)
Definition cube_validate (j : cube_job) : result unit :=
  attest (negb (is_domain_explicit (shaper j)))
         (quoted "LUT" ++ lit " domain must be implicit!") ;;;
  attest (negb (is_domain_explicit (cube j)))
         (quoted "LUT" ++ lit " domain must be implicit!") ;;;
  attest ((len_unique float_eqb (domain (shaper j)) =? 2)
          && (len_unique float_eqb (domain (cube j)) =? 2))
         (quoted "LUT" ++ lit " domain must be 1D!") ;;;
  (if has_3x1D j
   then attest ((2 <=? Z.of_nat (size (shaper j)))
                && (Z.of_nat (size (shaper j)) <=? 65536))%Z
               (lit "Shaper size must be in domain [2, 65536]!")
   else Ok tt) ;;;
  (if has_3D j
   then attest ((2 <=? Z.of_nat (size (cube j)))
                && (Z.of_nat (size (cube j)) <=? 256))%Z
               (lit "Cube size must be in domain [2, 256]!")
   else Ok tt).

(** [_format_array] of [write_LUT_ResolveCube]: three values. *)
Definition cube_format_array (decimals : nat) (array : list float)
  : result str :=
  match array with
  | r :: g :: b :: _ =>
      Ok (format_float decimals r ++ SP ++ format_float decimals g ++ SP
          ++ format_float decimals b)
  | _ => Raise IndexError
  end.

(** [_format_tuple]: two values. *)
Definition cube_format_tuple (decimals : nat) (array : list float) : str :=
  match array with
  | [a; b] => format_float decimals a ++ SP ++ format_float decimals b
  | _ => []
  end.

(** [a[i][j]] for a two-dimensional array. *)
Definition item (a : ndarray float) (i j : nat) : result float :=
  r <- row a i ;;
  match nth_error r j with
  | Some x => Ok x
  | None => Raise IndexError
  end.

Definition write_rows (decimals : nat) (rs : list (list float))
  : writer unit :=
  wfor (fun r => wbind (wlift (cube_format_array decimals r))
                       (fun text => fwrite (text ++ [LF]))) rs.

Definition write_size_and_range (decimals : nat) (key_size key_range : str)
    (l : LUT) : writer unit :=
  wbind (fwrite (key_size ++ SP ++ format_int (Z.of_nat (size l)) ++ [LF]))
    (fun _ =>
  if float_array_equal (domain l) default_domain then wret tt
  else
    wbind (wlift (item (domain l) 0 0)) (fun lo =>
    wbind (wlift (item (domain l) 1 0)) (fun hi =>
    fwrite (key_range ++ SP ++ cube_format_tuple decimals [lo; hi]
            ++ [LF])))).

(** The body of the [with open(path, "w")] block. *)
Definition cube_body (decimals : nat) (j : cube_job) : writer unit :=
  wbind (fwrite (lit "TITLE " ++ [DQ] ++ job_name j ++ [DQ] ++ [LF]))
    (fun _ =>
  wbind (write_comments (comments (shaper j))) (fun _ =>
  wbind (write_comments (comments (cube j))) (fun _ =>
  wbind (if has_3x1D j
         then write_size_and_range decimals (lit "LUT_1D_SIZE")
                (lit "LUT_1D_INPUT_RANGE") (shaper j)
         else wret tt) (fun _ =>
  wbind (if has_3D j
         then write_size_and_range decimals (lit "LUT_3D_SIZE")
                (lit "LUT_3D_INPUT_RANGE") (cube j)
         else wret tt) (fun _ =>
  wbind (if has_3x1D j
         then wbind (write_rows decimals (rows (table (shaper j))))
                    (fun _ => fwrite [LF])
         else wret tt) (fun _ =>
  if has_3D j
  then wbind (wlift (sh <- shape_m1_3 (table (cube j)) ;;
                     reshape_F sh (table (cube j))))
             (fun t => write_rows decimals (rows t))
  else wret tt)))))).

(** [write_LUT_ResolveCube(LUT, path, decimals)] *)
Definition write_LUT_ResolveCube (L : LUT_value) (decimals : nat)
  : outcome :=
  match (j <- cube_prepare L ;; cube_validate j ;;; Ok j) with
  | Raise e => mk_outcome [] None (Raise e)
  | Ok j =>
      let (text, r) := cube_body decimals j [] in
      mk_outcome [] (Some text) (r ;;; Ok true)
  end.

End Codecs.

(** ** The dispatch layer *)

Inductive codec : Type :=
| Cinespace | IridasCube | ResolveCube | SonySPI1D | SonySPI3D | SonySPImtx.

(** [EXTENSION_TO_LUT_FORMAT_MAPPING] *)
Definition EXTENSION_TO_LUT_FORMAT_MAPPING : list (str * str) :=
  [ (lit ".cube", lit "Iridas Cube");
    (lit ".spi1d", lit "Sony SPI1D");
    (lit ".spi3d", lit "Sony SPI3D");
    (lit ".spimtx", lit "Sony SPImtx");
    (lit ".csp", lit "Cinespace") ].

(** [LUT_READ_METHODS] *)
Definition LUT_READ_METHODS : list (str * codec) :=
  [ (lit "Cinespace", Cinespace);
    (lit "Iridas Cube", IridasCube);
    (lit "Resolve Cube", ResolveCube);
    (lit "Sony SPI1D", SonySPI1D);
    (lit "Sony SPI3D", SonySPI3D);
    (lit "Sony SPImtx", SonySPImtx) ].

(** [mapping[key]] for a [CaseInsensitiveMapping].

    Modelled from the spec: [colour/utilities/data_structures.py] is not
    available; keys are compared after lower-casing, and a missing key is
    a [KeyError]. *)
Fixpoint getitem {V} (mapping : list (str * V)) (key : str) : result V :=
  match mapping with
  | [] => Raise KeyError
  | (k, v) :: mapping' =>
      if str_eqb (lower k) (lower key) then Ok v else getitem mapping' key
  end.

(** [validate_method(method, valid_methods)].

    Modelled from the spec: [colour/utilities/common.py] is not available;
    the method name is matched case-insensitively against the registered
    names, an unknown name is a value error, and the lower-cased name is
    returned (the source compares the result with ["iridas cube"]). *)
Definition validate_method {V} (method : str) (valid : list (str * V))
  : result str :=
  if existsb (fun kv => str_eqb (lower (fst kv)) (lower method)) valid
  then Ok (lower method)
  else Raise ValueError.

Section Dispatch.

Variable LUT_value : Type.

(** [os.path.splitext(path)[-1]] *)
Variable splitext_ext : str -> str.

(** The reading function of each codec, applied to a path. *)
Variable read_function : codec -> str -> result LUT_value.

(** The method name that [read_LUT] settles on. *)
Definition resolve_method (path : str) (method : option str) : result str :=
  by_extension <-
    getitem EXTENSION_TO_LUT_FORMAT_MAPPING (splitext_ext path) ;;
  validate_method (match method with Some m => m | None => by_extension end)
                  LUT_READ_METHODS.

(** [read_LUT(path, method)]: the codecs called, in order, and the value
    returned or exception raised. *)
Definition read_LUT (path : str) (method : option str)
  : list codec * result LUT_value :=
  match resolve_method path method with
  | Raise e => ([], Raise e)
  | Ok m =>
      match getitem LUT_READ_METHODS m with
      | Raise e => ([], Raise e)
      | Ok function =>
          match read_function function path with
          | Raise ValueError =>
              if str_eqb m (lit "iridas cube") then
                match getitem LUT_READ_METHODS (lit "Resolve Cube") with
                | Raise e => ([function], Raise e)
                | Ok function' =>
                    ([function; function'], read_function function' path)
                end
              else ([function], Raise ValueError)
          | r => ([function], r)
          end
      end
  end.

End Dispatch.

(** [LUT_WRITE_METHODS] *)
Definition LUT_WRITE_METHODS : list (str * codec) :=
  [ (lit "Cinespace", Cinespace);
    (lit "Iridas Cube", IridasCube);
    (lit "Resolve Cube", ResolveCube);
    (lit "Sony SPI1D", SonySPI1D);
    (lit "Sony SPI3D", SonySPI3D);
    (lit "Sony SPImtx", SonySPImtx) ].

Section DispatchWrite.

Context {FM : FloatModel}.

(** [os.path.splitext(path)[-1]] *)
Variable splitext_ext : str -> str.

(** The writing function of each codec, applied to a value, a path and a
    number of decimals. *)
Variable write_function : codec -> LUT_value -> str -> nat -> outcome.

(** [isinstance(LUT, LUTSequence)] *)
Definition is_LUTSequence (L : LUT_value) : bool :=
  match L with
  | LUTSequence _ => true
  | Single _ => false
  end.

(** The method name that [write_LUT] settles on: a sequence is never
    written by the Iridas codec. *)
Definition write_method (L : LUT_value) (path : str) (method : option str)
  : result str :=
  by_extension <-
    getitem EXTENSION_TO_LUT_FORMAT_MAPPING (splitext_ext path) ;;
  m <- validate_method (match method with Some m => m | None => by_extension end)
                       LUT_WRITE_METHODS ;;
  Ok (if str_eqb m (lit "iridas cube") && is_LUTSequence L
      then lit "resolve cube" else m).

(** [write_LUT(LUT, path, decimals, method)]: the codecs called and the
    outcome. *)
Definition write_LUT (L : LUT_value) (path : str) (decimals : nat)
    (method : option str) : list codec * outcome :=
  match write_method L path method with
  | Raise e => ([], mk_outcome [] None (Raise e))
  | Ok m =>
      match getitem LUT_WRITE_METHODS m with
      | Raise e => ([], mk_outcome [] None (Raise e))
      | Ok function => ([function], write_function function L path decimals)
      end
  end.

End DispatchWrite.

(** ** A float model in exact decimal arithmetic

    Values are rationals; a value is printed rounded to the requested
    number of decimals and a decimal numeral is read exactly.  The binary
    rounding of a hardware float is not part of this model. *)

Module DecimalFloat.

(** The [d] decimal digits of [r], most significant first. *)
Fixpoint frac_digits (d : nat) (r : N) : str :=
  match d with
  | O => []
  | S d' => frac_digits d' (r / 10)%N ++ [ascii_of_N (48 + r mod 10)%N]
  end.

Definition pow10 (d : nat) : Z := (10 ^ Z.of_nat d)%Z.

(** [format(q, "0.<d>f")] *)
Definition format (d : nat) (q : Q) : str :=
  let m := around (q * inject_Z (pow10 d))%Q in
  let a := Z.abs m in
  (if (m <? 0)%Z then ["-"%char] else [])
  ++ nat_chars (Z.to_nat (a / pow10 d))
  ++ match d with
     | O => []
     | _ => "."%char :: frac_digits d (Z.to_N (a mod pow10 d))
     end.

(** The fractional part of the text of [format]. *)
Definition frac_text (d : nat) (a : Z) : str :=
  match d with
  | O => []
  | _ => "."%char :: frac_digits d (Z.to_N (a mod pow10 d))
  end.

(** The characters before and after the first point. *)
Fixpoint cut_point (s : str) : str * option str :=
  match s with
  | [] => ([], None)
  | c :: s' =>
      if Ascii.eqb c "."%char then ([], Some s')
      else let (a, b) := cut_point s' in (c :: a, b)
  end.

Definition unsigned_of_token (t : str) : option Q :=
  let (ip, fp) := cut_point t in
  let fp := match fp with Some f => f | None => [] end in
  match ip, fp with
  | [], [] => None
  | _, _ =>
      match digits_value 0%N ip, digits_value 0%N fp with
      | Some a, Some b =>
          Some (Qmake (Z.of_N a * pow10 (length fp) + Z.of_N b)
                      (Z.to_pos (pow10 (length fp))))
      | _, _ => None
      end
  end.

(** [float(token)] for a signed decimal numeral. *)
Definition of_token (t : str) : option Q :=
  match t with
  | "-"%char :: t' => option_map Qopp (unsigned_of_token t')
  | "+"%char :: t' => unsigned_of_token t'
  | _ => unsigned_of_token t
  end.

#[export] Instance model : FloatModel := {
  float := Q;
  float_eqb := Qeq_bool;
  float_of_int := inject_Z;
  float_of_token := of_token;
  format_float := format
}.

(** Two values differ by at most half a unit of the [d]-th decimal. *)
Definition close (d : nat) (a b : Q) : Prop :=
  (Qabs (a - b) <= 1 # (2 * Z.to_pos (pow10 d)))%Q.

End DecimalFloat.

(** ** Vocabulary of the statements *)

(** The triples over [l] in lexicographic order, the last component
    changing fastest. *)
Definition triples {A} (l : list A) : list (list A) :=
  flat_map (fun r => flat_map (fun g => map (fun b => [r; g; b]) l) l) l.

(** The grid coordinates of a cube of side [n], in lexicographic order
    with axis 0 as the primary key. *)
Definition grid (n : nat) : list (list Z) :=
  triples (map Z.of_nat (seq 0 n)).

(** The text of a file with the given lines, each ended by a line feed. *)
Definition file_of (ls : list str) : str := flat_map (fun l => l ++ [LF]) ls.

(** A token: a non-empty string without whitespace. *)
Definition token (t : str) : Prop :=
  t <> [] /\ Forall (fun c => isspace c = false) t.

(** A string without line breaks. *)
Definition no_break (s : str) : Prop :=
  Forall (fun c => c <> LF /\ c <> CR) s.

(** A non-empty string whose first and last characters are not
    whitespace. *)
Definition trimmed (s : str) : Prop :=
  match s with [] => False | c :: _ => isspace c = false end
  /\ match rev s with [] => False | c :: _ => isspace c = false end.

(** Lexicographic comparison of two rows, the first component being the
    primary key. *)
Fixpoint lex_cmp (a b : list Z) : comparison :=
  match a, b with
  | x :: a', y :: b' =>
      match (x ?= y)%Z with
      | Eq => lex_cmp a' b'
      | c => c
      end
  | _, _ => Eq
  end.

Definition lex_le (a b : list Z) : Prop := lex_cmp a b <> Gt.

(** The index rows [rs] in the order given by
    [np.lexsort((indexes[:, 2], indexes[:, 1], indexes[:, 0]))]. *)
Definition sorted_indexes (rs : list (list Z)) : list (list Z) :=
  map (fun p => nth p rs [])
      (lexsort [map (fun r => nth 2 r 0%Z) rs; map (fun r => nth 1 r 0%Z) rs;
                map (fun r => nth 0 r 0%Z) rs]).

(** The lines of a Sony file that are index and value rows: not a
    comment, and six tokens. *)
Definition data_lines (lines : list str) : list str :=
  filter (fun l => negb (startswith l (lit "#")) && (length (split l) =? 6))
         lines.

(** [t[i, j, k]] for a four-dimensional array whose last axis has length
    3: the three values at a grid point. *)
Definition grid_point {A} (t : ndarray A) (i j k : nat) : list A :=
  firstn 3 (skipn (ravel_C (shape t) [i; j; k; 0]) (data t)).

Section Vocabulary.

Context {FM : FloatModel}.

(** A line of a Resolve file that is a [LUT_1D_SIZE] or [LUT_3D_SIZE]
    directive: not blank, not a comment, and its first token is one of the
    two keywords. *)
Definition is_size_directive (raw : str) : bool :=
  let line := strip raw in
  negb (length line =? 0) && negb (startswith line (lit "#"))
  && match split line with
     | t0 :: _ =>
         str_eqb t0 (lit "LUT_1D_SIZE") || str_eqb t0 (lit "LUT_3D_SIZE")
     | [] => false
     end.

(** The comments of a file, in file order: the text that follows the
    marker on each line that starts with it, both stripped. *)
Definition file_comments (text : str) : list str :=
  map (fun line => strip (tl line))
      (filter (fun line => startswith line (lit "#"))
              (map strip (readlines text))).

(** A line that the reading loop of the Sony codec passes over, or records
    as a comment: not a line of three or of six tokens. *)
Definition spi3d_passive (line : str) : Prop :=
  startswith line (lit "#") = true
  \/ (length (split line) <> 3 /\ length (split line) <> 6).

(** The shapes of the data model: an implicit domain of two rows, a
    3x1D table of [n] rows and a cubic 3D table of side [n]. *)
Definition wf_domain (l : LUT) : Prop :=
  shape (domain l) = [2; 3] /\ length (data (domain l)) = 6.

Definition wf_LUT3x1D (l : LUT) (n : nat) : Prop :=
  class l = class_LUT3x1D
  /\ shape (table l) = [n; 3] /\ length (data (table l)) = n * 3
  /\ wf_domain l.

Definition wf_LUT3D (l : LUT) (n : nat) : Prop :=
  class l = class_LUT3D
  /\ shape (table l) = [n; n; n; 3]
  /\ length (data (table l)) = n * n * n * 3
  /\ wf_domain l.

(** The text of a data row of a Resolve file. *)
Definition cube_row_text (decimals : nat) (v : list float) : str :=
  match v with
  | r :: g :: b :: _ =>
      format_float decimals r ++ SP ++ format_float decimals g ++ SP
      ++ format_float decimals b
  | _ => []
  end.

(** [w] appends [out] to the file and returns [a], whatever was written
    before. *)
Definition writes {A} (w : writer A) (out : str) (a : A) : Prop :=
  forall buf, w buf = (buf ++ out, Ok a).

(** What [write_LUT_ResolveCube] refuses in the two tables it is about to
    write. *)
Definition cube_violation (j : cube_job) : Prop :=
  is_domain_explicit (shaper j) = true
  \/ is_domain_explicit (cube j) = true
  \/ len_unique float_eqb (domain (shaper j)) <> 2
  \/ len_unique float_eqb (domain (cube j)) <> 2
  \/ (has_3x1D j = true
      /\ ~ (2 <= Z.of_nat (size (shaper j)) <= 65536)%Z)
  \/ (has_3D j = true /\ ~ (2 <= Z.of_nat (size (cube j)) <= 256)%Z).

(** What the round trip assumes of the printing and reading of floats: a
    printed value is a token, and reading it back gives a value that is
    [close] to the printed one at that number of decimals. *)
Class FloatFormat (close : nat -> float -> float -> Prop) : Prop := {
  format_float_token : forall d v, token (format_float d v);
  format_float_close :
    forall d v, exists v',
      float_of_token (format_float d v) = Some v' /\ close d v v'
}.

(** The value read back from the text printed for [v]. *)
Definition reread (d : nat) (v : float) : float :=
  match float_of_token (format_float d v) with
  | Some v' => v'
  | None => v
  end.

(** A comment that the Sony and Resolve formats carry unchanged: without
    whitespace at either end and without line breaks. *)
Definition plain_comment (c : str) : Prop := strip c = c /\ no_break c.

(** The text of a data row of a Sony file. *)
Definition spi3d_row_text (decimals : nat) (idx : list Z) (v : list float)
  : str :=
  join SP (map format_int idx ++ map (format_float decimals) v).

(** The index and value rows of a cube of side [n]: each grid coordinate
    with the three values of the corresponding row of the table. *)
Definition spi3d_items (l : LUT) (n : nat) : list (list Z * list float) :=
  combine (grid n) (rows (mk_ndarray [n * n * n; 3] (data (table l)))).

(** The lines of the Sony file of a cube of side [n]. *)
Definition spi3d_file_lines (decimals : nat) (l : LUT) (n : nat) : list str :=
  [lit "SPILUT 1.0"; lit "3 3";
   join SP [format_int (Z.of_nat n); format_int (Z.of_nat n);
            format_int (Z.of_nat n)]]
  ++ map (fun it => spi3d_row_text decimals (fst it) (snd it))
         (spi3d_items l n)
  ++ map (fun c => lit "# " ++ c) (comments l).

Definition msg_non_uniform : str :=
  lit "Non-uniform " ++ quoted "LUT" ++ lit " shape is unsupported!".

Definition msg_indexes : str :=
  lit "Indexes do not match expected " ++ quoted "LUT3D" ++ lit " indexes!".

(** The rows collected so far are triples, as many values as indexes. *)
Definition spi3d_rows_ok (st : spi3d_state) : Prop :=
  Forall (fun r => length r = 3) (sp_data_indexes st)
  /\ Forall (fun r => length r = 3) (sp_data_table st)
  /\ length (sp_data_table st) = length (sp_data_indexes st).

(** An index row of three naturals that fit a 64-bit signed integer. *)
Definition small_index (idx : list Z) : Prop :=
  exists i j k,
    idx = [Z.of_nat i; Z.of_nat j; Z.of_nat k]
    /\ (Z.of_nat i < 2 ^ 63)%Z /\ (Z.of_nat j < 2 ^ 63)%Z
    /\ (Z.of_nat k < 2 ^ 63)%Z.

(** A data row: a small index and three values. *)
Definition good_item (it : list Z * list float) : Prop :=
  small_index (fst it) /\ length (snd it) = 3.

End Vocabulary.

(** ** Vocabulary of the further properties *)

Section ReaderVocabulary.

Context {FM : FloatModel}.

(** The lines that the reading loop of the Sony codec acts on: comments
    and lines of three or of six tokens. *)
Definition spi3d_relevant (line : str) : bool :=
  startswith line (lit "#")
  || (length (split line) =? 3) || (length (split line) =? 6).

(** The lines of a Sony file that declare the size: not a comment, and
    three tokens. *)
Definition size_lines (lines : list str) : list str :=
  filter (fun l => negb (startswith l (lit "#")) && (length (split l) =? 3))
         lines.

Definition comment_lines (lines : list str) : list str :=
  filter (fun l => startswith l (lit "#")) lines.

(** The lines that are not index and value rows. *)
Definition other_lines (lines : list str) : list str :=
  filter (fun l => negb (negb (startswith l (lit "#"))
                         && (length (split l) =? 6)))
         lines.

(** What the reading loop does with a line of three tokens. *)
Definition spi3d_size (line : str) : result Z :=
  attest (len_set (split line) =? 1) msg_non_uniform ;;;
  as_int_scalar (hd [] (split line)).

(** What the reading loop does with a line of six tokens: the index row
    and the value row. *)
Definition spi3d_item (line : str) : result (list Z * list float) :=
  values <- as_float_tokens (skipn 3 (split line)) ;;
  idx <- as_int_array (firstn 3 (split line)) ;;
  Ok (idx, values).

(** The index and value rows in the order of the sorted indexes. *)
Definition sorted_items (items : list (list Z * list float))
  : list (list Z * list float) :=
  map (fun p => nth p items ([], []))
      (lexsort [map (fun r => nth 2 r 0%Z) (map fst items);
                map (fun r => nth 1 r 0%Z) (map fst items);
                map (fun r => nth 0 r 0%Z) (map fst items)]).

(** An index row and a value row of three entries each. *)
Definition row_item (it : list Z * list float) : Prop :=
  length (fst it) = 3 /\ length (snd it) = 3.

(** The two values that the Resolve writer prints for a domain:
    [domain[0][0]] and [domain[1][0]]. *)
Definition domain_lo (l : LUT) : float := nth 0 (data (domain l)) f0.
Definition domain_hi (l : LUT) : float := nth 3 (data (domain l)) f0.

(** The size line of a table in a Resolve file, followed by its range line
    when the domain is not the default one. *)
Definition size_and_range_lines (decimals : nat) (key_size key_range : str)
    (l : LUT) : list str :=
  (key_size ++ SP ++ format_int (Z.of_nat (size l)))
  :: (if float_array_equal (domain l) default_domain then []
      else [key_range ++ SP ++ format_float decimals (domain_lo l) ++ SP
            ++ format_float decimals (domain_hi l)]).

(** The rows of a cube in the order of a Resolve file, the first index
    changing fastest. *)
Definition cube_rows_F (t : ndarray float) (n : nat) : list (list float) :=
  map (fun r => grid_point t (r mod n) (r / n mod n) (r / (n * n)))
      (seq 0 (n * n * n)).

(** The lines of the Resolve file of the two tables of a job. *)
Definition cube_file_lines (decimals : nat) (j : cube_job) : list str :=
  [lit "TITLE " ++ [DQ] ++ job_name j ++ [DQ]]
  ++ map (fun c => lit "# " ++ c) (comments (shaper j) ++ comments (cube j))
  ++ (if has_3x1D j
      then size_and_range_lines decimals (lit "LUT_1D_SIZE")
             (lit "LUT_1D_INPUT_RANGE") (shaper j)
      else [])
  ++ (if has_3D j
      then size_and_range_lines decimals (lit "LUT_3D_SIZE")
             (lit "LUT_3D_INPUT_RANGE") (cube j)
      else [])
  ++ (if has_3x1D j
      then map (cube_row_text decimals) (rows (table (shaper j))) ++ [[]]
      else [])
  ++ (if has_3D j
      then map (cube_row_text decimals)
               (cube_rows_F (table (cube j)) (size (cube j)))
      else []).

(** The domain that the Resolve reader builds from the range line written
    for a table: none when the domain is the default one. *)
Definition read_back_domain (decimals : nat) (l : LUT)
  : option (ndarray float) :=
  if float_array_equal (domain l) default_domain then None
  else Some (tstack3 [reread decimals (domain_lo l);
                      reread decimals (domain_hi l)]).

(** A line of a Resolve file whose first token is the keyword [TITLE]. *)
Definition is_title_line (raw : str) : bool :=
  let line := strip raw in
  negb (length line =? 0) && negb (startswith line (lit "#"))
  && match split line with
     | t0 :: _ => str_eqb t0 (lit "TITLE")
     | [] => false
     end.

(** The title that a title line gives: the tokens after the keyword
    joined by single spaces, without the first and the last character. *)
Definition title_of_line (raw : str) : str :=
  slice_1_m1 (join SP (tl (split (strip raw)))).

(** The title of a Resolve file: that of its last title line, or the
    default when it has none. *)
Definition file_title (default : str) (text : str) : str :=
  last (map title_of_line (filter is_title_line (readlines text))) default.

(** The keywords of a Resolve file. *)
Definition cube_keywords : list str :=
  [lit "TITLE"; lit "LUT_1D_INPUT_RANGE"; lit "LUT_3D_INPUT_RANGE";
   lit "LUT_1D_SIZE"; lit "LUT_3D_SIZE"].

(** No text that is read as a float starts with the comment marker or is a
    keyword. *)
Definition float_text_plain : Prop :=
  forall t v, float_of_token t = Some v ->
              startswith t (lit "#") = false /\ ~ In t cube_keywords.

(** Every whitespace character of the string is a space that no whitespace
    follows. *)
Fixpoint single_spaced (s : str) : bool :=
  match s with
  | [] => true
  | c :: s' =>
      (if isspace c
       then Ascii.eqb c " "%char
            && match s' with
               | [] => true
               | c' :: _ => negb (isspace c')
               end
       else true)
      && single_spaced s'
  end.

End ReaderVocabulary.

(** ** Example files and tables, in the decimal float model *)

Module Examples.

Import DecimalFloat.

(** A data row whose three values are the integer [n]. *)
Definition data_row (n : nat) : str :=
  let v := nat_chars n ++ lit ".0" in v ++ SP ++ v ++ SP ++ v.

Definition title (path : str) : str := path.

Definition no_repr (ops : list (@operator model)) : str := [].

(** A shaper of 10 rows followed by a cube of side 3. *)
Definition composite_file : str :=
  file_of ([lit "# A first comment."; lit "LUT_1D_SIZE 10";
            lit "LUT_3D_SIZE 3"]
           ++ map data_row (seq 0 37) ++ [lit "#   The last comment.  "]).



Definition composite_ops : list (@operator model) :=
  Eval vm_compute in
    match read_LUT_ResolveCube title (lit "composite.cube") composite_file with
    | Ok (LUTSequence ops) => ops
    | _ => []
    end.

(** A cube of side 4 whose data row [r] holds the value [r]. *)
Definition cube4_file : str :=
  file_of (lit "LUT_3D_SIZE 4" :: map data_row (seq 0 64)).

Definition cube4_state : @cube_state model :=
  Eval vm_compute in
    match cube_lines (cube_initial (title (lit "cube4.cube")))
                     (readlines cube4_file) with
    | Ok st => st
    | Raise _ => cube_initial []
    end.

Definition cube4_values : list (list Q) :=
  Eval vm_compute in
    match mapM as_float_tokens (cs_data cube4_state) with
    | Ok v => v
    | Raise _ => []
    end.

(** Rows without any size directive. *)
Definition no_size_file : str :=
  file_of [lit "# rows only"; lit "0.0 0.0 0.0"; lit "1.0 1.0 1.0"].

Definition no_size_state : @cube_state model :=
  Eval vm_compute in
    match cube_lines (cube_initial (title (lit "rows.cube")))
                     (readlines no_size_file) with
    | Ok st => st
    | Raise _ => cube_initial []
    end.

Definition no_size_table : ndarray Q :=
  Eval vm_compute in
    match as_float_table (cs_data no_size_state) with
    | Ok t => t
    | Raise _ => mk_ndarray [] []
    end.

(** A Sony file whose size line is not uniform. *)
Definition non_uniform_file : str :=
  file_of [lit "SPILUT 1.0"; lit "3 3"; lit "3 4 5";
           lit "0 0 0 0.0 0.0 0.0"].

(** A 3D table of side [n] whose [p]-th value is [p / 7]. *)
Definition ramp (n : nat) : ndarray Q :=
  mk_ndarray [n; n; n; 3]
    (map (fun p => (Z.of_nat p # 7)%Q) (seq 0 (n * n * n * 3))).

Definition unity : ndarray Q := mk_ndarray [0; 3] [].

(** A cube of side 2 with two comments. *)
Definition plain_lut : @LUT model :=
  LUT3D (ramp 2) (lit "plain") None
    [lit "A first comment."; lit "A second comment."].

(** A cube of side 2 whose only comment starts with a space. *)
Definition padded_lut : @LUT model :=
  LUT3D (ramp 2) (lit "padded") None [lit " padded"].

(** The Sony file of [padded_lut] at 7 decimals. *)
Definition padded_text : str :=
  Eval vm_compute in
    match written (write_LUT_SonySPI3D no_repr (Single (Table padded_lut)) 7)
    with
    | Some text => text
    | None => []
    end.

(** A Sony file of side 2 whose rows are not in order. *)
Definition unordered_file : str :=
  file_of [lit "SPILUT 1.0"; lit "3 3"; lit "2 2 2";
           lit "1 1 1 1.0 1.0 1.0"; lit "0 0 1 0.0 0.0 1.0";
           lit "1 0 0 1.0 0.0 0.0"; lit "0 1 0 0.0 1.0 0.0";
           lit "0 0 0 0.0 0.0 0.0"; lit "1 1 0 1.0 1.0 0.0";
           lit "0 1 1 0.0 1.0 1.0"; lit "1 0 1 1.0 0.0 1.0";
           lit "# Rows in no particular order."].

(** A Sony file that declares the side 2 and holds no row. *)
Definition no_rows_file : str :=
  file_of [lit "SPILUT 1.0"; lit "3 3"; lit "2 2 2"; lit "# No rows."].

Definition no_rows_state : @spi3d_state model :=
  Eval vm_compute in
    match spi3d_lines spi3d_initial (stripped_lines no_rows_file) with
    | Ok st => st
    | Raise _ => spi3d_initial
    end.

End Examples.

(** Further example files and tables. *)

Module MoreExamples.

Import DecimalFloat Examples.

(** The lines of [unordered_file] without the two header lines, after a
    line that is not part of the format. *)
Definition headerless_file : str :=
  file_of [lit "a line of five tokens"; lit "2 2 2";
           lit "1 1 1 1.0 1.0 1.0"; lit "0 0 1 0.0 0.0 1.0";
           lit "1 0 0 1.0 0.0 0.0"; lit "0 1 0 0.0 1.0 0.0";
           lit "0 0 0 0.0 0.0 0.0"; lit "1 1 0 1.0 1.0 0.0";
           lit "0 1 1 0.0 1.0 1.0"; lit "1 0 1 1.0 0.0 1.0";
           lit "# Rows in no particular order."].

(** [unordered_file] with its first two rows exchanged. *)
Definition reordered_file : str :=
  file_of [lit "SPILUT 1.0"; lit "3 3"; lit "2 2 2";
           lit "0 0 1 0.0 0.0 1.0"; lit "1 1 1 1.0 1.0 1.0";
           lit "1 0 0 1.0 0.0 0.0"; lit "0 1 0 0.0 1.0 0.0";
           lit "0 0 0 0.0 0.0 0.0"; lit "1 1 0 1.0 1.0 0.0";
           lit "0 1 1 0.0 1.0 1.0"; lit "1 0 1 1.0 0.0 1.0";
           lit "# Rows in no particular order."].

(** The table read from [unordered_file]. *)
Definition unordered_lut : @LUT model :=
  Eval vm_compute in
    match read_LUT_SonySPI3D title (lit "unordered.spi3d") unordered_file with
    | Ok l => l
    | Raise _ => plain_lut
    end.

(** The declared sizes and the index and value rows of
    [unordered_file]. *)
Definition unordered_sizes : list Z :=
  Eval vm_compute in
    match mapM spi3d_size
               (size_lines (stripped_lines unordered_file)) with
    | Ok v => v
    | Raise _ => []
    end.

Definition unordered_items : list (list Z * list Q) :=
  Eval vm_compute in
    match mapM (spi3d_item (FM := model))
               (data_lines (stripped_lines unordered_file)) with
    | Ok v => v
    | Raise _ => []
    end.

(** A 3x1D table of two rows. *)
Definition shaper_lut : @LUT model :=
  LUT3x1D (mk_ndarray [2; 3] (map (fun p => (Z.of_nat p # 4)%Q) (seq 0 6)))
    (lit "A shaper") None [lit "A shaper comment."].

(** A Resolve file whose title has no quotes and whose size line declares
    more rows than the file has. *)
Definition unquoted_file : str :=
  file_of [lit "TITLE Demo"; lit "# A comment."; lit "LUT_1D_SIZE 5";
           lit "0.0 0.0 0.0"; lit "0.5 0.5 0.5"; lit "1.0 1.0 1.0"].



Definition unquoted_value : @LUT_value model :=
  Eval vm_compute in
    match read_LUT_ResolveCube title (lit "unquoted.cube") unquoted_file with
    | Ok v => v
    | Raise _ => LUTSequence []
    end.

(** A Resolve file that declares a cube of side 2 and has three rows. *)
Definition short_file : str :=
  file_of [lit "LUT_3D_SIZE 2";
           lit "0.0 0.0 0.0"; lit "0.5 0.5 0.5"; lit "1.0 1.0 1.0"].

Definition short_state : @cube_state model :=
  Eval vm_compute in
    match cube_lines (cube_initial (title (lit "short.cube")))
                     (readlines short_file) with
    | Ok st => st
    | Raise _ => cube_initial []
    end.

Definition short_values : list (list Q) :=
  Eval vm_compute in
    match mapM as_float_tokens (cs_data short_state) with
    | Ok v => v
    | Raise _ => []
    end.

(** The writers of the two codecs of this development; the others are
    not called in the examples. *)
Definition writers (c : codec) (L : @LUT_value model) (path : str) (d : nat)
  : outcome :=
  match c with
  | ResolveCube => write_LUT_ResolveCube unity unity [] [] L d
  | SonySPI3D => write_LUT_SonySPI3D no_repr L d
  | _ => mk_outcome [] None (Raise ValueError)
  end.

End MoreExamples.

(** * Properties *)

Arguments lit : simpl never.

Unset Implicit Arguments.

(** ** Results *)

Lemma bind_Ok {A B} (r : result A) (k : A -> result B) (b : B) :
  bind r k = Ok b -> exists a, r = Ok a /\ k a = Ok b.
Proof. destruct r; simpl; intros H; [eauto | discriminate]. Qed.

Lemma bind_Raise {A B} (r : result A) (k : A -> result B) (e : exception) :
  bind r k = Raise e ->
  r = Raise e \/ exists a, r = Ok a /\ k a = Raise e.
Proof. destruct r; simpl; intros H; [eauto | left; congruence]. Qed.

Lemma attest_Ok c msg u : attest c msg = Ok u -> c = true.
Proof. destruct c; simpl; [reflexivity | discriminate]. Qed.

Lemma attest_false c msg : c = false -> attest c msg = Raise (AssertionError msg).
Proof. intros ->; reflexivity. Qed.

Lemma str_eqb_eq a b : str_eqb a b = true <-> a = b.
Proof.
  unfold str_eqb; destruct (list_eq_dec ascii_dec a b); split; congruence.
Qed.

Lemma str_eqb_neq a b : a <> b -> str_eqb a b = false.
Proof.
  unfold str_eqb; destruct (list_eq_dec ascii_dec a b); congruence.
Qed.

(** ** The dispatch layer *)

Section DispatchFacts.

Variable V : Type.
Variable splitext_ext : str -> str.
Variable read_function : codec -> str -> result V.

Let read := read_LUT splitext_ext read_function.

(** C4. When the method resolves to "Iridas Cube" and the Iridas codec
    raises a value error, [read_LUT] calls the Resolve codec once more and
    returns whatever it returns or raises; for every other method a value
    error of the codec is raised to the caller after that single call. *)
Theorem read_LUT_value_error_policy (path : str) (method : option str)
    (m : str) :
  resolve_method splitext_ext path method = Ok m ->
  (m = lit "iridas cube" ->
   read_function IridasCube path = Raise ValueError ->
   read path method
   = ([IridasCube; ResolveCube], read_function ResolveCube path))
  /\ (m <> lit "iridas cube" ->
      forall c, getitem LUT_READ_METHODS m = Ok c ->
                read_function c path = Raise ValueError ->
                read path method = ([c], Raise ValueError)).
Proof.
  intros Hm; unfold read, read_LUT; rewrite Hm; split.
  - intros -> Hv.
    change (getitem LUT_READ_METHODS (lit "iridas cube")) with (Ok IridasCube).
    cbv beta iota; rewrite Hv; reflexivity.
  - intros Hne c Hc Hv.
    rewrite Hc, Hv, (str_eqb_neq _ _ Hne); reflexivity.
Qed.

End DispatchFacts.

Lemma read_LUT_value_error_policy_witness :
  read_LUT (fun _ => lit ".cube")
    (fun c _ => match c with IridasCube => Raise ValueError | _ => Ok c end)
    (lit "shaper.cube") None
  = ([IridasCube; ResolveCube], Ok ResolveCube).
Proof.
  refine (proj1 (read_LUT_value_error_policy codec (fun _ => lit ".cube")
            (fun c _ => match c with
                        | IridasCube => Raise ValueError
                        | _ => Ok c
                        end)
            (lit "shaper.cube") None (lit "iridas cube") _) _ _);
    reflexivity.
Defined.

(** ** Strings *)

Lemma lstrip_decompose s :
  exists ws, s = ws ++ lstrip s /\ Forall (fun c => isspace c = true) ws.
Proof.
  induction s as [|c s IH]; simpl.
  - exists []; split; [reflexivity | constructor].
  - destruct (isspace c) eqn:Hc.
    + destruct IH as (ws & E & F).
      exists (c :: ws); split; [simpl; congruence | constructor; assumption].
    + exists []; split; [reflexivity | constructor].
Qed.

Lemma lstrip_head c s r : lstrip s = c :: r -> isspace c = false.
Proof.
  induction s as [|a s IH]; simpl; [discriminate|].
  destruct (isspace a) eqn:Ha; [exact IH|].
  intros E; injection E as -> _; exact Ha.
Qed.

Lemma rstrip_decompose s :
  exists ws, s = rstrip s ++ ws /\ Forall (fun c => isspace c = true) ws.
Proof.
  unfold rstrip.
  destruct (lstrip_decompose (rev s)) as (ws & E & F).
  exists (rev ws); split.
  - rewrite <- rev_app_distr, <- E, rev_involutive; reflexivity.
  - apply Forall_rev; exact F.
Qed.

Lemma strip_head raw c r : strip raw = c :: r -> isspace c = false.
Proof.
  unfold strip; intros E.
  destruct (rstrip_decompose (lstrip raw)) as (ws & D & _).
  rewrite E in D; simpl in D.
  eapply lstrip_head; exact D.
Qed.

Lemma split_go_nonempty cur s : cur <> [] -> split_go cur s <> [].
Proof.
  revert cur; induction s as [|c s IH]; intros cur Hc; simpl.
  - destruct cur; [contradiction | discriminate].
  - destruct (isspace c).
    + destruct cur; [contradiction | discriminate].
    + apply IH; discriminate.
Qed.

Lemma split_strip_nonempty raw : strip raw <> [] -> split (strip raw) <> [].
Proof.
  intros Hne; destruct (strip raw) as [|c r] eqn:E; [contradiction|].
  unfold split; simpl; rewrite (strip_head _ _ _ E).
  apply split_go_nonempty; discriminate.
Qed.

Lemma length_eqb_0 {A} (l : list A) : (length l =? 0) = false -> l <> [].
Proof. destruct l; simpl; [discriminate | discriminate]. Qed.

(** *** Lines of a file *)

Lemma readlines_go_line (l : str) : forall cur rest,
  no_break l ->
  readlines_go cur (l ++ LF :: rest)
  = (rev cur ++ l ++ [LF]) :: readlines_go [] rest.
Proof.
  induction l as [|c l IH]; intros cur rest H.
  - reflexivity.
  - inversion H as [|? ? [Hlf Hcr] Hl]; subst.
    cbn [app readlines_go].
    destruct (Ascii.eqb_spec c LF) as [|_]; [contradiction|].
    destruct (Ascii.eqb_spec c CR) as [|_]; [contradiction|].
    rewrite (IH (c :: cur) rest Hl); cbn [rev].
    rewrite <- app_assoc; reflexivity.
Qed.

Lemma readlines_file_of (ls : list str) :
  Forall no_break ls ->
  readlines (file_of ls) = map (fun l => l ++ [LF]) ls.
Proof.
  unfold readlines; induction 1 as [|l ls Hl _ IH]; [reflexivity|].
  unfold file_of; cbn [flat_map map].
  rewrite <- app_assoc; cbn [app].
  rewrite (readlines_go_line l [] _ Hl); cbn [rev app].
  f_equal; exact IH.
Qed.

(** *** Stripping *)

Lemma lstrip_spaces ws s :
  Forall (fun c => isspace c = true) ws -> lstrip (ws ++ s) = lstrip s.
Proof.
  induction 1 as [|c ws Hc _ IH]; [reflexivity|].
  cbn [app lstrip]; rewrite Hc; exact IH.
Qed.

Lemma lstrip_fixed s :
  match s with [] => False | c :: _ => isspace c = false end -> lstrip s = s.
Proof. destruct s as [|c s]; [contradiction|]; simpl; intros ->; reflexivity. Qed.

Lemma trimmed_app_head c s :
  match (c :: s) with [] => False | x :: _ => isspace x = false end
  = (isspace c = false).
Proof. reflexivity. Qed.

(** Stripping removes the whitespace around a trimmed string. *)
Lemma strip_spec ws1 core ws2 :
  trimmed core ->
  Forall (fun c => isspace c = true) ws1 ->
  Forall (fun c => isspace c = true) ws2 ->
  strip (ws1 ++ core ++ ws2) = core.
Proof.
  intros [Hh Hl] F1 F2; unfold strip, rstrip.
  rewrite (lstrip_spaces ws1 _ F1).
  rewrite (lstrip_fixed (core ++ ws2))
    by (destruct core; [contradiction | exact Hh]).
  rewrite rev_app_distr, (lstrip_spaces (rev ws2) _ (Forall_rev F2)).
  rewrite (lstrip_fixed (rev core)) by exact Hl.
  apply rev_involutive.
Qed.

Lemma strip_trimmed_line (l : str) : trimmed l -> strip (l ++ [LF]) = l.
Proof.
  intros H; apply (strip_spec [] l [LF] H); repeat constructor.
Qed.

(** A string that stripping leaves as it is, is empty or trimmed. *)
Lemma strip_fixed_trimmed (c : str) : strip c = c -> c = [] \/ trimmed c.
Proof.
  intros E; destruct c as [|x c']; [left; reflexivity | right].
  split.
  - apply (strip_head _ _ _ E).
  - assert (R : rev (x :: c') = lstrip (rev (lstrip (x :: c')))).
    { rewrite <- E at 1; unfold strip, rstrip; apply rev_involutive. }
    rewrite R.
    destruct (lstrip (rev (lstrip (x :: c')))) as [|y r] eqn:El.
    + cbn [rev] in R; apply app_eq_nil in R as [_ R]; discriminate R.
    + apply (lstrip_head _ _ _ El).
Qed.

Lemma trimmed_last_app (a b : str) :
  b <> [] ->
  match rev (a ++ b) with [] => False | c :: _ => isspace c = false end
  = match rev b with [] => False | c :: _ => isspace c = false end.
Proof.
  intros Hb; rewrite rev_app_distr.
  destruct (rev b) as [|y r] eqn:E; [|reflexivity].
  apply (f_equal (@rev ascii)) in E; rewrite rev_involutive in E.
  contradiction.
Qed.

(** The stripped form of a comment line, and the comment read from it. *)
Lemma strip_comment_line (c : str) :
  strip c = c ->
  exists sl,
    strip (lit "# " ++ c ++ [LF]) = sl
    /\ sl <> []
    /\ startswith sl (lit "#") = true
    /\ strip (tl sl) = c.
Proof.
  intros E; destruct (strip_fixed_trimmed c E) as [-> | T].
  - eexists; split; [reflexivity|].
    repeat split; discriminate.
  - assert (Hne : c <> []) by (destruct T as [H _]; destruct c; [contradiction | discriminate]).
    exists (lit "# " ++ c); split; [|split; [|split]].
    + rewrite app_assoc; apply strip_trimmed_line.
      split; [reflexivity|].
      rewrite (trimmed_last_app (lit "# ") c Hne); apply T.
    + discriminate.
    + reflexivity.
    + replace (tl (lit "# " ++ c)) with ([" "%char] ++ c ++ [])
        by (rewrite app_nil_r; reflexivity).
      apply strip_spec; [exact T | repeat constructor | constructor].
Qed.

(** *** Splitting *)

Lemma split_go_token (t : str) : forall cur rest,
  Forall (fun c => isspace c = false) t ->
  split_go cur (t ++ rest) = split_go (rev t ++ cur) rest.
Proof.
  induction t as [|c t IH]; intros cur rest F; [reflexivity|].
  inversion F as [|? ? Hc Ft]; subst.
  cbn [app split_go]; rewrite Hc, (IH _ _ Ft); cbn [rev].
  rewrite <- app_assoc; reflexivity.
Qed.

Lemma split_go_join (ts : list str) : forall t cur,
  token t -> Forall token ts ->
  split_go cur (join SP (t :: ts)) = (rev cur ++ t) :: ts.
Proof.
  induction ts as [|t' ts IH]; intros t cur [Hne Ft] F.
  - cbn [join]; rewrite <- (app_nil_r t) at 1.
    rewrite (split_go_token t cur [] Ft); cbn [split_go].
    destruct (rev t ++ cur) as [|x y] eqn:E.
    + apply app_eq_nil in E as [E _].
      apply (f_equal (@rev ascii)) in E; rewrite rev_involutive in E.
      contradiction.
    + rewrite <- E, rev_app_distr, rev_involutive; reflexivity.
  - inversion F as [|? ? Ht' Fts]; subst.
    change (join SP (t :: t' :: ts)) with (t ++ SP ++ join SP (t' :: ts)).
    rewrite (split_go_token t cur _ Ft).
    change (SP ++ join SP (t' :: ts)) with (" "%char :: join SP (t' :: ts)).
    cbn [split_go].
    change (isspace " "%char) with true; cbv iota.
    destruct (rev t ++ cur) as [|x y] eqn:E.
    + apply app_eq_nil in E as [E _].
      apply (f_equal (@rev ascii)) in E; rewrite rev_involutive in E.
      contradiction.
    + rewrite <- E, rev_app_distr, rev_involutive.
      rewrite (IH t' [] Ht' Fts); reflexivity.
Qed.

(** Splitting the tokens joined by single spaces gives the tokens back. *)
Lemma split_join (ts : list str) : Forall token ts -> split (join SP ts) = ts.
Proof.
  intros F; destruct ts as [|t ts]; [reflexivity|].
  inversion F; subst; unfold split.
  rewrite split_go_join by assumption; reflexivity.
Qed.

Lemma token_no_break (t : str) : token t -> no_break t.
Proof.
  intros [_ F]; unfold no_break; rewrite Forall_forall in *.
  intros c Hc; specialize (F c Hc); split; intros ->; discriminate F.
Qed.

Lemma join_no_break (ts : list str) : Forall token ts -> no_break (join SP ts).
Proof.
  induction 1 as [|t ts Ht Fts IH]; [constructor|].
  destruct ts as [|t' ts'].
  - apply token_no_break; exact Ht.
  - change (join SP (t :: t' :: ts')) with (t ++ SP ++ join SP (t' :: ts')).
    apply Forall_app; split; [apply token_no_break; exact Ht|].
    apply Forall_app; split; [|exact IH].
    repeat constructor; discriminate.
Qed.

Lemma join_head (t : str) (ts : list str) c r :
  t = c :: r -> exists r', join SP (t :: ts) = c :: r'.
Proof.
  intros ->; destruct ts; cbn [join app]; eauto.
Qed.

Lemma join_trimmed (ts : list str) :
  ts <> [] -> Forall token ts -> trimmed (join SP ts).
Proof.
  intros Hne F; induction F as [|t ts Ht Fts IH]; [contradiction|].
  destruct Ht as [Htne Ft].
  destruct ts as [|t' ts'].
  - cbn [join]; split.
    + destruct t as [|c r]; [contradiction|].
      inversion Ft; assumption.
    + destruct (rev t) as [|y r] eqn:E.
      * apply (f_equal (@rev ascii)) in E; rewrite rev_involutive in E.
        contradiction.
      * rewrite Forall_forall in Ft; apply Ft.
        apply in_rev; rewrite E; left; reflexivity.
  - change (join SP (t :: t' :: ts')) with (t ++ SP ++ join SP (t' :: ts')).
    specialize (IH ltac:(discriminate)); destruct IH as [IHh IHl].
    split.
    + destruct t as [|c r]; [contradiction|].
      inversion Ft; assumption.
    + rewrite app_assoc, trimmed_last_app; [exact IHl|].
      destruct (join SP (t' :: ts')); [contradiction | discriminate].
Qed.

(** *** Integers as text *)

Lemma is_digit_not_space c : is_digit c = true -> isspace c = false.
Proof.
  unfold is_digit, isspace; cbv zeta.
  rewrite andb_true_iff, !N.leb_le; intros [H1 H2].
  repeat (apply orb_false_iff; split).
  - apply andb_false_iff; right; apply N.leb_gt; lia.
  - apply andb_false_iff; right; apply N.leb_gt; lia.
  - apply N.eqb_neq; lia.
  - apply N.eqb_neq; lia.
Qed.

Lemma uint_chars_digits d : Forall (fun c => is_digit c = true) (uint_chars d).
Proof. induction d; simpl; constructor; (reflexivity || assumption). Qed.

Lemma digits_value_uint d : forall acc,
  digits_value acc (uint_chars d)
  = Some (N.of_nat (Nat.of_uint_acc d (N.to_nat acc))).
Proof.
  induction d; intros acc; cbn [uint_chars digits_value Nat.of_uint_acc].
  1: rewrite N2Nat.id; reflexivity.
  all: match goal with
       | |- context [is_digit ?c] => change (is_digit c) with true
       end; cbv iota; rewrite IHd; do 2 f_equal;
       rewrite Nat.tail_mul_spec; unfold digit_val;
       match goal with
       | |- context [N_of_ascii ?c] =>
           let v := eval vm_compute in (N_of_ascii c) in
           change (N_of_ascii c) with v
       end; f_equal; lia.
Qed.

Lemma nat_chars_nonempty n : nat_chars n <> [].
Proof.
  unfold nat_chars.
  rewrite <- (DecimalNat.Unsigned.of_to n) at 1.
  rewrite DecimalNat.Unsigned.to_of.
  unfold Decimal.unorm; destruct (Decimal.nzhead (Nat.to_uint n)); discriminate.
Qed.

Lemma nat_of_digits_nat_chars n : nat_of_digits (nat_chars n) = Some (N.of_nat n).
Proof.
  pose proof (nat_chars_nonempty n) as Hne.
  unfold nat_of_digits; destruct (nat_chars n) eqn:E; [contradiction|].
  rewrite <- E; unfold nat_chars; rewrite digits_value_uint.
  change (Nat.of_uint_acc (Nat.to_uint n) (N.to_nat 0)) with (Nat.of_uint (Nat.to_uint n)).
  rewrite DecimalNat.Unsigned.of_to; reflexivity.
Qed.

Lemma int_of_token_digit c r :
  is_digit c = true ->
  int_of_token (c :: r)
  = match nat_of_digits (c :: r) with
    | Some n => Ok (Z.of_N n)
    | None => Raise ValueError
    end.
Proof.
  destruct c as [[|] [|] [|] [|] [|] [|] [|] [|]]; intros H;
    try discriminate H; reflexivity.
Qed.

Lemma nat_chars_token n : token (nat_chars n).
Proof.
  split; [apply nat_chars_nonempty|].
  eapply Forall_impl; [|apply uint_chars_digits].
  intros c; apply is_digit_not_space.
Qed.

Lemma format_int_nat n : format_int (Z.of_nat n) = nat_chars n.
Proof.
  unfold format_int; destruct (Z.of_nat n) eqn:E; try lia;
    rewrite <- E, Nat2Z.id; reflexivity.
Qed.

Lemma format_int_token n : token (format_int (Z.of_nat n)).
Proof. rewrite format_int_nat; apply nat_chars_token. Qed.

Lemma format_int_head n :
  exists c r, format_int (Z.of_nat n) = c :: r /\ is_digit c = true.
Proof.
  rewrite format_int_nat.
  pose proof (nat_chars_nonempty n) as Hne.
  pose proof (uint_chars_digits (Nat.to_uint n)) as F.
  unfold nat_chars in *.
  destruct (uint_chars (Nat.to_uint n)) as [|c r]; [contradiction|].
  inversion F; subst; eauto.
Qed.

(** Reading back a printed natural number below [2^63]. *)
Lemma int64_of_token_format n :
  (Z.of_nat n < 2 ^ 63)%Z ->
  int64_of_token (format_int (Z.of_nat n)) = Ok (Z.of_nat n).
Proof.
  intros H; unfold int64_of_token.
  destruct (format_int_head n) as (c & r & E & Hd).
  rewrite E, (int_of_token_digit c r Hd), <- E, format_int_nat.
  rewrite nat_of_digits_nat_chars; cbn [bind].
  rewrite nat_N_Z.
  unfold in_int64.
  destruct (Z.leb_spec (- 2 ^ 63) (Z.of_nat n)); [|lia].
  destruct (Z.ltb_spec (Z.of_nat n) (2 ^ 63)); [reflexivity | lia].
Qed.

(** ** Conversions that raise *)

Lemma mapM_Raise {A B} (f : A -> result B) (P : exception -> Prop) l e :
  (forall x e', f x = Raise e' -> P e') ->
  mapM f l = Raise e -> P e.
Proof.
  intros Hf; induction l as [|x l IH]; simpl; [discriminate|].
  destruct (f x) eqn:Ex; simpl.
  - destruct (mapM f l); simpl; [discriminate|].
    intros E; injection E as <-; apply IH; reflexivity.
  - intros E; injection E as <-; eapply Hf; exact Ex.
Qed.

Lemma mapM_length {A B} (f : A -> result B) l l' :
  mapM f l = Ok l' -> length l' = length l.
Proof.
  revert l'; induction l as [|x l IH]; simpl; intros l' E.
  - injection E as <-; reflexivity.
  - destruct (f x); [|discriminate]; simpl in E.
    destruct (mapM f l); [|discriminate]; simpl in E.
    injection E as <-; simpl; f_equal; apply IH; reflexivity.
Qed.

(** ** Arrays *)

Lemma nth_map_seq {B} (f : nat -> B) n i d :
  i < n -> nth i (map f (seq 0 n)) d = f i.
Proof.
  intros H.
  rewrite (nth_indep _ d (f 0)) by (rewrite length_map, length_seq; exact H).
  rewrite (map_nth f (seq 0 n) 0 i), seq_nth by exact H; reflexivity.
Qed.

Section ArrayFacts.

Variable A : Type.

Lemma chunk_concat w (rs : list (list A)) : forall i,
  Forall (fun r => length r = w) rs ->
  i < length rs ->
  firstn w (skipn (i * w) (concat rs)) = nth i rs [].
Proof.
  induction rs as [|r rs IH]; intros i F Hi; simpl in Hi; [lia|].
  inversion F as [|? ? Hr Hrs]; subst.
  destruct i as [|i]; simpl.
  - rewrite firstn_app, Nat.sub_diag, firstn_all; simpl.
    apply app_nil_r.
  - rewrite skipn_app.
    rewrite (skipn_all2 r) by lia.
    replace (length r + i * length r - length r) with (i * length r) by lia.
    simpl; apply IH; [exact Hrs | lia].
Qed.

Lemma concat_chunks w n : forall (l : list A),
  length l = n * w ->
  concat (map (fun i => firstn w (skipn (i * w) l)) (seq 0 n)) = l.
Proof.
  induction n as [|n IH]; intros l Hl.
  - destruct l; [reflexivity | discriminate].
  - cbn [seq map concat]; rewrite <- seq_shift, map_map.
    transitivity (firstn w l ++ skipn w l); [|apply firstn_skipn].
    f_equal.
    rewrite <- (IH (skipn w l)) by (rewrite length_skipn; lia).
    f_equal; apply map_ext; intros i.
    rewrite skipn_skipn; do 2 f_equal; lia.
Qed.

Lemma length_concat_uniform w (rs : list (list A)) :
  Forall (fun r => length r = w) rs -> length (concat rs) = length rs * w.
Proof.
  induction 1 as [|r rs Hr _ IH]; simpl; [reflexivity|].
  rewrite length_app, IH, Hr; reflexivity.
Qed.

Lemma rows_of_concat n w (rs : list (list A)) :
  Forall (fun r => length r = w) rs ->
  length rs = n ->
  rows (mk_ndarray [n; w] (concat rs)) = rs.
Proof.
  intros F Hn; unfold rows, row_width; simpl.
  rewrite Nat.mul_1_r.
  apply nth_ext with (d := []) (d' := []).
  - rewrite length_map, length_seq; congruence.
  - intros i Hi; rewrite length_map, length_seq in Hi.
    rewrite nth_map_seq by exact Hi.
    apply chunk_concat; [exact F | lia].
Qed.

Lemma as_array_uniform w (r : list A) (rs : list (list A)) :
  Forall (fun r' => length r' = w) (r :: rs) ->
  as_array (r :: rs) = Ok (mk_ndarray [length (r :: rs); w] (concat (r :: rs))).
Proof.
  intros F; unfold as_array.
  assert (Hr : length r = w) by (inversion F; assumption).
  replace (forallb _ (r :: rs)) with true; [rewrite Hr; reflexivity|].
  symmetry; apply forallb_forall; intros x Hx.
  rewrite Forall_forall in F; rewrite (F x Hx), Hr; apply Nat.eqb_refl.
Qed.

Lemma take_rows_all n w (rs : list (list A)) :
  Forall (fun r => length r = w) rs ->
  length rs = n ->
  take_rows (mk_ndarray [n; w] (concat rs)) (seq 0 n)
  = mk_ndarray [n; w] (concat rs).
Proof.
  intros F Hn; unfold take_rows, row_width; simpl.
  rewrite Nat.mul_1_r, length_seq; f_equal.
  rewrite flat_map_concat_map.
  apply concat_chunks.
  rewrite (length_concat_uniform w rs F); congruence.
Qed.

(** Index arithmetic. *)

Lemma ravel_C_bound sh : forall idx,
  Forall2 lt idx sh -> ravel_C sh idx < prod_shape sh.
Proof.
  induction sh as [|d sh IH]; intros idx F; inversion F; subst; simpl.
  - lia.
  - match goal with H : Forall2 lt _ sh |- _ => apply IH in H end.
    nia.
Qed.

Lemma ravel_F_bound sh : forall idx,
  Forall2 lt idx sh -> ravel_F sh idx < prod_shape sh.
Proof.
  induction sh as [|d sh IH]; intros idx F; inversion F; subst; simpl.
  - lia.
  - match goal with H : Forall2 lt _ sh |- _ => apply IH in H end.
    nia.
Qed.

Lemma unravel_ravel_C sh : forall idx,
  Forall2 lt idx sh -> unravel_C sh (ravel_C sh idx) = idx.
Proof.
  induction sh as [|d sh IH]; intros idx F; inversion F as [|i ? idx' ? Hi F']; subst; simpl.
  - reflexivity.
  - pose proof (ravel_C_bound _ _ F') as B.
    rewrite Nat.add_comm, Nat.div_add, Nat.Div0.mod_add by lia.
    rewrite Nat.div_small, Nat.mod_small by exact B.
    simpl; f_equal; apply IH; exact F'.
Qed.

Lemma unravel_ravel_F sh : forall idx,
  Forall2 lt idx sh -> unravel_F sh (ravel_F sh idx) = idx.
Proof.
  induction sh as [|d sh IH]; intros idx F; inversion F as [|i ? idx' ? Hi F']; subst; simpl.
  - reflexivity.
  - rewrite (Nat.mul_comm d), Nat.Div0.mod_add, Nat.div_add by lia.
    rewrite Nat.mod_small, Nat.div_small by exact Hi.
    simpl; f_equal; apply IH; exact F'.
Qed.

(** The element of a Fortran-order reshape at a multi-index [idx] is the
    element of the source at the multi-index with the same Fortran
    position. *)
Lemma unravel_F_bound sh : forall f,
  f < prod_shape sh -> Forall2 lt (unravel_F sh f) sh.
Proof.
  induction sh as [|d sh IH]; intros f Hf; simpl in *; constructor.
  - apply Nat.mod_upper_bound; nia.
  - apply IH. apply Nat.Div0.div_lt_upper_bound; nia.
Qed.

Lemma reshape_F_nth (new : list nat) (a b : ndarray A) (d : A) (idx : list nat) :
  reshape_F new a = Ok b ->
  prod_shape (shape a) = length (data a) ->
  Forall2 lt idx new ->
  shape b = new
  /\ length (data b) = length (data a)
  /\ nth (ravel_C new idx) (data b) d
     = nth (ravel_C (shape a) (unravel_F (shape a) (ravel_F new idx)))
           (data a) d.
Proof.
  unfold reshape_F; intros E Hwf F.
  remember (length (data a)) as L eqn:HL.
  destruct (prod_shape new =? L) eqn:Ep; [|discriminate].
  apply Nat.eqb_eq in Ep.
  pose proof (ravel_C_bound _ _ F) as BC; pose proof (ravel_F_bound _ _ F) as BF.
  destruct (data a) as [|d0 rest] eqn:Ed.
  { simpl in HL; lia. }
  injection E as <-; cbn [shape data].
  rewrite length_map, length_seq.
  split; [reflexivity | split; [reflexivity|]].
  rewrite nth_map_seq by lia.
  rewrite (unravel_ravel_C _ _ F).
  unfold flatten_F; rewrite Ed, <- HL.
  rewrite nth_map_seq by lia.
  apply nth_indep; rewrite <- HL, <- Hwf.
  apply ravel_C_bound, unravel_F_bound; lia.
Qed.


Lemma firstn_concat_uniform w (rs : list (list A)) : forall n,
  Forall (fun r => length r = w) rs ->
  firstn (n * w) (concat rs) = concat (firstn n rs).
Proof.
  induction rs as [|r rs IH]; intros n F.
  - simpl; rewrite !firstn_nil; reflexivity.
  - inversion F as [|? ? Hr Hrs]; subst.
    destruct n as [|n]; [reflexivity|].
    cbn [concat firstn Nat.mul].
    rewrite firstn_app, firstn_all2 by lia.
    replace (length r + n * length r - length r) with (n * length r) by lia.
    rewrite IH by exact Hrs; reflexivity.
Qed.

Lemma skipn_concat_uniform w (rs : list (list A)) : forall n,
  Forall (fun r => length r = w) rs ->
  skipn (n * w) (concat rs) = concat (skipn n rs).
Proof.
  induction rs as [|r rs IH]; intros n F.
  - simpl; rewrite !skipn_nil; reflexivity.
  - inversion F as [|? ? Hr Hrs]; subst.
    destruct n as [|n]; [reflexivity|].
    cbn [concat skipn Nat.mul].
    rewrite skipn_app, skipn_all2 by lia.
    replace (length r + n * length r - length r) with (n * length r) by lia.
    rewrite IH by exact Hrs; reflexivity.
Qed.

Lemma nth_concat_uniform w (rs : list (list A)) d : forall r c,
  Forall (fun x => length x = w) rs ->
  r < length rs -> c < w ->
  nth (r * w + c) (concat rs) d = nth c (nth r rs []) d.
Proof.
  induction rs as [|x rs IH]; intros r c F Hr Hc; simpl in Hr; [lia|].
  inversion F as [|? ? Hx Hrs]; subst.
  destruct r as [|r]; cbn [concat nth Nat.mul Nat.add].
  - apply app_nth1; lia.
  - rewrite app_nth2 by lia.
    replace (length x + r * length x + c - length x)
      with (r * length x + c) by lia.
    apply IH; [exact Hrs | lia | exact Hc].
Qed.

Lemma reshape_F_shape (new : list nat) (a b : ndarray A) :
  reshape_F new a = Ok b ->
  shape b = new /\ length (data b) = length (data a)
  /\ prod_shape new = length (data a).
Proof.
  unfold reshape_F.
  remember (length (data a)) as L eqn:HL.
  destruct (prod_shape new =? L) eqn:Ep; [|discriminate].
  apply Nat.eqb_eq in Ep.
  destruct (data a) as [|d0 rest]; intros E; injection E as <-;
    cbn [shape data].
  - simpl in HL; subst L; auto.
  - rewrite length_map, length_seq; auto.
Qed.

Lemma reshape_F_total (new : list nat) (a : ndarray A) :
  prod_shape new = length (data a) -> exists b, reshape_F new a = Ok b.
Proof.
  unfold reshape_F; intros ->; rewrite Nat.eqb_refl.
  destruct (data a); eauto.
Qed.

Lemma div_mod_3 n r :
  r < n * n * n ->
  r = r mod n + n * (r / n mod n) + n * n * (r / (n * n))
  /\ r mod n < n /\ r / n mod n < n /\ r / (n * n) < n.
Proof.
  intros H.
  assert (Hn : n <> 0) by (intros ->; simpl in H; lia).
  pose proof (Nat.div_mod_eq r n) as E1.
  pose proof (Nat.div_mod_eq (r / n) n) as E2.
  rewrite Nat.Div0.div_div in E2.
  repeat split.
  - nia.
  - apply Nat.mod_upper_bound; exact Hn.
  - apply Nat.mod_upper_bound; exact Hn.
  - apply Nat.Div0.div_lt_upper_bound; nia.
Qed.

Lemma grid_point_nth (t : ndarray A) n i j k :
  shape t = [n; n; n; 3] ->
  length (data t) = n * n * n * 3 ->
  i < n -> j < n -> k < n ->
  length (grid_point t i j k) = 3
  /\ forall c d, c < 3 ->
       nth c (grid_point t i j k) d
       = nth (ravel_C [n; n; n; 3] [i; j; k; c]) (data t) d.
Proof.
  intros Hs Hl Hi Hj Hk; unfold grid_point; rewrite Hs.
  assert (B : ravel_C [n; n; n; 3] [i; j; k; 0] + 3 <= length (data t)).
  { rewrite Hl; simpl; nia. }
  split.
  - rewrite length_firstn, length_skipn; lia.
  - intros c d Hc.
    rewrite nth_firstn.
    destruct (Nat.ltb_spec c 3) as [_|]; [|lia].
    rewrite nth_skipn; f_equal; simpl; lia.
Qed.

(** Reading rows in Fortran order into a cube: the grid point
    [(i, j, k)] is row [i + n j + n^2 k]. *)
Lemma reshape_F_rows (vals : list (list A)) n :
  Forall (fun r => length r = 3) vals ->
  length vals = n * n * n ->
  exists t,
    reshape_F [n; n; n; 3] (mk_ndarray [length vals; 3] (concat vals)) = Ok t
    /\ shape t = [n; n; n; 3]
    /\ length (data t) = n * n * n * 3
    /\ forall i j k, i < n -> j < n -> k < n ->
         grid_point t i j k = nth (i + n * j + n * n * k) vals [].
Proof.
  intros F Hn.
  pose proof (length_concat_uniform 3 vals F) as Hc.
  set (a := mk_ndarray [length vals; 3] (concat vals)).
  assert (W : prod_shape (shape a) = length (data a)).
  { cbn [a shape data]; rewrite Hc; simpl; lia. }
  destruct (reshape_F_total [n; n; n; 3] a) as (t & E).
  { cbn [a data]; rewrite Hc, Hn; simpl; lia. }
  exists t; split; [exact E|].
  destruct (reshape_F_shape _ _ _ E) as (Hs & Hl & _).
  cbn [a data] in Hl; rewrite Hc, Hn in Hl.
  split; [exact Hs | split; [exact Hl|]].
  intros i j k Hi Hj Hk.
  destruct (grid_point_nth t n i j k Hs Hl Hi Hj Hk) as [Lg Ng].
  set (r := i + n * j + n * n * k).
  assert (Hr : r < length vals) by (rewrite Hn; unfold r; nia).
  assert (Lr : length (nth r vals []) = 3).
  { rewrite Forall_forall in F; apply F, nth_In; exact Hr. }
  assert (D : exists d0 : A, True).
  { destruct (nth r vals []) as [|d0 ?]; [discriminate | eauto]. }
  destruct D as (d0 & _).
  apply nth_ext with (d := d0) (d' := d0); [congruence|].
  intros c Hc3; rewrite Lg in Hc3.
  rewrite (Ng c d0 Hc3).
  assert (Fi : Forall2 lt [i; j; k; c] [n; n; n; 3]).
  { repeat (apply Forall2_cons; [assumption|]); apply Forall2_nil. }
  destruct (reshape_F_nth _ _ _ d0 _ E W Fi) as (_ & _ & ->).
  cbn [a shape data].
  replace (ravel_F [n; n; n; 3] [i; j; k; c])
    with (ravel_F [length vals; 3] [r; c]) by (simpl; unfold r; rewrite Hn; nia).
  rewrite unravel_ravel_F
    by (repeat (apply Forall2_cons; [assumption|]); apply Forall2_nil).
  replace (ravel_C [length vals; 3] [r; c]) with (r * 3 + c) by (simpl; lia).
  apply nth_concat_uniform; assumption.
Qed.

Lemma rows_uniform (a : ndarray A) n w :
  shape a = [n; w] ->
  length (data a) = n * w ->
  Forall (fun r => length r = w) (rows a).
Proof.
  intros Hs Hl; unfold rows, row_width; rewrite Hs; cbn [hd tl].
  replace (prod_shape [w]) with w by (simpl; lia).
  apply Forall_forall; intros r Hr.
  apply in_map_iff in Hr as (i & <- & Hi); apply in_seq in Hi.
  rewrite length_firstn, length_skipn; nia.
Qed.

(** Flattening a cube in Fortran order into rows: row [r] is the grid
    point whose first index is [r mod n]. *)
Lemma reshape_F_to_rows (t : ndarray A) n :
  shape t = [n; n; n; 3] ->
  length (data t) = n * n * n * 3 ->
  exists t',
    reshape_F [n * n * n; 3] t = Ok t'
    /\ rows t'
       = map (fun r => grid_point t (r mod n) (r / n mod n) (r / (n * n)))
             (seq 0 (n * n * n)).
Proof.
  intros Hs Hl.
  destruct (reshape_F_total [n * n * n; 3] t) as (t' & E).
  { rewrite Hl; simpl; lia. }
  exists t'; split; [exact E|].
  destruct (reshape_F_shape _ _ _ E) as (Hs' & Hl' & _).
  unfold rows, row_width; rewrite Hs'; cbn [hd tl].
  change (prod_shape [3]) with 3.
  apply map_ext_in; intros r Hr; apply in_seq in Hr.
  destruct (div_mod_3 n r) as (Er & Hi & Hj & Hk); [lia|].
  set (i := r mod n) in *; set (j := r / n mod n) in *;
    set (k := r / (n * n)) in *.
  destruct (grid_point_nth t n i j k Hs Hl Hi Hj Hk) as [Lg Ng].
  assert (W : prod_shape (shape t) = length (data t))
    by (rewrite Hs, Hl; simpl; lia).
  assert (B : r * 3 + 3 <= length (data t')) by (rewrite Hl', Hl; lia).
  assert (D : exists d0 : A, True).
  { destruct (grid_point t i j k) as [|d0 ?]; [discriminate | eauto]. }
  destruct D as (d0 & _).
  apply nth_ext with (d := d0) (d' := d0).
  { rewrite length_firstn, length_skipn; lia. }
  intros c Hc; rewrite length_firstn, length_skipn in Hc.
  assert (Hc3 : c < 3) by lia.
  rewrite nth_firstn.
  destruct (Nat.ltb_spec c 3) as [_|]; [|lia].
  rewrite nth_skipn, (Ng c d0 Hc3).
  assert (Fi : Forall2 lt [r; c] [n * n * n; 3]).
  { repeat (apply Forall2_cons; [lia|]); apply Forall2_nil. }
  replace (r * 3 + c) with (ravel_C [n * n * n; 3] [r; c]) by (simpl; lia).
  destruct (reshape_F_nth _ _ _ d0 _ E W Fi) as (_ & _ & ->).
  rewrite Hs.
  replace (ravel_F [n * n * n; 3] [r; c])
    with (ravel_F [n; n; n; 3] [i; j; k; c]) by (simpl; nia).
  rewrite unravel_ravel_F
    by (repeat (apply Forall2_cons; [assumption|]); apply Forall2_nil).
  reflexivity.
Qed.

End ArrayFacts.

(** ** Files being written *)

Lemma writes_fwrite s : writes (fwrite s) s tt.
Proof. intros buf; reflexivity. Qed.

Lemma writes_ret {B} (b : B) : writes (wret b) [] b.
Proof. intros buf; unfold wret; rewrite app_nil_r; reflexivity. Qed.

Lemma writes_lift {B} (r : result B) (b : B) : r = Ok b -> writes (wlift r) [] b.
Proof. intros -> buf; unfold wlift; rewrite app_nil_r; reflexivity. Qed.

Lemma writes_bind {B C} (w : writer B) (k : B -> writer C) o1 o2 b c :
  writes w o1 b -> writes (k b) o2 c -> writes (wbind w k) (o1 ++ o2) c.
Proof.
  intros H1 H2 buf; unfold wbind; rewrite H1, H2, app_assoc; reflexivity.
Qed.

Lemma writes_eq {B} (w : writer B) o o' b :
  writes w o b -> o = o' -> writes w o' b.
Proof. intros H <-; exact H. Qed.

Lemma writes_wfor {B} (body : B -> writer unit) (f : B -> str) l :
  (forall x, In x l -> writes (body x) (f x) tt) ->
  writes (wfor body l) (concat (map f l)) tt.
Proof.
  induction l as [|x l IH]; intros H; simpl.
  - apply writes_ret.
  - apply writes_bind with (b := tt).
    + apply H; left; reflexivity.
    + apply IH; intros y Hy; apply H; right; exact Hy.
Qed.

Lemma writes_comments cs :
  writes (write_comments cs)
         (concat (map (fun c => lit "# " ++ c ++ [LF]) cs)) tt.
Proof.
  unfold write_comments; apply writes_wfor; intros c _; apply writes_fwrite.
Qed.

(** ** The grid of [linear_table] *)

#[local] Instance around_compat : Proper (Qeq ==> eq) around.
Proof.
  intros q q' E; unfold around.
  rewrite <- (Qfloor_comp _ _ E).
  assert (E' : (q - inject_Z (Qfloor q) == q' - inject_Z (Qfloor q))%Q)
    by (unfold Qminus; apply Qplus_comp; [exact E | apply Qeq_refl]).
  rewrite (Qcompare_comp _ _ E' (1 # 2) (1 # 2) (Qeq_refl _)).
  reflexivity.
Qed.

Lemma around_inject_Z z : around (inject_Z z) = z.
Proof.
  unfold around; rewrite Qfloor_Z.
  replace (Qcompare (inject_Z z - inject_Z z) (1 # 2)) with Lt; [reflexivity|].
  symmetry; apply Qlt_alt.
  assert (E : (inject_Z z - inject_Z z == 0)%Q) by ring.
  apply (Qle_lt_trans _ 0); [rewrite E; apply Qle_refl | reflexivity].
Qed.

Lemma linspace01_scaled n :
  map (fun q => around (q * inject_Z (Z.of_nat n - 1))%Q) (linspace01 n)
  = map Z.of_nat (seq 0 n).
Proof.
  destruct n as [|[|n]]; [reflexivity | reflexivity |].
  unfold linspace01; rewrite map_map.
  apply map_ext; intros i.
  rewrite <- (around_inject_Z (Z.of_nat i)) at 2.
  apply around_compat.
  replace (Z.of_nat (S (S n)) - 1)%Z with (Z.of_nat (S (S n) - 1)) by lia.
  field.
  intros H; apply (eq_sym) in H.
  revert H; apply Qlt_not_eq.
  change 0%Q with (inject_Z 0); rewrite <- Zlt_Qlt; lia.
Qed.

Lemma flat_map_concat_inner {B C} (h : B -> list (list C)) (l : list B) :
  flat_map (fun x => concat (h x)) l = concat (flat_map h l).
Proof.
  induction l as [|x l IH]; simpl; [reflexivity|].
  rewrite concat_app, IH; reflexivity.
Qed.

Lemma triples_concat {B} (l : list B) :
  flat_map (fun r => flat_map (fun g => flat_map (fun b => [r; g; b]) l) l) l
  = concat (triples l).
Proof.
  unfold triples.
  rewrite <- flat_map_concat_inner; apply flat_map_ext; intros r.
  rewrite <- flat_map_concat_inner; apply flat_map_ext; intros g.
  rewrite flat_map_concat_map; reflexivity.
Qed.

Lemma map_triples {B C} (f : B -> C) (l : list B) :
  map (map f) (triples l) = triples (map f l).
Proof.
  unfold triples.
  rewrite !flat_map_concat_map, concat_map, !map_map; f_equal.
  apply map_ext; intros r.
  rewrite !flat_map_concat_map, concat_map, !map_map; f_equal.
  apply map_ext; intros g.
  rewrite !map_map; reflexivity.
Qed.

Lemma length_flat_map_uniform {B C} (f : B -> list C) m (l : list B) :
  (forall x, length (f x) = m) -> length (flat_map f l) = length l * m.
Proof.
  intros H; induction l as [|x l IH]; simpl; [reflexivity|].
  rewrite length_app, H, IH; reflexivity.
Qed.

Lemma triples_length {B} (l : list B) :
  length (triples l) = length l * length l * length l.
Proof.
  unfold triples.
  rewrite length_flat_map_uniform with (m := length l * length l); [lia|].
  intros r; rewrite length_flat_map_uniform with (m := length l); [lia|].
  intros g; apply length_map.
Qed.

Lemma triples_rows {B} (l : list B) :
  Forall (fun r => length r = 3) (triples l).
Proof.
  apply Forall_forall; intros t Ht; unfold triples in Ht.
  apply in_flat_map in Ht as (r & _ & Ht).
  apply in_flat_map in Ht as (g & _ & Ht).
  apply in_map_iff in Ht as (b & <- & _); reflexivity.
Qed.

Lemma grid_rows n : Forall (fun r => length r = 3) (grid n).
Proof. apply triples_rows. Qed.

Lemma grid_row_length n p : p < n * n * n -> length (nth p (grid n) []) = 3.
Proof.
  intros H; pose proof (grid_rows n) as T.
  rewrite Forall_forall in T; apply T, nth_In.
  unfold grid; rewrite triples_length, length_map, length_seq; exact H.
Qed.

Lemma grid_length n : length (grid n) = n * n * n.
Proof. unfold grid; rewrite triples_length, length_map, length_seq; reflexivity. Qed.

(** The expected indexes are the grid. *)
Lemma expected_indexes_grid n :
  expected_indexes (Z.of_nat n) = Ok (mk_ndarray [n * n * n; 3] (concat (grid n))).
Proof.
  unfold expected_indexes, linear_table.
  destruct (Z.ltb_spec (Z.of_nat n) 0) as [H|_]; [lia|].
  rewrite Nat2Z.id; cbn [bind].
  unfold map_array; cbn [shape data].
  rewrite triples_concat, concat_map, map_triples, linspace01_scaled.
  fold (grid n).
  pose proof (length_concat_uniform _ 3 (grid n) (triples_rows _)) as Hl.
  rewrite grid_length in Hl.
  unfold shape_m1_3, reshape_C; cbn [data bind].
  rewrite Hl, Nat.Div0.mod_mul, Nat.eqb_refl, Nat.div_mul by lia.
  cbn [bind prod_shape fold_right].
  replace (n * n * n * (3 * 1) =? n * n * n * 3) with true
    by (symmetry; apply Nat.eqb_eq; lia).
  reflexivity.
Qed.

(** ** Sorting positions *)

Section SortFacts.

Variable cols : list (list Z).

Let le (p q : nat) : Prop := pos_leb cols p q = true.

Lemma pos_cmp_antisym : forall cs p q,
  pos_cmp cs q p = CompOpp (pos_cmp cs p q).
Proof.
  induction cs as [|c cs IH]; intros p q; simpl; [reflexivity|].
  rewrite (Z.compare_antisym (nth p c 0%Z) (nth q c 0%Z)).
  destruct (nth p c 0 ?= nth q c 0)%Z; simpl; [apply IH | reflexivity..].
Qed.

Lemma pos_leb_total p q : pos_leb cols p q = false -> pos_leb cols q p = true.
Proof.
  unfold pos_leb; rewrite (pos_cmp_antisym cols p q).
  destruct (pos_cmp cols p q); simpl; congruence.
Qed.

Lemma insert_pos_perm p l : Permutation (insert_pos cols p l) (p :: l).
Proof.
  induction l as [|q l IH]; simpl; [reflexivity|].
  destruct (pos_leb cols p q); [reflexivity|].
  rewrite IH; apply perm_swap.
Qed.

Lemma sort_pos_perm l : Permutation (sort_pos cols l) l.
Proof.
  induction l as [|p l IH]; simpl; [reflexivity|].
  rewrite insert_pos_perm, IH; reflexivity.
Qed.

Lemma insert_pos_sorted p l : Sorted le l -> Sorted le (insert_pos cols p l).
Proof.
  induction 1 as [|q l Hs IH Hh]; simpl.
  - repeat constructor.
  - destruct (pos_leb cols p q) eqn:E.
    + constructor; [constructor; assumption | constructor; exact E].
    + constructor; [exact IH|].
      destruct l as [|r l]; simpl.
      * constructor; apply pos_leb_total; exact E.
      * destruct (pos_leb cols p r).
        -- constructor; apply pos_leb_total; exact E.
        -- inversion Hh; subst; constructor; assumption.
Qed.

Lemma sort_pos_sorted l : Sorted le (sort_pos cols l).
Proof.
  induction l as [|p l IH]; simpl; [constructor|].
  apply insert_pos_sorted; exact IH.
Qed.

(** A list that is already in order is left as it is. *)
Lemma sort_pos_id l : Sorted le l -> sort_pos cols l = l.
Proof.
  induction 1 as [|p l Hs IH Hh]; simpl; [reflexivity|].
  rewrite IH; destruct Hh as [|q l Hpq]; simpl; [reflexivity|].
  unfold le in Hpq; rewrite Hpq; reflexivity.
Qed.

Lemma seq_sorted a n :
  (forall p, a <= p -> p + 1 < a + n -> le p (p + 1)) ->
  Sorted le (seq a n).
Proof.
  revert a; induction n as [|n IH]; intros a H; simpl; constructor.
  - apply IH; intros p Hp Hq; apply H; lia.
  - destruct n as [|n]; simpl; constructor.
    replace (S a) with (a + 1) by lia; apply H; lia.
Qed.

End SortFacts.

(** ** Rows in lexicographic order *)

Lemma lex_cmp_antisym : forall a b, lex_cmp b a = CompOpp (lex_cmp a b).
Proof.
  induction a as [|x a IH]; intros [|y b]; simpl; try reflexivity.
  rewrite (Z.compare_antisym x y).
  destruct (x ?= y)%Z; simpl; [apply IH | reflexivity..].
Qed.

Lemma lex_cmp_three_trans (a b c : list Z) :
  length a = 3 -> length b = 3 -> length c = 3 ->
  lex_le a b -> lex_le b c -> lex_le a c.
Proof.
  destruct a as [|a0 [|a1 [|a2 [|? ?]]]]; try discriminate.
  destruct b as [|b0 [|b1 [|b2 [|? ?]]]]; try discriminate.
  destruct c as [|c0 [|c1 [|c2 [|? ?]]]]; try discriminate.
  intros _ _ _; unfold lex_le; simpl.
  destruct (Z.compare_spec a0 b0), (Z.compare_spec b0 c0),
    (Z.compare_spec a0 c0); try lia; try congruence;
    destruct (Z.compare_spec a1 b1), (Z.compare_spec b1 c1),
      (Z.compare_spec a1 c1); try lia; try congruence;
    destruct (Z.compare_spec a2 b2), (Z.compare_spec b2 c2),
      (Z.compare_spec a2 c2); try lia; congruence.
Qed.

(** The three columns of an array of rows of three integers. *)
Lemma column_three (rs : list (list Z)) k :
  Forall (fun r => length r = 3) rs ->
  k < 3 ->
  column (mk_ndarray [length rs; 3] (concat rs)) k
  = Ok (map (fun r => nth k r 0%Z) rs).
Proof.
  intros F Hk; unfold column; cbn [shape].
  destruct (Nat.ltb_spec k 3) as [_|]; [|lia].
  rewrite (rows_of_concat _ (length rs) 3 rs F eq_refl).
  f_equal; rewrite flat_map_concat_map.
  induction F as [|r rs' Hr _ IH]; [reflexivity|].
  cbn [map concat]; rewrite IH.
  replace (firstn 1 (skipn k r)) with [nth k r 0%Z]; [reflexivity|].
  destruct r as [|a [|b [|c [|? ?]]]]; try discriminate.
  destruct k as [|[|[|k]]]; try reflexivity; lia.
Qed.

Lemma nth_column (rs : list (list Z)) k p :
  nth p (map (fun r => nth k r 0%Z) rs) 0%Z = nth k (nth p rs []) 0%Z.
Proof.
  rewrite <- (map_nth (fun r => nth k r 0%Z) rs [] p).
  destruct k; reflexivity.
Qed.

Lemma pos_cmp_rows (rs : list (list Z)) p q :
  length (nth p rs []) = 3 -> length (nth q rs []) = 3 ->
  pos_cmp [map (fun r => nth 0 r 0%Z) rs; map (fun r => nth 1 r 0%Z) rs;
           map (fun r => nth 2 r 0%Z) rs] p q
  = lex_cmp (nth p rs []) (nth q rs []).
Proof.
  intros Hp Hq; cbn [pos_cmp]; rewrite !nth_column.
  destruct (nth p rs []) as [|a0 [|a1 [|a2 [|? ?]]]]; try discriminate.
  destruct (nth q rs []) as [|b0 [|b1 [|b2 [|? ?]]]]; try discriminate.
  simpl.
  destruct (a0 ?= b0)%Z, (a1 ?= b1)%Z, (a2 ?= b2)%Z; reflexivity.
Qed.

Lemma nth_map_in {B C} (f : B -> C) (l : list B) p d d' :
  p < length l -> nth p (map f l) d' = f (nth p l d).
Proof.
  intros H; rewrite (nth_indep _ d' (f d)) by (rewrite length_map; exact H).
  apply map_nth.
Qed.

(** The rows of the grid by position. *)
Lemma nth_flat_map_uniform {B C} (f : B -> list C) m (l : list B) p d0 d :
  (forall x, length (f x) = m) ->
  p < length l * m ->
  nth p (flat_map f l) d = nth (p mod m) (f (nth (p / m) l d0)) d.
Proof.
  intros Hf Hp.
  assert (Hm : m <> 0) by (intros ->; lia).
  rewrite flat_map_concat_map.
  rewrite (Nat.div_mod_eq p m) at 1.
  rewrite (Nat.mul_comm m).
  assert (Hr : p / m < length l) by (apply Nat.Div0.div_lt_upper_bound; lia).
  rewrite (nth_concat_uniform _ m).
  - f_equal; apply nth_map_in; exact Hr.
  - apply Forall_forall; intros x Hx.
    apply in_map_iff in Hx as (y & <- & _); apply Hf.
  - rewrite length_map; exact Hr.
  - apply Nat.mod_upper_bound; exact Hm.
Qed.

Lemma nth_triples {B} (l : list B) p d :
  p < length l * length l * length l ->
  nth p (triples l) []
  = [nth (p / (length l * length l)) l d;
     nth (p mod (length l * length l) / length l) l d;
     nth (p mod (length l * length l) mod length l) l d].
Proof.
  intros Hp; set (n := length l) in *.
  assert (Hn : n <> 0) by (intros E; rewrite E in Hp; lia).
  unfold triples.
  rewrite (nth_flat_map_uniform _ (n * n) l p d []); [| |lia].
  2:{ intros r; rewrite length_flat_map_uniform with (m := n); [reflexivity|].
      intros g; apply length_map. }
  assert (Hq : p mod (n * n) < n * n) by (apply Nat.mod_upper_bound; nia).
  rewrite (nth_flat_map_uniform _ n l _ d []); [| |exact Hq].
  2:{ intros g; apply length_map. }
  assert (Hr : (p mod (n * n)) mod n < n) by (apply Nat.mod_upper_bound; exact Hn).
  rewrite (nth_map_in _ l _ d []) by exact Hr.
  reflexivity.
Qed.

Lemma lex_cmp_encode n a b c a' b' c' :
  b < n -> c < n -> b' < n -> c' < n ->
  lex_cmp [Z.of_nat a; Z.of_nat b; Z.of_nat c]
          [Z.of_nat a'; Z.of_nat b'; Z.of_nat c']
  = Nat.compare (a * (n * n) + b * n + c) (a' * (n * n) + b' * n + c').
Proof.
  intros Hb Hc Hb' Hc'; simpl; rewrite !Nat2Z.inj_compare.
  symmetry.
  destruct (Nat.compare_spec a a') as [Ea|La|Ga].
  - subst a'; destruct (Nat.compare_spec b b') as [Eb|Lb|Gb].
    + subst b'; destruct (Nat.compare_spec c c') as [Ec|Lc|Gc].
      * apply Nat.compare_eq_iff; lia.
      * apply Nat.compare_lt_iff; lia.
      * apply Nat.compare_gt_iff; lia.
    + apply Nat.compare_lt_iff; nia.
    + apply Nat.compare_gt_iff; nia.
  - apply Nat.compare_lt_iff; nia.
  - apply Nat.compare_gt_iff; nia.
Qed.

Lemma nth_grid n p :
  p < n * n * n ->
  nth p (grid n) []
  = [Z.of_nat (p / (n * n)); Z.of_nat (p mod (n * n) / n);
     Z.of_nat (p mod (n * n) mod n)].
Proof.
  intros Hp.
  assert (Hn : n <> 0) by (intros ->; lia).
  unfold grid.
  rewrite (nth_triples _ p 0%Z); rewrite length_map, length_seq; [|exact Hp].
  assert (H1 : p / (n * n) < n) by (apply Nat.Div0.div_lt_upper_bound; lia).
  assert (H2 : p mod (n * n) < n * n) by (apply Nat.mod_upper_bound; nia).
  assert (H3 : p mod (n * n) / n < n) by (apply Nat.Div0.div_lt_upper_bound; lia).
  assert (H4 : p mod (n * n) mod n < n) by (apply Nat.mod_upper_bound; exact Hn).
  rewrite !(nth_map_in Z.of_nat _ _ 0 0%Z) by (rewrite length_seq; assumption).
  rewrite !seq_nth by assumption.
  reflexivity.
Qed.

Lemma grid_position n p :
  p < n * n * n ->
  p = p / (n * n) * (n * n) + p mod (n * n) / n * n + p mod (n * n) mod n
  /\ p mod (n * n) / n < n /\ p mod (n * n) mod n < n.
Proof.
  intros Hp.
  assert (Hn : n <> 0) by (intros ->; lia).
  pose proof (Nat.div_mod_eq p (n * n)) as E1.
  pose proof (Nat.div_mod_eq (p mod (n * n)) n) as E2.
  assert (H2 : p mod (n * n) < n * n) by (apply Nat.mod_upper_bound; nia).
  repeat split.
  - nia.
  - apply Nat.Div0.div_lt_upper_bound; lia.
  - apply Nat.mod_upper_bound; exact Hn.
Qed.

(** Consecutive rows of the grid are in strictly increasing
    lexicographic order. *)
Lemma grid_increasing n p :
  p + 1 < n * n * n ->
  lex_cmp (nth p (grid n) []) (nth (p + 1) (grid n) []) = Lt.
Proof.
  intros Hp.
  rewrite !nth_grid by lia.
  destruct (grid_position n p) as (E & Hb & Hc); [lia|].
  destruct (grid_position n (p + 1)) as (E' & Hb' & Hc'); [lia|].
  rewrite (lex_cmp_encode n) by assumption.
  rewrite <- E, <- E'; apply Nat.compare_lt_iff; lia.
Qed.

Lemma map_nth_seq {B} (l : list B) d :
  map (fun p => nth p l d) (seq 0 (length l)) = l.
Proof.
  apply nth_ext with (d := d) (d' := d).
  - rewrite length_map, length_seq; reflexivity.
  - intros p Hp; rewrite length_map, length_seq in Hp.
    rewrite nth_map_seq by exact Hp; reflexivity.
Qed.

(** Sorting the grid leaves it as it is. *)
Lemma lexsort_grid n :
  lexsort [map (fun r => nth 2 r 0%Z) (grid n);
           map (fun r => nth 1 r 0%Z) (grid n);
           map (fun r => nth 0 r 0%Z) (grid n)]
  = seq 0 (n * n * n).
Proof.
  unfold lexsort; cbn [rev app hd]; rewrite length_map, grid_length.
  apply sort_pos_id, seq_sorted; intros p _ Hp.
  unfold pos_leb; rewrite pos_cmp_rows.
  - rewrite grid_increasing by lia; reflexivity.
  - apply grid_row_length; lia.
  - apply grid_row_length; lia.
Qed.

Lemma sorted_indexes_grid n : sorted_indexes (grid n) = grid n.
Proof.
  unfold sorted_indexes; rewrite lexsort_grid, <- grid_length.
  apply map_nth_seq.
Qed.

Lemma map_fst_combine_eq {B C} (l1 : list B) : forall (l2 : list C),
  length l1 = length l2 -> map fst (combine l1 l2) = l1.
Proof.
  induction l1 as [|x l1 IH]; intros [|y l2] H; try discriminate; [reflexivity|].
  cbn [combine map fst]; f_equal; apply IH; simpl in H; lia.
Qed.

Lemma map_snd_combine_eq {B C} (l1 : list B) : forall (l2 : list C),
  length l1 = length l2 -> map snd (combine l1 l2) = l2.
Proof.
  induction l1 as [|x l1 IH]; intros [|y l2] H; try discriminate; [reflexivity|].
  cbn [combine map snd]; f_equal; apply IH; simpl in H; lia.
Qed.

Lemma filter_all {B} (p : B -> bool) (l : list B) :
  Forall (fun x => p x = true) l -> filter p l = l.
Proof.
  induction 1 as [|x l Hx _ IH]; [reflexivity|].
  cbn [filter]; rewrite Hx, IH; reflexivity.
Qed.

Lemma stripped_lines_file_of (lines : list str) :
  Forall no_break lines ->
  Forall (fun x => strip (x ++ [LF]) <> []) lines ->
  stripped_lines (file_of lines) = map (fun x => strip (x ++ [LF])) lines.
Proof.
  intros Hb Hn; unfold stripped_lines.
  rewrite (readlines_file_of lines Hb), map_map.
  apply filter_all, Forall_forall; intros s Hs.
  apply in_map_iff in Hs as (x & <- & Hx).
  rewrite Forall_forall in Hn; specialize (Hn x Hx).
  destruct (strip (x ++ [LF])); [contradiction | reflexivity].
Qed.

Section CodecFacts.

Context {FM : FloatModel}.
Variable path_to_title : str -> str.
Variable str_LUTSequence : list operator -> str.
Variable unity_table_3x1D unity_table_3D : ndarray float.
Variable unity_name_3x1D unity_name_3D : str.

Abbreviation cube_prepare' :=
  (cube_prepare unity_table_3x1D unity_table_3D unity_name_3x1D
     unity_name_3D).
Abbreviation write_LUT_ResolveCube' :=
  (write_LUT_ResolveCube unity_table_3x1D unity_table_3D unity_name_3x1D
     unity_name_3D).

Lemma as_float_tokens_Raise ts e : as_float_tokens ts = Raise e -> e = ValueError.
Proof.
  unfold as_float_tokens; intros E.
  eapply (@mapM_Raise _ _ _ (fun e => e = ValueError)); [|exact E].
  intros x e'; simpl; destruct (float_of_token x); [discriminate | congruence].
Qed.

Lemma as_array_Raise {A} (rs : list (list A)) e :
  as_array rs = Raise e -> e = ValueError.
Proof.
  unfold as_array; destruct rs; [discriminate|].
  destruct (forallb _ _); [discriminate | congruence].
Qed.

Lemma as_float_table_Raise rs e : as_float_table rs = Raise e -> e = ValueError.
Proof.
  unfold as_float_table; intros E.
  apply bind_Raise in E as [E | (a & _ & E)].
  - eapply (@mapM_Raise _ _ _ (fun e => e = ValueError)); [|exact E].
    intros x e'; apply as_float_tokens_Raise.
  - eapply as_array_Raise; exact E.
Qed.

(** ** Reading a Resolve file without a size directive *)

Lemma cube_line_no_directive st raw :
  is_size_directive raw = false ->
  cube_line st raw = Raise ValueError
  \/ exists st', cube_line st raw = Ok st'
                 /\ cs_has_3x1D st' = cs_has_3x1D st
                 /\ cs_has_3D st' = cs_has_3D st.
Proof.
  unfold is_size_directive, cube_line.
  destruct (length (strip raw) =? 0) eqn:E0; [right; eauto|].
  destruct (startswith (strip raw) (lit "#")) eqn:Ec; [right; eauto|].
  destruct (split (strip raw)) as [|t0 rest] eqn:Es.
  { exfalso; revert Es; apply split_strip_nonempty, length_eqb_0, E0. }
  cbn [negb andb]; intros H.
  apply orb_false_iff in H as [H1 H3].
  destruct (str_eqb t0 (lit "TITLE")); [right; eauto|].
  destruct (str_eqb t0 (lit "LUT_1D_INPUT_RANGE")).
  { destruct (as_float_tokens rest) eqn:Ef; simpl; [right; eauto|].
    left; f_equal; eapply as_float_tokens_Raise; exact Ef. }
  destruct (str_eqb t0 (lit "LUT_3D_INPUT_RANGE")).
  { destruct (as_float_tokens rest) eqn:Ef; simpl; [right; eauto|].
    left; f_equal; eapply as_float_tokens_Raise; exact Ef. }
  rewrite H1, H3; right; eauto.
Qed.

Lemma cube_lines_no_directive lines : forall st,
  existsb is_size_directive lines = false ->
  cube_lines st lines = Raise ValueError
  \/ exists st', cube_lines st lines = Ok st'
                 /\ cs_has_3x1D st' = cs_has_3x1D st
                 /\ cs_has_3D st' = cs_has_3D st.
Proof.
  induction lines as [|raw lines IH]; intros st H; simpl.
  - right; eauto.
  - simpl in H; apply orb_false_iff in H as [Hr Hl].
    destruct (cube_line_no_directive st raw Hr) as [E | (st1 & E & F1 & F3)];
      rewrite E; simpl; [left; reflexivity|].
    destruct (IH st1 Hl) as [E' | (st2 & E' & G1 & G3)].
    + left; exact E'.
    + right; exists st2; repeat split; congruence.
Qed.

Lemma read_no_size_directive path text :
  existsb is_size_directive (readlines text) = false ->
  read_LUT_ResolveCube path_to_title path text = Raise ValueError
  \/ read_LUT_ResolveCube path_to_title path text = Raise UnboundLocalError.
Proof.
  intros H; unfold read_LUT_ResolveCube.
  destruct (cube_lines_no_directive _ (cube_initial (path_to_title path)) H)
    as [E | (st & E & F1 & F3)]; rewrite E; simpl; [left; reflexivity|].
  unfold cube_finish; rewrite F1, F3; simpl.
  destruct (as_float_table (cs_data st)) eqn:Et; simpl.
  - right; reflexivity.
  - left; f_equal; eapply as_float_table_Raise; exact Et.
Qed.

(** ** The tables read from a Resolve file *)

Lemma shape_cube_nat n : shape_cube (Z.of_nat n) = Ok [n; n; n; 3].
Proof.
  unfold shape_cube.
  destruct (Z.ltb_spec (Z.of_nat n) 0) as [H|_]; [lia|].
  rewrite Nat2Z.id; reflexivity.
Qed.

Lemma slice_bound_nat k n : slice_bound (Z.of_nat k) n = Nat.min k n.
Proof.
  unfold slice_bound.
  destruct (Z.ltb_spec (Z.of_nat k) 0) as [H|_]; [lia|].
  rewrite Nat2Z.id; reflexivity.
Qed.

Lemma Forall_skipn_uniform {B} (P : B -> Prop) n (l : list B) :
  Forall P l -> Forall P (skipn n l).
Proof.
  intros F; rewrite Forall_forall in *; intros x Hx; apply F.
  rewrite <- (firstn_skipn n l); apply in_or_app; right; exact Hx.
Qed.

Lemma Forall_firstn_uniform {B} (P : B -> Prop) n (l : list B) :
  Forall P l -> Forall P (firstn n l).
Proof.
  intros F; rewrite Forall_forall in *; intros x Hx; apply F.
  rewrite <- (firstn_skipn n l); apply in_or_app; left; exact Hx.
Qed.

(** The cube of a file that has only a [LUT_3D_SIZE] directive. *)
Lemma cube_finish_cube st (vals : list (list float)) n :
  cs_has_3x1D st = false ->
  cs_has_3D st = true ->
  cs_size_3D st = Z.of_nat n ->
  mapM as_float_tokens (cs_data st) = Ok vals ->
  Forall (fun r => length r = 3) vals ->
  length vals = n * n * n ->
  exists t,
    cube_finish st
    = Ok (Single (Table (LUT3D t (cs_title st) (cs_domain_3D st)
                           (cs_comments st))))
    /\ shape t = [n; n; n; 3]
    /\ length (data t) = n * n * n * 3
    /\ forall i j k, i < n -> j < n -> k < n ->
         grid_point t i j k = nth (i + n * j + n * n * k) vals [].
Proof.
  intros H1 H3 Hn Hv F Hl.
  unfold cube_finish, as_float_table; rewrite Hv, H1, H3, Hn, shape_cube_nat.
  cbn [bind andb].
  destruct vals as [|v vs].
  - assert (n = 0) by (simpl in Hl; destruct n; [reflexivity | simpl in Hl; lia]).
    subst n; eexists; split; [reflexivity|].
    repeat split; intros; lia.
  - rewrite (as_array_uniform _ 3 v vs F); cbn [bind].
    destruct (reshape_F_rows _ (v :: vs) n F Hl) as (t & E & Hs & Hd & Hg).
    rewrite E; cbn [bind].
    exists t; repeat split; assumption.
Qed.

(** The two tables of a file that has both size directives. *)
Lemma cube_finish_composite st (vals : list (list float)) n1 n3 :
  cs_has_3x1D st = true ->
  cs_has_3D st = true ->
  cs_size_3x1D st = Z.of_nat n1 ->
  cs_size_3D st = Z.of_nat n3 ->
  mapM as_float_tokens (cs_data st) = Ok vals ->
  Forall (fun r => length r = 3) vals ->
  length vals = n1 + n3 * n3 * n3 ->
  exists t1 t3,
    cube_finish st
    = Ok (LUTSequence
            [Table (LUT3x1D t1 (cs_title st ++ lit " - Shaper")
                      (cs_domain_3x1D st) []);
             Table (LUT3D t3 (cs_title st ++ lit " - Cube")
                      (cs_domain_3D st) (cs_comments st))])
    /\ hd 0 (shape t1) = n1
    /\ rows t1 = firstn n1 vals
    /\ shape t3 = [n3; n3; n3; 3]
    /\ length (data t3) = n3 * n3 * n3 * 3
    /\ forall i j k, i < n3 -> j < n3 -> k < n3 ->
         grid_point t3 i j k
         = nth (n1 + (i + n3 * j + n3 * n3 * k)) vals [].
Proof.
  intros H1 H3 Hn1 Hn3 Hv F Hl.
  unfold cube_finish, as_float_table.
  rewrite Hv, H1, H3, Hn1, Hn3, shape_cube_nat.
  cbn [bind andb].
  destruct vals as [|v vs].
  - assert (n1 = 0 /\ n3 = 0) as [-> ->].
    { simpl in Hl; destruct n1; [|lia]; destruct n3; [auto | simpl in Hl; lia]. }
    eexists; eexists; split; [reflexivity|].
    repeat split; intros; lia.
  - rewrite (as_array_uniform _ 3 v vs F); cbn [bind].
    set (vals := v :: vs) in *.
    unfold slice_to, slice_from; cbn [shape data bind].
    rewrite slice_bound_nat, (Nat.min_l n1) by lia.
    change (prod_shape [3]) with 3.
    rewrite (firstn_concat_uniform _ 3 vals n1 F).
    rewrite (skipn_concat_uniform _ 3 vals n1 F).
    assert (Ls : length (skipn n1 vals) = n3 * n3 * n3)
      by (rewrite length_skipn; lia).
    replace (length vals - n1) with (length (skipn n1 vals))
      by (rewrite length_skipn; reflexivity).
    destruct (reshape_F_rows _ (skipn n1 vals) n3
                (Forall_skipn_uniform _ n1 vals F) Ls)
      as (t & E & Hs & Hd & Hg).
    rewrite E; cbn [bind].
    eexists; exists t; split; [reflexivity|].
    split; [reflexivity|].
    split.
    { apply rows_of_concat.
      - apply Forall_firstn_uniform; exact F.
      - rewrite length_firstn; lia. }
    repeat split; try assumption.
    intros i j k Hi Hj Hk; rewrite (Hg i j k Hi Hj Hk).
    apply nth_skipn.
Qed.

(** ** The text written by the Resolve codec *)

Lemma write_rows_writes d (rs : list (list float)) :
  Forall (fun r => length r = 3) rs ->
  writes (write_rows d rs)
         (concat (map (fun r => cube_row_text d r ++ [LF]) rs)) tt.
Proof.
  intros F; unfold write_rows; apply writes_wfor; intros r Hr.
  rewrite Forall_forall in F; specialize (F r Hr).
  destruct r as [|x [|y [|z [|? ?]]]]; try discriminate.
  rewrite <- (app_nil_l (cube_row_text _ _ ++ _)).
  apply writes_bind with (b := cube_row_text d [x; y; z]).
  - apply writes_lift; reflexivity.
  - apply writes_fwrite.
Qed.

Lemma write_size_and_range_writes d k1 k2 l :
  wf_domain l ->
  exists out, writes (write_size_and_range d k1 k2 l) out tt.
Proof.
  intros [Hs Hl]; unfold write_size_and_range.
  destruct (float_array_equal (domain l) default_domain).
  - eexists; eapply writes_bind; [apply writes_fwrite | apply writes_ret].
  - destruct (data (domain l)) as [|a [|b [|c [|x [|y [|z [|? ?]]]]]]] eqn:Ed;
      try discriminate.
    assert (I0 : item (domain l) 0 0 = Ok a).
    { unfold item, row, row_width; rewrite Hs, Ed; reflexivity. }
    assert (I1 : item (domain l) 1 0 = Ok x).
    { unfold item, row, row_width; rewrite Hs, Ed; reflexivity. }
    eexists; eapply writes_bind; [apply writes_fwrite|].
    eapply writes_bind; [apply writes_lift; exact I0|].
    eapply writes_bind; [apply writes_lift; exact I1|].
    apply writes_fwrite.
Qed.

(** The data rows of the cube, as written. *)
Lemma cube_rows_writes d (l : LUT) n :
  wf_LUT3D l n ->
  writes (wbind (wlift (bind (shape_m1_3 (table l))
                             (fun sh => reshape_F sh (table l))))
                (fun t => write_rows d (rows t)))
         (concat (map (fun r => cube_row_text d
                                  (grid_point (table l) (r mod n)
                                     (r / n mod n) (r / (n * n)))
                                ++ [LF])
                      (seq 0 (n * n * n)))) tt.
Proof.
  intros (_ & Hs & Hl & _).
  destruct (reshape_F_to_rows _ (table l) n Hs Hl) as (t' & E & Hr).
  assert (Em : bind (shape_m1_3 (table l)) (fun sh => reshape_F sh (table l))
               = Ok t').
  { unfold shape_m1_3; rewrite Hl, Nat.Div0.mod_mul, Nat.div_mul by lia.
    exact E. }
  rewrite <- (app_nil_l (concat _)).
  eapply writes_bind; [apply writes_lift; exact Em|].
  rewrite Hr.
  rewrite <- (map_map (fun r => grid_point (table l) (r mod n) (r / n mod n)
                                  (r / (n * n)))
                      (fun v => cube_row_text d v ++ [LF])).
  apply write_rows_writes.
  apply Forall_forall; intros v Hv.
  apply in_map_iff in Hv as (r & <- & Hin); apply in_seq in Hin.
  destruct (div_mod_3 n r) as (_ & Hi & Hj & Hk); [lia|].
  apply (grid_point_nth _ (table l) n _ _ _ Hs Hl Hi Hj Hk).
Qed.

Lemma cube_body_writes d (j : cube_job) :
  (has_3x1D j = true -> exists n, wf_LUT3x1D (shaper j) n) ->
  (has_3D j = true -> exists n, wf_LUT3D (cube j) n) ->
  exists out, writes (cube_body d j) out tt.
Proof.
  intros W1 W3; unfold cube_body.
  assert (P1 : exists o, writes
                 (if has_3x1D j
                  then write_size_and_range d (lit "LUT_1D_SIZE")
                         (lit "LUT_1D_INPUT_RANGE") (shaper j)
                  else wret tt) o tt).
  { destruct (has_3x1D j); [|eexists; apply writes_ret].
    destruct (W1 eq_refl) as (n1 & _ & _ & _ & Hd1).
    apply write_size_and_range_writes; exact Hd1. }
  assert (P2 : exists o, writes
                 (if has_3D j
                  then write_size_and_range d (lit "LUT_3D_SIZE")
                         (lit "LUT_3D_INPUT_RANGE") (cube j)
                  else wret tt) o tt).
  { destruct (has_3D j); [|eexists; apply writes_ret].
    destruct (W3 eq_refl) as (n3 & _ & _ & _ & Hd3).
    apply write_size_and_range_writes; exact Hd3. }
  assert (P3 : exists o, writes
                 (if has_3x1D j
                  then wbind (write_rows d (rows (table (shaper j))))
                             (fun _ => fwrite [LF])
                  else wret tt) o tt).
  { destruct (has_3x1D j); [|eexists; apply writes_ret].
    destruct (W1 eq_refl) as (n1 & _ & Hs1 & Hl1 & _).
    eexists; eapply writes_bind; [|apply writes_fwrite].
    apply write_rows_writes, (rows_uniform _ _ n1 3 Hs1 Hl1). }
  assert (P4 : exists o, writes
                 (if has_3D j
                  then wbind (wlift (bind (shape_m1_3 (table (cube j)))
                                       (fun sh => reshape_F sh (table (cube j)))))
                             (fun t => write_rows d (rows t))
                  else wret tt) o tt).
  { destruct (has_3D j); [|eexists; apply writes_ret].
    destruct (W3 eq_refl) as (n3 & Hw3).
    eexists; apply (cube_rows_writes d _ n3 Hw3). }
  destruct P1 as (o1 & P1), P2 as (o2 & P2), P3 as (o3 & P3), P4 as (o4 & P4).
  eexists; eapply writes_bind; [apply writes_fwrite|].
  eapply writes_bind; [apply writes_comments|].
  eapply writes_bind; [apply writes_comments|].
  eapply writes_bind; [exact P1|].
  eapply writes_bind; [exact P2|].
  eapply writes_bind; [exact P3|].
  exact P4.
Qed.

Lemma cube_body_3D d (j : cube_job) n :
  has_3x1D j = false ->
  has_3D j = true ->
  wf_LUT3D (cube j) n ->
  exists header,
    writes (cube_body d j)
      (header
       ++ concat (map (fun r => cube_row_text d
                                  (grid_point (table (cube j)) (r mod n)
                                     (r / n mod n) (r / (n * n)))
                                ++ [LF])
                      (seq 0 (n * n * n)))) tt.
Proof.
  intros H1 H3 W; unfold cube_body; rewrite H1, H3.
  destruct (write_size_and_range_writes d (lit "LUT_3D_SIZE")
              (lit "LUT_3D_INPUT_RANGE") _ (proj2 (proj2 (proj2 W))))
    as (o2 & P2).
  pose proof (cube_rows_writes d _ n W) as P4.
  set (rows_text := concat _) in *.
  set (title := lit "TITLE " ++ [DQ] ++ job_name j ++ [DQ] ++ [LF]).
  set (c1 := concat (map (fun c => lit "# " ++ c ++ [LF]) (comments (shaper j)))).
  set (c2 := concat (map (fun c => lit "# " ++ c ++ [LF]) (comments (cube j)))).
  exists (title ++ c1 ++ c2 ++ o2).
  repeat rewrite <- app_assoc.
  eapply writes_bind; [apply writes_fwrite|].
  eapply writes_bind; [apply writes_comments|].
  eapply writes_bind; [apply writes_comments|].
  rewrite <- (app_nil_l (o2 ++ rows_text)).
  eapply writes_bind; [apply writes_ret|].
  eapply writes_bind; [exact P2|].
  rewrite <- (app_nil_l rows_text).
  eapply writes_bind; [apply writes_ret|].
  exact P4.
Qed.

(** ** Validation in the Resolve writer *)

Lemma cube_validate_spec (j : cube_job) :
  (cube_violation j -> exists msg, cube_validate j = Raise (AssertionError msg))
  /\ (~ cube_violation j -> cube_validate j = Ok tt).
Proof.
  unfold cube_violation, cube_validate.
  destruct (is_domain_explicit (shaper j)); cbn [negb attest bind].
  { split; [eauto | intros H; exfalso; apply H; auto]. }
  destruct (is_domain_explicit (cube j)); cbn [negb attest bind].
  { split; [eauto | intros H; exfalso; apply H; auto]. }
  destruct (Nat.eqb_spec (len_unique float_eqb (domain (shaper j))) 2)
    as [U1|U1]; cbn [andb attest bind].
  2:{ split; [eauto | intros H; exfalso; apply H; auto]. }
  destruct (Nat.eqb_spec (len_unique float_eqb (domain (cube j))) 2)
    as [U3|U3]; cbn [andb attest bind].
  2:{ split; [eauto | intros H; exfalso; apply H; auto 6]. }
  assert (R1 : forall hi,
             ((2 <=? Z.of_nat (size (shaper j)))
              && (Z.of_nat (size (shaper j)) <=? hi))%Z = true
             <-> (2 <= Z.of_nat (size (shaper j)) <= hi)%Z).
  { intros hi; rewrite andb_true_iff, !Z.leb_le; reflexivity. }
  assert (R3 : forall hi,
             ((2 <=? Z.of_nat (size (cube j)))
              && (Z.of_nat (size (cube j)) <=? hi))%Z = true
             <-> (2 <= Z.of_nat (size (cube j)) <= hi)%Z).
  { intros hi; rewrite andb_true_iff, !Z.leb_le; reflexivity. }
  destruct (has_3x1D j).
  - destruct (((2 <=? Z.of_nat (size (shaper j)))
               && (Z.of_nat (size (shaper j)) <=? 65536))%Z) eqn:B1;
      cbn [attest bind].
    2:{ split; [eauto|]; intros H; exfalso; apply H.
        do 4 right; left; split; [reflexivity|].
        rewrite <- R1; congruence. }
    apply R1 in B1.
    destruct (has_3D j).
    + destruct (((2 <=? Z.of_nat (size (cube j)))
                 && (Z.of_nat (size (cube j)) <=? 256))%Z) eqn:B3;
        cbn [attest].
      * apply R3 in B3; split; [|reflexivity].
        intros [H|[H|[H|[H|[[_ H]|[_ H]]]]]];
          try discriminate; try contradiction.
      * split; [eauto|]; intros H; exfalso; apply H.
        do 5 right; split; [reflexivity|].
        rewrite <- R3; congruence.
    + split; [|reflexivity].
      intros [H|[H|[H|[H|[[_ H]|[H _]]]]]];
        try discriminate; try contradiction.
  - cbn [bind].
    destruct (has_3D j).
    + destruct (((2 <=? Z.of_nat (size (cube j)))
                 && (Z.of_nat (size (cube j)) <=? 256))%Z) eqn:B3;
        cbn [attest].
      * apply R3 in B3; split; [|reflexivity].
        intros [H|[H|[H|[H|[[H _]|[_ H]]]]]];
          try discriminate; try contradiction.
      * split; [eauto|]; intros H; exfalso; apply H.
        do 5 right; split; [reflexivity|].
        rewrite <- R3; congruence.
    + split; [|reflexivity].
      intros [H|[H|[H|[H|[[H _]|[H _]]]]]];
        try discriminate; try contradiction.
Qed.

(** C7. For the two tables that [write_LUT_ResolveCube] is about to write:
    when a domain is explicit, or a domain does not have exactly two
    distinct values, or the size of the shaper is outside [2, 65536], or
    the size of the cube is outside [2, 256], the function raises a
    validation failure and no file is opened; otherwise, for tables of the
    shapes of the data model, the file is written and the function returns
    [True]. *)
Theorem write_LUT_ResolveCube_validation (L : LUT_value) (d : nat)
    (j : cube_job) :
  cube_prepare' L = Ok j ->
  (cube_violation j ->
   exists msg,
     write_LUT_ResolveCube' L d
     = mk_outcome [] None (Raise (AssertionError msg)))
  /\ (~ cube_violation j ->
      (has_3x1D j = true -> exists n, wf_LUT3x1D (shaper j) n) ->
      (has_3D j = true -> exists n, wf_LUT3D (cube j) n) ->
      exists text,
        write_LUT_ResolveCube' L d = mk_outcome [] (Some text) (Ok true)).
Proof.
  intros Hp; unfold write_LUT_ResolveCube; rewrite Hp; cbn [bind].
  destruct (cube_validate_spec j) as [Hbad Hgood]; split.
  - intros V; destruct (Hbad V) as (msg & ->); cbn [bind]; eauto.
  - intros V W1 W3; rewrite (Hgood V); cbn [bind].
    destruct (cube_body_writes d j W1 W3) as (out & Ho).
    rewrite (Ho []); cbn [bind app]; eauto.
Qed.


(** C2. Index order of the Resolve codec.  Reading: for a file with a
    [LUT_3D_SIZE n] directive and [n^3] rows of three values, the table
    read has shape [(n, n, n, 3)] and its grid point [(i, j, k)] is data
    row [i + n j + n^2 k], the first index changing fastest; for [n = 4]
    the grid point [(0, 0, 1)] is data row 16.  Writing: when a cube of
    side [n] is written, the data rows of the file are the grid points in
    the same order, row [r] being the grid point
    [(r mod n, r / n mod n, r / n^2)]. *)
Theorem resolve_cube_index_order :
  (forall (path text : str) (st : cube_state) (vals : list (list float))
          (n : nat),
      cube_lines (cube_initial (path_to_title path)) (readlines text) = Ok st ->
      cs_has_3x1D st = false ->
      cs_has_3D st = true ->
      cs_size_3D st = Z.of_nat n ->
      mapM as_float_tokens (cs_data st) = Ok vals ->
      Forall (fun r => length r = 3) vals ->
      length vals = n * n * n ->
      exists l,
        read_LUT_ResolveCube path_to_title path text = Ok (Single (Table l))
        /\ class l = class_LUT3D
        /\ shape (table l) = [n; n; n; 3]
        /\ (forall i j k, i < n -> j < n -> k < n ->
            grid_point (table l) i j k = nth (i + n * j + n * n * k) vals [])
        /\ (n = 4 -> grid_point (table l) 0 0 1 = nth 16 vals []))
  /\ (forall (l : LUT) (d n : nat),
        wf_LUT3D l n ->
        returned (write_LUT_ResolveCube' (Single (Table l)) d) = Ok true ->
        exists header,
          written (write_LUT_ResolveCube' (Single (Table l)) d)
          = Some (header
                  ++ concat
                       (map (fun r =>
                               cube_row_text d
                                 (grid_point (table l) (r mod n)
                                    (r / n mod n) (r / (n * n)))
                               ++ [LF])
                            (seq 0 (n * n * n))))).
Proof.
  split.
  - intros path text st vals n Hs H1 H3 Hn Hv F Hl.
    unfold read_LUT_ResolveCube; rewrite Hs; cbn [bind].
    destruct (cube_finish_cube st vals n H1 H3 Hn Hv F Hl)
      as (t & E & Hsh & _ & Hg).
    rewrite E; eexists; split; [reflexivity|].
    cbn [class table LUT3D]; repeat split; try assumption.
    intros ->; apply (Hg 0 0 1); lia.
  - intros l d n W R.
    unfold write_LUT_ResolveCube in *; cbn [cube_prepare] in *.
    destruct W as (Hc & W'); rewrite Hc in *; cbn [bind] in *.
    match type of R with
    | context [cube_validate ?j] => set (job := j) in *
    end.
    destruct (cube_validate job); cbn [bind] in *; [|discriminate R].
    destruct (cube_body_3D d job n eq_refl eq_refl (conj Hc W'))
      as (header & Hw).
    rewrite (Hw []); cbn [written app]; eauto.
Qed.

(** C8. A Resolve file with neither a [LUT_1D_SIZE] nor a [LUT_3D_SIZE]
    directive is not refused as malformed.  When its lines are read and
    its data rows are rows of numbers, none of the three branches that
    build the result is taken, and the last line of
    [read_LUT_ResolveCube] raises the unbound local variable [LUT], which
    is no report of a missing directive; [read_LUT], when the method is
    "Resolve Cube", calls the codec once and raises the same exception. *)
Theorem read_LUT_ResolveCube_without_size_directive (path text : str)
    (st : cube_state) (t : ndarray float) :
  existsb is_size_directive (readlines text) = false ->
  cube_lines (cube_initial (path_to_title path)) (readlines text) = Ok st ->
  as_float_table (cs_data st) = Ok t ->
  read_LUT_ResolveCube path_to_title path text = Raise UnboundLocalError
  /\ forall splitext_ext read_function method,
       read_function ResolveCube path
       = read_LUT_ResolveCube path_to_title path text ->
       resolve_method splitext_ext path method = Ok (lit "resolve cube") ->
       read_LUT splitext_ext read_function path method
       = ([ResolveCube], Raise UnboundLocalError).
Proof.
  intros H Hs Ht.
  assert (R : read_LUT_ResolveCube path_to_title path text
              = Raise UnboundLocalError).
  { unfold read_LUT_ResolveCube.
    destruct (cube_lines_no_directive _ (cube_initial (path_to_title path)) H)
      as [E | (st' & E & F1 & F3)]; rewrite E in Hs; [discriminate Hs|].
    injection Hs as ->; rewrite E; cbn [bind].
    unfold cube_finish; rewrite Ht, F1, F3; reflexivity. }
  split; [exact R|].
  intros splitext_ext read_function method Hf Hm.
  unfold read_LUT; rewrite Hm.
  change (getitem LUT_READ_METHODS (lit "resolve cube")) with (Ok ResolveCube).
  cbv beta iota; rewrite Hf, R; reflexivity.
Qed.

(** ** Comments of a Resolve file *)

Lemma cube_line_comments st raw st' :
  cube_line st raw = Ok st' ->
  cs_comments st'
  = cs_comments st
    ++ (if startswith (strip raw) (lit "#") then [strip (tl (strip raw))]
        else []).
Proof.
  unfold cube_line.
  destruct (length (strip raw) =? 0) eqn:E0.
  { apply Nat.eqb_eq, length_zero_iff_nil in E0; rewrite E0.
    intros E; injection E as <-; simpl; rewrite app_nil_r; reflexivity. }
  destruct (startswith (strip raw) (lit "#")).
  { intros E; injection E as <-; reflexivity. }
  rewrite app_nil_r.
  destruct (split (strip raw)) as [|t0 rest]; [discriminate|].
  repeat match goal with
         | |- (if ?c then _ else _) = _ -> _ => destruct c
         | |- bind ?r _ = _ -> _ => destruct r; simpl
         | |- Ok _ = Ok _ -> _ => intros E; injection E as <-; reflexivity
         | |- Raise _ = Ok _ -> _ => discriminate
         end.
Qed.

Lemma cube_lines_comments lines : forall st st',
  cube_lines st lines = Ok st' ->
  cs_comments st'
  = cs_comments st
    ++ map (fun line => strip (tl line))
           (filter (fun line => startswith line (lit "#")) (map strip lines)).
Proof.
  induction lines as [|raw lines IH]; intros st st'; simpl.
  - intros E; injection E as <-; rewrite app_nil_r; reflexivity.
  - destruct (cube_line st raw) as [st1|] eqn:E1; simpl; [|discriminate].
    intros E; rewrite (IH _ _ E), (cube_line_comments _ _ _ E1).
    destruct (startswith (strip raw) (lit "#")); simpl;
      rewrite <- app_assoc; reflexivity.
Qed.

(** C10. When [read_LUT_ResolveCube] returns a sequence, the sequence has
    two tables; the second one carries every comment of the file, in file
    order, and the first one carries none. *)
Theorem read_LUT_ResolveCube_composite_comments (path text : str)
    (ops : list operator) :
  read_LUT_ResolveCube path_to_title path text = Ok (LUTSequence ops) ->
  exists a b,
    ops = [Table a; Table b]
    /\ class a = class_LUT3x1D /\ class b = class_LUT3D
    /\ comments a = []
    /\ comments b = file_comments text.
Proof.
  unfold read_LUT_ResolveCube; intros E.
  apply bind_Ok in E as (st & Es & E).
  apply cube_lines_comments in Es; simpl in Es.
  unfold cube_finish in E.
  apply bind_Ok in E as (t & _ & E).
  destruct (cs_has_3x1D st && cs_has_3D st).
  - apply bind_Ok in E as (t1 & _ & E).
    apply bind_Ok in E as (r & _ & E).
    apply bind_Ok in E as (sh & _ & E).
    apply bind_Ok in E as (t3 & _ & E).
    injection E as <-.
    eexists; eexists; split; [reflexivity|].
    repeat split; exact Es.
  - destruct (cs_has_3x1D st); [discriminate|].
    destruct (cs_has_3D st); [|discriminate].
    apply bind_Ok in E as (sh & _ & E).
    apply bind_Ok in E as (t3 & _ & E); discriminate.
Qed.

(** ** The size line of a Sony file *)

Lemma spi3d_lines_app l1 : forall st l2,
  spi3d_lines st (l1 ++ l2)
  = bind (spi3d_lines st l1) (fun st' => spi3d_lines st' l2).
Proof.
  induction l1 as [|x l1 IH]; intros st l2; simpl; [reflexivity|].
  destruct (spi3d_line st x); simpl; [apply IH | reflexivity].
Qed.

Lemma len_set_three (a b c : str) :
  ~ (a = b /\ b = c) -> (len_set [a; b; c] =? 1) = false.
Proof.
  intros H; unfold len_set; simpl.
  destruct (list_eq_dec ascii_dec b a) as [Eba|Nba];
    destruct (list_eq_dec ascii_dec c a) as [Eca|Nca];
    destruct (list_eq_dec ascii_dec c b) as [Ecb|Ncb];
    simpl; try reflexivity; try congruence.
  all: exfalso; apply H; split; congruence.
Qed.

Lemma spi3d_line_non_uniform st line a b c :
  startswith line (lit "#") = false ->
  split line = [a; b; c] ->
  ~ (a = b /\ b = c) ->
  spi3d_line st line = Raise (AssertionError msg_non_uniform).
Proof.
  intros Hc Hs Hn; unfold spi3d_line; rewrite Hc, Hs.
  cbn [length Nat.eqb]; rewrite (len_set_three _ _ _ Hn); reflexivity.
Qed.

Lemma spi3d_line_passive st line :
  spi3d_passive line -> exists st', spi3d_line st line = Ok st'.
Proof.
  unfold spi3d_line; intros [Hc | [H3 H6]].
  - rewrite Hc; eauto.
  - destruct (startswith line (lit "#")); [eauto|].
    apply Nat.eqb_neq in H3, H6; rewrite H3, H6; simpl; eauto.
Qed.

Lemma spi3d_lines_passive lines : forall st,
  Forall spi3d_passive lines -> exists st', spi3d_lines st lines = Ok st'.
Proof.
  induction lines as [|x lines IH]; intros st F; simpl; [eauto|].
  inversion F as [|? ? Hx Hl]; subst.
  destruct (spi3d_line_passive st x Hx) as (st1 & E); rewrite E; simpl.
  apply IH; exact Hl.
Qed.

(** ** The index rows of a Sony file *)

Lemma as_int_array_length ts zs : as_int_array ts = Ok zs -> length zs = length ts.
Proof. apply mapM_length. Qed.

Lemma as_float_tokens_length ts vs :
  as_float_tokens ts = Ok vs -> length vs = length ts.
Proof. apply mapM_length. Qed.

(** One iteration of the loop: a line of six tokens adds its index row,
    any other line leaves the index rows as they are. *)
Lemma spi3d_line_step st line st' :
  spi3d_line st line = Ok st' ->
  spi3d_rows_ok st ->
  spi3d_rows_ok st'
  /\ exists new,
       mapM (fun l => as_int_array (firstn 3 (split l))) (data_lines [line])
       = Ok new
       /\ sp_data_indexes st' = sp_data_indexes st ++ new.
Proof.
  unfold spi3d_line, data_lines; cbn [filter].
  destruct (startswith line (lit "#")); cbn [negb andb].
  { intros E; injection E as <-; intros H; split; [exact H|].
    exists []; split; [reflexivity | cbn [sp_data_indexes]; rewrite app_nil_r; reflexivity]. }
  destruct (Nat.eqb_spec (length (split line)) 3) as [E3|N3].
  - replace (length (split line) =? 6) with false
      by (symmetry; apply Nat.eqb_neq; lia).
    destruct (attest _ _); cbn [bind]; [|discriminate].
    destruct (as_int_scalar _); cbn [bind]; [|discriminate].
    intros E; injection E as <-; intros H; split; [exact H|].
    exists []; split; [reflexivity | cbn [sp_data_indexes]; rewrite app_nil_r; reflexivity].
  - cbn [bind].
    destruct (Nat.eqb_spec (length (split line)) 6) as [E6|N6].
    + destruct (as_float_tokens (skipn 3 (split line))) as [vs|] eqn:Ev;
        cbn [bind]; [|discriminate].
      destruct (as_int_array (firstn 3 (split line))) as [zs|] eqn:Ez;
        cbn [bind mapM]; [|discriminate].
      intros E; injection E as <-; intros (Hi & Ht & Hl).
      apply as_float_tokens_length in Ev; rewrite length_skipn in Ev.
      pose proof (as_int_array_length _ _ Ez) as Lz; rewrite length_firstn in Lz.
      split.
      * unfold spi3d_rows_ok; cbn [sp_data_indexes sp_data_table].
        repeat split.
        -- apply Forall_app; split; [exact Hi | repeat constructor; lia].
        -- apply Forall_app; split; [exact Ht | repeat constructor; lia].
        -- rewrite !length_app, Hl; reflexivity.
      * exists [zs]; split; [rewrite Ez; reflexivity | reflexivity].
    + intros E; injection E as <-; intros H; split; [exact H|].
      exists []; split; [reflexivity | rewrite app_nil_r; reflexivity].
Qed.

Lemma mapM_app {B C} (f : B -> result C) l1 l2 r1 r2 :
  mapM f l1 = Ok r1 -> mapM f l2 = Ok r2 -> mapM f (l1 ++ l2) = Ok (r1 ++ r2).
Proof.
  revert r1; induction l1 as [|x l1 IH]; intros r1; simpl.
  - intros E; injection E as <-; auto.
  - destruct (f x); [|discriminate]; cbn [bind].
    destruct (mapM f l1); [|discriminate]; cbn [bind].
    intros E H2; injection E as <-.
    rewrite (IH _ eq_refl H2); reflexivity.
Qed.

Lemma data_lines_app l1 l2 : data_lines (l1 ++ l2) = data_lines l1 ++ data_lines l2.
Proof. apply filter_app. Qed.

Lemma spi3d_lines_collect lines : forall st st',
  spi3d_lines st lines = Ok st' ->
  spi3d_rows_ok st ->
  spi3d_rows_ok st'
  /\ exists new,
       mapM (fun l => as_int_array (firstn 3 (split l))) (data_lines lines)
       = Ok new
       /\ sp_data_indexes st' = sp_data_indexes st ++ new.
Proof.
  induction lines as [|line lines IH]; intros st st'; cbn [spi3d_lines].
  - intros E; injection E as <-; intros H; split; [exact H|].
    exists []; split; [reflexivity | rewrite app_nil_r; reflexivity].
  - destruct (spi3d_line st line) as [st1|] eqn:E1; cbn [bind]; [|discriminate].
    intros E H.
    destruct (spi3d_line_step _ _ _ E1 H) as (H1 & n1 & M1 & A1).
    destruct (IH _ _ E H1) as (H2 & n2 & M2 & A2).
    split; [exact H2|].
    exists (n1 ++ n2); split.
    + change (line :: lines) with ([line] ++ lines).
      rewrite data_lines_app; apply mapM_app; assumption.
    + rewrite A2, A1, app_assoc; reflexivity.
Qed.

Lemma spi3d_initial_ok : spi3d_rows_ok spi3d_initial.
Proof. repeat split; constructor. Qed.

(** ** The check of the sorted indexes *)

Lemma list_eqb_Z (l1 l2 : list Z) : list_eqb Z.eqb l1 l2 = true <-> l1 = l2.
Proof.
  revert l2; induction l1 as [|x l1 IH]; intros [|y l2]; simpl;
    try (split; [discriminate | discriminate]); [split; reflexivity|].
  rewrite andb_true_iff, Z.eqb_eq, IH; split.
  - intros [-> ->]; reflexivity.
  - intros E; injection E as -> ->; auto.
Qed.

Lemma array_equal_Z (a b : ndarray Z) : array_equal Z.eqb a b = true <-> a = b.
Proof.
  unfold array_equal; destruct a as [sa da], b as [sb db]; cbn [shape data].
  destruct (list_eq_dec Nat.eq_dec sa sb) as [->|N]; cbn [andb].
  - rewrite list_eqb_Z; split; [intros ->; reflexivity | intros E; injection E; auto].
  - split; [discriminate | intros E; injection E; intros; contradiction].
Qed.

Lemma take_rows_map {B} (rs : list (list B)) (perm : list nat) :
  Forall (fun r => length r = 3) rs ->
  Forall (fun p => p < length rs) perm ->
  take_rows (mk_ndarray [length rs; 3] (concat rs)) perm
  = mk_ndarray [length perm; 3] (concat (map (fun p => nth p rs []) perm)).
Proof.
  intros F Hb; unfold take_rows, row_width; cbn [shape data tl].
  change (prod_shape [3]) with 3.
  f_equal; rewrite flat_map_concat_map; f_equal.
  apply map_ext_in; intros p Hp.
  rewrite Forall_forall in Hb.
  apply chunk_concat; [exact F | apply Hb; exact Hp].
Qed.

Lemma lexsort_perm (cols : list (list Z)) n :
  length (hd [] cols) = n -> Permutation (lexsort cols) (seq 0 n).
Proof. intros <-; unfold lexsort; apply sort_pos_perm. Qed.

Lemma lexsort_rows_perm (rs : list (list Z)) :
  Permutation
    (lexsort [map (fun r => nth 2 r 0%Z) rs; map (fun r => nth 1 r 0%Z) rs;
              map (fun r => nth 0 r 0%Z) rs])
    (seq 0 (length rs)).
Proof. apply lexsort_perm; cbn [hd]; apply length_map. Qed.

Lemma lexsort_bound (rs : list (list Z)) :
  Forall (fun p => p < length rs)
    (lexsort [map (fun r => nth 2 r 0%Z) rs; map (fun r => nth 1 r 0%Z) rs;
              map (fun r => nth 0 r 0%Z) rs]).
Proof.
  apply Forall_forall; intros p Hp.
  eapply Permutation_in in Hp; [|apply lexsort_rows_perm].
  apply in_seq in Hp; lia.
Qed.

Lemma sorted_indexes_length rs : length (sorted_indexes rs) = length rs.
Proof.
  unfold sorted_indexes; rewrite length_map.
  rewrite (Permutation_length (lexsort_rows_perm rs)).
  apply length_seq.
Qed.

(** The sorted rows are a permutation of the rows read. *)
Lemma sorted_indexes_perm rs : Permutation (sorted_indexes rs) rs.
Proof.
  unfold sorted_indexes.
  rewrite (Permutation_map _ (lexsort_rows_perm rs)).
  replace (map (fun p => nth p rs []) (seq 0 (length rs))) with rs; [reflexivity|].
  apply nth_ext with (d := []) (d' := []).
  - rewrite length_map, length_seq; reflexivity.
  - intros p Hp; rewrite nth_map_seq by exact Hp; reflexivity.
Qed.

(** The sorted rows are in lexicographic order, axis 0 first. *)
Lemma sorted_indexes_sorted rs :
  Forall (fun r => length r = 3) rs -> Sorted lex_le (sorted_indexes rs).
Proof.
  intros F; unfold sorted_indexes, lexsort; cbn [rev app hd].
  rewrite length_map.
  set (cols := [map (fun r => nth 0 r 0%Z) rs; map (fun r => nth 1 r 0%Z) rs;
                map (fun r => nth 2 r 0%Z) rs]).
  pose proof (sort_pos_sorted cols (seq 0 (length rs))) as S.
  pose proof (sort_pos_perm cols (seq 0 (length rs))) as P.
  assert (B : Forall (fun p => p < length rs) (sort_pos cols (seq 0 (length rs)))).
  { apply Forall_forall; intros p Hp.
    eapply Permutation_in in Hp; [|exact P]; apply in_seq in Hp; lia. }
  clear P.
  induction S as [|p l Hs IH Hh]; cbn [map]; constructor.
  - apply IH; inversion B; assumption.
  - inversion B as [|? ? Hp Bl]; subst.
    destruct Hh as [|q l Hpq]; cbn [map]; constructor.
    inversion Bl as [|? ? Hq _]; subst.
    unfold lex_le; rewrite <- pos_cmp_rows.
    + unfold pos_leb in Hpq; fold cols.
      destruct (pos_cmp cols p q); congruence.
    + rewrite Forall_forall in F; apply F, nth_In; exact Hp.
    + rewrite Forall_forall in F; apply F, nth_In; exact Hq.
Qed.

Lemma spi3d_finish_spec title st :
  spi3d_rows_ok st ->
  sp_data_indexes st <> [] ->
  spi3d_finish title st
  = bind (expected_indexes (sp_size st)) (fun expected =>
    bind (attest (array_equal Z.eqb
                    (mk_ndarray [length (sp_data_indexes st); 3]
                       (concat (sorted_indexes (sp_data_indexes st))))
                    expected) msg_indexes) (fun _ =>
    bind (shape_cube (sp_size st)) (fun sh =>
    bind (reshape_C sh
            (mk_ndarray [length (sp_data_indexes st); 3]
               (concat (map (fun p => nth p (sp_data_table st) [])
                            (lexsort
                               [map (fun r => nth 2 r 0%Z) (sp_data_indexes st);
                                map (fun r => nth 1 r 0%Z) (sp_data_indexes st);
                                map (fun r => nth 0 r 0%Z) (sp_data_indexes st)])))))
         (fun table =>
            Ok (LUT3D table title (Some default_domain) (sp_comments st)))))).
Proof.
  intros (Hi & Ht & Hl) Hne; unfold spi3d_finish.
  destruct (sp_data_indexes st) as [|r rs] eqn:Er; [contradiction|].
  destruct (sp_data_table st) as [|v vs] eqn:Ev; [discriminate|].
  rewrite (as_array_uniform _ 3 r rs Hi); cbn [bind].
  rewrite !(column_three (r :: rs)) by (assumption || lia); cbn [bind].
  set (perm := lexsort _).
  assert (Bp : Forall (fun p => p < length (r :: rs)) perm)
    by apply lexsort_bound.
  assert (Lp : length perm = length (r :: rs)).
  { unfold perm; rewrite (Permutation_length (lexsort_rows_perm (r :: rs))).
    apply length_seq. }
  rewrite (take_rows_map (r :: rs) perm Hi Bp), Lp.
  fold (sorted_indexes (r :: rs)).
  destruct (expected_indexes (sp_size st)) as [expected|]; cbn [bind]; [|reflexivity].
  unfold msg_indexes.
  destruct (attest _ _); cbn [bind]; [|reflexivity].
  rewrite (as_array_uniform _ 3 v vs Ht); cbn [bind].
  rewrite (take_rows_map (v :: vs) perm Ht) by (rewrite Hl; exact Bp).
  rewrite Lp; reflexivity.
Qed.

Lemma spi3d_finish_no_rows title st :
  sp_data_indexes st = [] -> spi3d_finish title st = Raise IndexError.
Proof. intros E; unfold spi3d_finish; rewrite E; reflexivity. Qed.

(** C5. A Sony file without any line of six tokens is a file in which
    every index is missing, and it is not refused by the comparison of the
    sorted indexes with the expected ones: whenever the reading loop ends,
    and whatever size the file declares, [read_LUT_SonySPI3D] raises an
    index error, from [indexes[:, 2]] taken on the empty array of index
    rows, before the comparison is reached. *)
Theorem read_LUT_SonySPI3D_no_data_rows (path text : str)
    (st : spi3d_state) :
  spi3d_lines spi3d_initial (stripped_lines text) = Ok st ->
  data_lines (stripped_lines text) = [] ->
  read_LUT_SonySPI3D path_to_title path text = Raise IndexError.
Proof.
  intros Hs Hd.
  destruct (spi3d_lines_collect _ _ _ Hs spi3d_initial_ok)
    as (_ & new & Hm & Ha).
  rewrite Hd in Hm; cbn [mapM] in Hm; injection Hm as <-.
  unfold read_LUT_SonySPI3D; rewrite Hs; cbn [bind].
  apply spi3d_finish_no_rows; exact Ha.
Qed.

(** ** The text written by the Sony codec *)

Lemma file_of_app l1 l2 : file_of (l1 ++ l2) = file_of l1 ++ file_of l2.
Proof. apply flat_map_app. Qed.

Lemma file_of_cons x l : file_of (x :: l) = (x ++ [LF]) ++ file_of l.
Proof. reflexivity. Qed.

Lemma file_of_map {B} (g : B -> str) (l : list B) :
  file_of (map g l) = concat (map (fun x => g x ++ [LF]) l).
Proof. unfold file_of; rewrite flat_map_concat_map, map_map; reflexivity. Qed.

Lemma combine_swap_map {B C D E} (F : C -> D -> E) (h : B -> D) (l : list B) :
  forall G : list C,
  map (fun ir => F (snd ir) (h (fst ir))) (combine l G)
  = map (fun it => F (fst it) (snd it)) (combine G (map h l)).
Proof.
  induction l as [|x l IH]; intros [|g G]; cbn [combine map]; try reflexivity.
  f_equal; apply IH.
Qed.

Lemma grid_In n idx :
  In idx (grid n) ->
  exists i j k, idx = [Z.of_nat i; Z.of_nat j; Z.of_nat k]
                /\ i < n /\ j < n /\ k < n.
Proof.
  unfold grid, triples; intros H.
  apply in_flat_map in H as (r & Hr & H).
  apply in_flat_map in H as (g & Hg & H).
  apply in_map_iff in H as (b & <- & Hb).
  apply in_map_iff in Hr as (i & <- & Hi); apply in_seq in Hi.
  apply in_map_iff in Hg as (j & <- & Hj); apply in_seq in Hj.
  apply in_map_iff in Hb as (k & <- & Hk); apply in_seq in Hk.
  exists i, j, k; repeat split; lia.
Qed.

Lemma table_rows_spec (l : LUT) n :
  wf_LUT3D l n ->
  bind (shape_m1_3 (table l)) (fun sh => reshape_C sh (table l))
  = Ok (mk_ndarray [n * n * n; 3] (data (table l)))
  /\ Forall (fun r => length r = 3)
            (rows (mk_ndarray [n * n * n; 3] (data (table l))))
  /\ length (rows (mk_ndarray [n * n * n; 3] (data (table l)))) = n * n * n.
Proof.
  intros (_ & _ & Hl & _); split; [|split].
  - unfold shape_m1_3, reshape_C.
    rewrite Hl, Nat.Div0.mod_mul, Nat.div_mul by lia; cbn [Nat.eqb bind].
    replace (prod_shape [n * n * n; 3] =? n * n * n * 3) with true
      by (symmetry; apply Nat.eqb_eq; simpl; lia).
    reflexivity.
  - apply (rows_uniform _ _ (n * n * n) 3); [reflexivity | exact Hl].
  - unfold rows; cbn [shape hd]; rewrite length_map, length_seq; reflexivity.
Qed.

Lemma spi3d_format_array_text d (idx : list Z) (v : list float) :
  length idx = 3 -> length v = 3 ->
  spi3d_format_array d idx v = Ok (spi3d_row_text d idx v).
Proof.
  destruct idx as [|i [|j [|k [|? ?]]]]; try discriminate.
  destruct v as [|r [|g [|b [|? ?]]]]; try discriminate.
  reflexivity.
Qed.

(** The file written for a cube of side [n]. *)
Lemma spi3d_body_writes d (l : LUT) n :
  wf_LUT3D l n ->
  writes (spi3d_body d l) (file_of (spi3d_file_lines d l n)) tt.
Proof.
  intros W; pose proof W as (_ & Hs & Hl & _).
  destruct (table_rows_spec l n W) as (Et & Ft & Lt).
  assert (Hsize : size l = n) by (unfold size; rewrite Hs; reflexivity).
  pose proof (rows_of_concat _ (n * n * n) 3 (grid n) (triples_rows _)
                (grid_length n)) as Ri.
  set (tbl := mk_ndarray [n * n * n; 3] (data (table l))) in *.
  set (f := fun ir : nat * list Z =>
              spi3d_row_text d (snd ir)
                (firstn 3 (skipn (fst ir * 3) (data (table l)))) ++ [LF]).
  assert (Hrows : writes
            (wfor (fun ir =>
                     wbind (wlift (bind (row tbl (fst ir)) (fun values =>
                                     spi3d_format_array d (snd ir) values)))
                           (fun text => fwrite (text ++ [LF])))
                  (combine (seq 0 (length (grid n))) (grid n)))
            (concat (map f (combine (seq 0 (length (grid n))) (grid n)))) tt).
  { apply writes_wfor; intros [p idx] Hin.
    pose proof (in_combine_l _ _ _ _ Hin) as Hp; apply in_seq in Hp.
    pose proof (in_combine_r _ _ _ _ Hin) as Hi.
    rewrite grid_length in Hp.
    assert (Li : length idx = 3).
    { pose proof (triples_rows (map Z.of_nat (seq 0 n))) as T.
      rewrite Forall_forall in T; apply T; exact Hi. }
    assert (Er : row tbl p = Ok (firstn 3 (skipn (p * 3) (data (table l))))).
    { unfold row, row_width; cbn [tbl shape data tl].
      destruct (Nat.ltb_spec p (n * n * n)); [reflexivity | lia]. }
    cbn [fst snd]; rewrite Er; cbn [bind].
    rewrite spi3d_format_array_text;
      [|exact Li | rewrite length_firstn, length_skipn; lia].
    unfold f; cbn [fst snd].
    rewrite <- (app_nil_l (spi3d_row_text _ _ _ ++ [LF])).
    eapply writes_bind; [apply writes_lift; reflexivity | apply writes_fwrite]. }
  unfold spi3d_body; rewrite Hsize, expected_indexes_grid, Et.
  eapply writes_eq.
  { eapply writes_bind; [apply writes_fwrite|].
    eapply writes_bind; [apply writes_fwrite|].
    eapply writes_bind; [apply writes_fwrite|].
    eapply writes_bind; [apply writes_lift; reflexivity|].
    eapply writes_bind; [apply writes_lift; reflexivity|].
    cbv beta; rewrite Ri.
    eapply writes_bind; [exact Hrows | apply writes_comments]. }
  unfold spi3d_file_lines; rewrite !file_of_app, !file_of_cons.
  change (file_of []) with (@nil ascii).
  cbn [join]; rewrite app_nil_r, <- !app_assoc, !app_nil_l.
  do 10 (apply (f_equal2 (@app ascii)); [reflexivity|]).
  apply (f_equal2 (@app ascii)).
  - rewrite file_of_map; f_equal.
    unfold spi3d_items, rows, row_width; cbn [tbl shape data hd tl].
    rewrite grid_length.
    change (prod_shape [3]) with 3.
    apply (combine_swap_map
             (fun idx v => spi3d_row_text d idx v ++ [LF])
             (fun i => firstn 3 (skipn (i * 3) (data (table l))))).
  - rewrite file_of_map; reflexivity.
Qed.


(** ** Validation in the Sony writer *)

Lemma LUT_class_eqb_eq a b : LUT_class_eqb a b = true <-> a = b.
Proof. destruct a, b; simpl; split; congruence. Qed.

Lemma spi3d_validate_spec (l : LUT) :
  ((class l <> class_LUT3D \/ is_domain_explicit l = true
    \/ float_array_equal (domain l) default_domain = false) ->
   exists msg, spi3d_validate (Table l) = Raise (AssertionError msg))
  /\ (class l = class_LUT3D -> is_domain_explicit l = false ->
      float_array_equal (domain l) default_domain = true ->
      spi3d_validate (Table l) = Ok l).
Proof.
  unfold spi3d_validate; cbn [op_is_domain_explicit op_domain isinstance bind].
  destruct (is_domain_explicit l); cbn [negb attest bind].
  { split; [eauto | discriminate]. }
  destruct (LUT_class_eqb (class l) class_LUT3D) eqn:Ec; cbn [attest bind].
  2:{ split; [eauto|]; intros Hc; apply LUT_class_eqb_eq in Hc; congruence. }
  apply LUT_class_eqb_eq in Ec.
  destruct (float_array_equal (domain l) default_domain); cbn [attest bind].
  - split; [|reflexivity].
    intros [H | [H | H]]; [contradiction | discriminate | discriminate].
  - split; [eauto | discriminate].
Qed.

(** C9. A sequence need not start with a table.  For a sequence whose
    first element is a matrix operator, [write_LUT_SonySPI3D] issues the
    advisory warning and takes that operator, and the first validation,
    which asks the operator whether its domain is explicit before its
    class is checked, raises an attribute error, which is no validation
    failure; for the empty sequence, taking the first element raises an
    index error.  In both cases no file is opened. *)
Theorem write_LUT_SonySPI3D_sequence_without_table
    (matrix offset : ndarray float) (rest : list operator) (d : nat) :
  let led :=
    write_LUT_SonySPI3D str_LUTSequence
      (LUTSequence (LUTOperatorMatrix matrix offset :: rest)) d in
  let empty := write_LUT_SonySPI3D str_LUTSequence (LUTSequence []) d in
  ((exists w, warnings led = [w])
   /\ written led = None
   /\ returned led = Raise AttributeError)
  /\ ((exists w, warnings empty = [w])
      /\ written empty = None
      /\ returned empty = Raise IndexError).
Proof.
  cbv zeta; unfold write_LUT_SonySPI3D.
  cbn [spi3d_select bind spi3d_validate op_is_domain_explicit warnings
       written returned].
  split; (split; [eexists; reflexivity | split; reflexivity]).
Qed.

(** X19. Given a sequence whose first element is a table,
    [write_LUT_SonySPI3D] issues one advisory warning and then behaves as
    for that table alone, for which no warning is issued: when that table
    is not a 3D table, or its domain is explicit, or its domain differs
    from [[0, 0, 0], [1, 1, 1]], a validation failure is raised and no
    file is opened; otherwise the file is opened, and for a cubic table
    the function returns [True]. *)
Theorem write_LUT_SonySPI3D_sequence (l : LUT) (rest : list operator)
    (d : nat) :
  let seq_out :=
    write_LUT_SonySPI3D str_LUTSequence (LUTSequence (Table l :: rest)) d in
  let one_out := write_LUT_SonySPI3D str_LUTSequence (Single (Table l)) d in
  (exists w, warnings seq_out = [w])
  /\ warnings one_out = []
  /\ written seq_out = written one_out
  /\ returned seq_out = returned one_out
  /\ ((class l <> class_LUT3D \/ is_domain_explicit l = true
       \/ float_array_equal (domain l) default_domain = false) ->
      exists msg,
        returned seq_out = Raise (AssertionError msg)
        /\ written seq_out = None)
  /\ (class l = class_LUT3D -> is_domain_explicit l = false ->
      float_array_equal (domain l) default_domain = true ->
      written seq_out <> None
      /\ forall n, wf_LUT3D l n -> returned seq_out = Ok true).
Proof.
  cbv zeta; unfold write_LUT_SonySPI3D; cbn [spi3d_select bind].
  destruct (spi3d_validate_spec l) as [Hbad Hgood].
  destruct (spi3d_validate (Table l)) as [l'|e] eqn:Ev.
  - destruct (spi3d_body d l' []) as [text r] eqn:Eb; cbn [warnings written returned].
    split; [eauto|]; split; [reflexivity|]; split; [reflexivity|].
    split; [reflexivity|]; split.
    + intros Hv; destruct (Hbad Hv) as (msg & Hm); discriminate Hm.
    + intros Hc He Hd; split; [discriminate|].
      intros n W.
      assert (l' = l) by (specialize (Hgood Hc He Hd); congruence); subst l'.
      rewrite (spi3d_body_writes d l n W []) in Eb.
      injection Eb as _ <-; reflexivity.
  - cbn [warnings written returned].
    split; [eauto|]; split; [reflexivity|]; split; [reflexivity|].
    split; [reflexivity|]; split.
    + intros Hv; destruct (Hbad Hv) as (msg & Hm).
      exists msg; split; [congruence | reflexivity].
    + intros Hc He Hd; specialize (Hgood Hc He Hd); discriminate Hgood.
Qed.

(** ** Reading back the file written by the Sony codec *)

Section RoundTrip.

Variable close : nat -> float -> float -> Prop.
Context {FF : FloatFormat close}.

Lemma reread_spec d v :
  float_of_token (format_float d v) = Some (reread d v)
  /\ close d v (reread d v).
Proof.
  unfold reread; destruct (format_float_close d v) as (v' & E & C).
  rewrite E; auto.
Qed.

Lemma as_float_tokens_format d (v : list float) :
  as_float_tokens (map (format_float d) v) = Ok (map (reread d) v).
Proof.
  unfold as_float_tokens; induction v as [|x v IH]; [reflexivity|].
  cbn [map mapM]; rewrite (proj1 (reread_spec d x)); cbn [bind].
  rewrite IH; reflexivity.
Qed.

Lemma startswith_digit c r : is_digit c = true -> startswith (c :: r) (lit "#") = false.
Proof.
  intros H; change (lit "#") with ["#"%char]; cbn [startswith].
  destruct (Ascii.eqb_spec "#"%char c) as [<-|_]; [discriminate H | reflexivity].
Qed.

Lemma row_tokens d idx (v : list float) :
  small_index idx -> length v = 3 ->
  Forall token (map format_int idx ++ map (format_float d) v)
  /\ length (map format_int idx ++ map (format_float d) v) = 6
  /\ startswith (spi3d_row_text d idx v) (lit "#") = false.
Proof.
  intros (i & j & k & -> & _) Lv; split; [|split].
  - apply Forall_app; split.
    + repeat constructor; apply format_int_token.
    + apply Forall_forall; intros t Ht.
      apply in_map_iff in Ht as (x & <- & _); apply format_float_token.
  - rewrite length_app, !length_map, Lv; reflexivity.
  - destruct (format_int_head i) as (c & r & E & Hd).
    unfold spi3d_row_text; cbn [map app].
    destruct (join_head (format_int (Z.of_nat i))
                (format_int (Z.of_nat j) :: format_int (Z.of_nat k)
                 :: map (format_float d) v) c r E) as (r' & ->).
    apply startswith_digit; exact Hd.
Qed.

(** A data row is read as its index row and its values read back. *)
Lemma spi3d_line_row st d idx (v : list float) :
  small_index idx -> length v = 3 ->
  spi3d_line st (spi3d_row_text d idx v)
  = Ok (mk_spi3d_state (sp_size st) (sp_data_table st ++ [map (reread d) v])
          (sp_data_indexes st ++ [idx]) (sp_comments st)).
Proof.
  intros Hi Lv; destruct (row_tokens d idx v Hi Lv) as (Ft & Lt & Hc).
  unfold spi3d_line; rewrite Hc.
  unfold spi3d_row_text; rewrite (split_join _ Ft), Lt; cbn [Nat.eqb bind].
  destruct Hi as (i & j & k & -> & Bi & Bj & Bk).
  cbn [map app skipn firstn].
  rewrite as_float_tokens_format; cbn [bind].
  unfold as_int_array; cbn [mapM].
  rewrite !int64_of_token_format by assumption; reflexivity.
Qed.

Lemma row_line_shape d idx (v : list float) :
  small_index idx -> length v = 3 ->
  no_break (spi3d_row_text d idx v) /\ trimmed (spi3d_row_text d idx v).
Proof.
  intros Hi Lv; destruct (row_tokens d idx v Hi Lv) as (Ft & Lt & _).
  split; [apply join_no_break; exact Ft|].
  apply join_trimmed; [|exact Ft].
  intros E; rewrite E in Lt; discriminate Lt.
Qed.

(** The size line sets the size. *)
Lemma spi3d_line_size st n :
  (Z.of_nat n < 2 ^ 63)%Z ->
  let s := format_int (Z.of_nat n) in
  spi3d_line st (join SP [s; s; s])
  = Ok (mk_spi3d_state (Z.of_nat n) (sp_data_table st) (sp_data_indexes st)
          (sp_comments st))
  /\ no_break (join SP [s; s; s]) /\ trimmed (join SP [s; s; s]).
Proof.
  intros Hn s.
  assert (Ft : Forall token [s; s; s])
    by (repeat constructor; apply format_int_token).
  split; [|split; [apply join_no_break; exact Ft
                  | apply join_trimmed; [discriminate | exact Ft]]].
  destruct (format_int_head n) as (c & r & E & Hd).
  unfold spi3d_line.
  destruct (join_head s [s; s] c r E) as (r' & Ej).
  rewrite Ej, (startswith_digit c r' Hd), <- Ej.
  rewrite (split_join _ Ft); cbn [length Nat.eqb hd].
  replace (len_set [s; s; s] =? 1) with true.
  - cbn [attest bind]; unfold as_int_scalar, s.
    rewrite int64_of_token_format by exact Hn; reflexivity.
  - unfold len_set; simpl.
    destruct (list_eq_dec ascii_dec s s) as [_|N]; [reflexivity | contradiction].
Qed.

(** A comment line is read as its comment. *)
Lemma spi3d_line_comment st (c : str) :
  plain_comment c ->
  no_break (lit "# " ++ c)
  /\ strip ((lit "# " ++ c) ++ [LF]) <> []
  /\ spi3d_line st (strip ((lit "# " ++ c) ++ [LF]))
     = Ok (mk_spi3d_state (sp_size st) (sp_data_table st) (sp_data_indexes st)
             (sp_comments st ++ [c])).
Proof.
  intros [Hs Hb].
  destruct (strip_comment_line c Hs) as (sl & E & Hne & Hst & Htl).
  rewrite <- app_assoc, E.
  split; [|split; [exact Hne|]].
  - apply Forall_app; split; [repeat constructor; discriminate | exact Hb].
  - unfold spi3d_line; rewrite Hst, Htl; reflexivity.
Qed.

Lemma spi3d_lines_rows d (items : list (list Z * list float)) : forall st,
  Forall good_item items ->
  spi3d_lines st
    (map (fun x => strip (x ++ [LF]))
         (map (fun it => spi3d_row_text d (fst it) (snd it)) items))
  = Ok (mk_spi3d_state (sp_size st)
          (sp_data_table st ++ map (fun it => map (reread d) (snd it)) items)
          (sp_data_indexes st ++ map fst items) (sp_comments st)).
Proof.
  induction items as [|it items IH]; intros st F.
  - cbn [map spi3d_lines]; rewrite !app_nil_r; destruct st; reflexivity.
  - inversion F as [|? ? [Hi Lv] Fi]; subst.
    cbn [map spi3d_lines].
    rewrite (strip_trimmed_line _ (proj2 (row_line_shape d _ _ Hi Lv))).
    rewrite (spi3d_line_row st d _ _ Hi Lv); cbn [bind].
    rewrite (IH _ Fi); cbn [sp_size sp_data_table sp_data_indexes sp_comments].
    rewrite <- !app_assoc; reflexivity.
Qed.

Lemma spi3d_lines_comments (cs : list str) : forall st,
  Forall plain_comment cs ->
  spi3d_lines st
    (map (fun x => strip (x ++ [LF])) (map (fun c => lit "# " ++ c) cs))
  = Ok (mk_spi3d_state (sp_size st) (sp_data_table st) (sp_data_indexes st)
          (sp_comments st ++ cs)).
Proof.
  induction cs as [|c cs IH]; intros st F.
  - cbn [map spi3d_lines]; rewrite app_nil_r; destruct st; reflexivity.
  - inversion F as [|? ? Hc Fc]; subst.
    cbn [map spi3d_lines].
    rewrite (proj2 (proj2 (spi3d_line_comment st c Hc))); cbn [bind].
    rewrite (IH _ Fc); cbn [sp_size sp_data_table sp_data_indexes sp_comments].
    rewrite <- app_assoc; reflexivity.
Qed.

Lemma spi3d_items_good (l : LUT) n :
  wf_LUT3D l n -> (Z.of_nat n < 2 ^ 63)%Z ->
  Forall good_item (spi3d_items l n).
Proof.
  intros W Hn; destruct (table_rows_spec l n W) as (_ & Ft & _).
  apply Forall_forall; intros [idx v] Hin; unfold spi3d_items in Hin.
  split; cbn [fst snd].
  - apply in_combine_l, grid_In in Hin as (i & j & k & -> & Hi & Hj & Hk).
    exists i, j, k; repeat split; lia.
  - apply in_combine_r in Hin.
    rewrite Forall_forall in Ft; apply Ft; exact Hin.
Qed.

(** The table read back from the file written for a cube of side [n]. *)
Lemma spi3d_read_back d (l : LUT) n path :
  wf_LUT3D l n ->
  1 <= n ->
  (Z.of_nat n < 2 ^ 63)%Z ->
  Forall plain_comment (comments l) ->
  read_LUT_SonySPI3D path_to_title path (file_of (spi3d_file_lines d l n))
  = Ok (LUT3D (mk_ndarray [n; n; n; 3] (map (reread d) (data (table l))))
          (path_to_title path) (Some default_domain) (comments l)).
Proof.
  intros W Hn1 Hn Hc; pose proof W as (_ & _ & Hl & _).
  destruct (table_rows_spec l n W) as (_ & Ft & Lt).
  pose proof (spi3d_items_good l n W Hn) as Gi.
  destruct (spi3d_line_size spi3d_initial n Hn) as (Es & Bs & Ts).
  assert (T1 : trimmed (lit "SPILUT 1.0")) by (split; reflexivity).
  assert (T2 : trimmed (lit "3 3")) by (split; reflexivity).
  assert (B1 : no_break (lit "SPILUT 1.0")).
  { unfold no_break; repeat (apply Forall_cons; [split; discriminate|]).
    apply Forall_nil. }
  assert (B2 : no_break (lit "3 3")).
  { unfold no_break; repeat (apply Forall_cons; [split; discriminate|]).
    apply Forall_nil. }
  assert (Hb : Forall no_break (spi3d_file_lines d l n)).
  { unfold spi3d_file_lines; apply Forall_app; split.
    - repeat (apply Forall_cons; [assumption|]); apply Forall_nil.
    - apply Forall_app; split; apply Forall_forall; intros x Hx;
        apply in_map_iff in Hx as (y & <- & Hy).
      + rewrite Forall_forall in Gi; destruct (Gi y Hy) as [Hi Lv].
        apply (row_line_shape d _ _ Hi Lv).
      + rewrite Forall_forall in Hc.
        apply (spi3d_line_comment spi3d_initial y (Hc y Hy)). }
  assert (Hne : Forall (fun x => strip (x ++ [LF]) <> [])
                       (spi3d_file_lines d l n)).
  { assert (Tne : forall x, trimmed x -> strip (x ++ [LF]) <> []).
    { intros x Tx; rewrite (strip_trimmed_line x Tx).
      destruct Tx as [Tx _]; destruct x; [contradiction | discriminate]. }
    unfold spi3d_file_lines; apply Forall_app; split.
    - repeat (apply Forall_cons; [apply Tne; assumption|]); apply Forall_nil.
    - apply Forall_app; split; apply Forall_forall; intros x Hx;
        apply in_map_iff in Hx as (y & <- & Hy).
      + rewrite Forall_forall in Gi; destruct (Gi y Hy) as [Hi Lv].
        apply Tne, (row_line_shape d _ _ Hi Lv).
      + rewrite Forall_forall in Hc.
        apply (spi3d_line_comment spi3d_initial y (Hc y Hy)). }
  unfold read_LUT_SonySPI3D.
  rewrite (stripped_lines_file_of _ Hb Hne).
  unfold spi3d_file_lines; rewrite !map_app, !spi3d_lines_app.
  cbn [map spi3d_lines].
  rewrite (strip_trimmed_line _ T1), (strip_trimmed_line _ T2),
    (strip_trimmed_line _ Ts).
  change (spi3d_line spi3d_initial (lit "SPILUT 1.0")) with (Ok spi3d_initial).
  cbn [bind].
  change (spi3d_line spi3d_initial (lit "3 3")) with (Ok spi3d_initial).
  cbn [bind]; rewrite Es; cbn [bind].
  rewrite spi3d_lines_app, (spi3d_lines_rows d _ _ Gi); cbn [bind].
  rewrite (spi3d_lines_comments _ _ Hc); cbn [bind].
  cbn [sp_size sp_data_table sp_data_indexes sp_comments spi3d_initial app].
  unfold spi3d_items.
  rewrite (map_fst_combine_eq (grid n)) by (rewrite grid_length, Lt; reflexivity).
  set (tbl := mk_ndarray [n * n * n; 3] (data (table l))) in *.
  assert (Hsnd : map (fun it : list Z * list float => map (reread d) (snd it))
                     (combine (grid n) (rows tbl))
                 = map (map (reread d)) (rows tbl)).
  { rewrite <- (map_snd_combine_eq (grid n) (rows tbl)) at 2
      by (rewrite grid_length, Lt; reflexivity).
    rewrite map_map; reflexivity. }
  rewrite Hsnd.
  set (vals := map (map (reread d)) (rows tbl)).
  assert (Fv : Forall (fun r => length r = 3) vals).
  { apply Forall_forall; intros r Hr.
    apply in_map_iff in Hr as (r0 & <- & Hr0).
    rewrite length_map; rewrite Forall_forall in Ft; apply Ft; exact Hr0. }
  assert (Lv : length vals = n * n * n)
    by (unfold vals; rewrite length_map; exact Lt).
  assert (Gne : grid n <> []).
  { intros E; pose proof (grid_length n) as G; rewrite E in G; simpl in G; nia. }
  rewrite spi3d_finish_spec.
  2:{ repeat split; cbn [sp_data_indexes sp_data_table];
        [apply grid_rows | exact Fv | rewrite Lv, grid_length; reflexivity]. }
  2:{ exact Gne. }
  cbn [sp_size sp_data_table sp_data_indexes sp_comments].
  rewrite expected_indexes_grid; cbn [bind].
  rewrite sorted_indexes_grid, grid_length.
  replace (array_equal Z.eqb _ _) with true
    by (symmetry; apply array_equal_Z; reflexivity).
  cbn [attest bind]; rewrite shape_cube_nat; cbn [bind].
  rewrite lexsort_grid, <- Lv, map_nth_seq.
  unfold reshape_C; cbn [data].
  rewrite (length_concat_uniform _ 3 vals Fv), Lv.
  replace (prod_shape [n; n; n; 3] =? n * n * n * 3) with true
    by (symmetry; apply Nat.eqb_eq; simpl; lia).
  cbn [bind]; do 3 f_equal.
  unfold vals; rewrite <- concat_map; f_equal.
  unfold rows, row_width; cbn [tbl shape data hd tl].
  change (prod_shape [3]) with 3.
  apply concat_chunks; exact Hl.
Qed.

Lemma reread_close d (vs : list float) :
  Forall2 (close d) vs (map (reread d) vs).
Proof.
  induction vs as [|v vs IH]; cbn [map]; constructor; [|exact IH].
  apply reread_spec.
Qed.

(** C1, as amended. A 3D table of side [n] between 2 and 256 with the
    default domain, whose comments have no whitespace at either end and no
    line break, is written by [write_LUT_SonySPI3D], and reading the file
    back gives a table of the same shape whose values are those read back
    from the printed values, hence [close] to the original ones at the
    number of decimals used, with the same comments in the same order. *)
Theorem write_read_LUT_SonySPI3D (l : LUT) (n d : nat) (path : str) :
  wf_LUT3D l n ->
  2 <= n <= 256 ->
  float_array_equal (domain l) default_domain = true ->
  Forall plain_comment (comments l) ->
  exists text l',
    write_LUT_SonySPI3D str_LUTSequence (Single (Table l)) d
    = mk_outcome [] (Some text) (Ok true)
    /\ read_LUT_SonySPI3D path_to_title path text = Ok l'
    /\ shape (table l') = shape (table l)
    /\ Forall2 (close d) (data (table l)) (data (table l'))
    /\ comments l' = comments l.
Proof.
  intros W Hn Hd Hc; pose proof W as (Hcl & Hs & _ & Hsd & _).
  assert (He : is_domain_explicit l = false).
  { unfold is_domain_explicit; rewrite Hcl, Hsd.
    destruct (list_eq_dec Nat.eq_dec [2; 3] [2; 3]); [reflexivity | contradiction]. }
  exists (file_of (spi3d_file_lines d l n)).
  eexists; split; [|split].
  - unfold write_LUT_SonySPI3D; cbn [spi3d_select bind].
    rewrite (proj2 (spi3d_validate_spec l) Hcl He Hd).
    rewrite (spi3d_body_writes d l n W []); reflexivity.
  - apply spi3d_read_back; [exact W | lia | lia | exact Hc].
  - cbn [LUT3D table comments shape data]; rewrite Hs.
    split; [reflexivity | split; [apply reread_close | reflexivity]].
Qed.

End RoundTrip.

(** C6. A Sony file with a line of three tokens that are not all equal is
    never read successfully; when that line is the first line of three or
    six tokens, the exception raised is the validation failure for the
    non-uniform shape, raised inside the reading loop. *)
Theorem read_LUT_SonySPI3D_non_uniform_size (path text : str)
    (pre post : list str) (line a b c : str) :
  stripped_lines text = pre ++ line :: post ->
  startswith line (lit "#") = false ->
  split line = [a; b; c] ->
  ~ (a = b /\ b = c) ->
  (exists e, read_LUT_SonySPI3D path_to_title path text = Raise e)
  /\ (Forall spi3d_passive pre ->
      read_LUT_SonySPI3D path_to_title path text
      = Raise (AssertionError msg_non_uniform)).
Proof.
  intros Hl Hc Hs Hn; unfold read_LUT_SonySPI3D.
  rewrite Hl, spi3d_lines_app; split.
  - destruct (spi3d_lines spi3d_initial pre) as [st|e]; simpl; [|eauto].
    rewrite (spi3d_line_non_uniform st line a b c Hc Hs Hn); simpl; eauto.
  - intros F.
    destruct (spi3d_lines_passive pre spi3d_initial F) as (st & E).
    rewrite E; simpl.
    rewrite (spi3d_line_non_uniform st line a b c Hc Hs Hn); reflexivity.
Qed.

End CodecFacts.

(** ** The decimal float model prints tokens and reads them back *)

Module DecimalFloatFacts.

Import DecimalFloat.

Lemma around_spec q : (Qabs (q - inject_Z (around q)) <= 1 # 2)%Q.
Proof.
  unfold around.
  pose proof (Qfloor_le q) as Hlo; pose proof (Qlt_floor q) as Hhi.
  rewrite inject_Z_plus in Hhi; change (inject_Z 1) with 1%Q in Hhi.
  destruct (Qcompare (q - inject_Z (Qfloor q)) (1 # 2)) eqn:E.
  - apply Qeq_alt in E.
    destruct (Z.even (Qfloor q)); [|rewrite inject_Z_plus; change (inject_Z 1) with 1%Q];
      apply Qabs_Qle_condition; split; lra.
  - apply Qlt_alt in E; apply Qabs_Qle_condition; split; lra.
  - apply Qgt_alt in E; rewrite inject_Z_plus; change (inject_Z 1) with 1%Q.
    apply Qabs_Qle_condition; split; lra.
Qed.

Lemma digits_value_app s1 : forall acc s2,
  digits_value acc (s1 ++ s2)
  = match digits_value acc s1 with
    | Some v => digits_value v s2
    | None => None
    end.
Proof.
  induction s1 as [|c s1 IH]; intros acc s2; cbn [app digits_value]; [reflexivity|].
  destruct (is_digit c); [apply IH | reflexivity].
Qed.

Lemma digit_char_spec r :
  is_digit (ascii_of_N (48 + r mod 10)) = true
  /\ digit_val (ascii_of_N (48 + r mod 10)) = (r mod 10)%N.
Proof.
  assert (H : (r mod 10 < 10)%N) by (apply N.mod_lt; discriminate).
  unfold is_digit, digit_val; cbv zeta.
  generalize dependent (r mod 10)%N; intros x H.
  rewrite N_ascii_embedding by lia.
  split; [|lia].
  apply andb_true_iff; split; apply N.leb_le; lia.
Qed.

Lemma frac_digits_value d : forall r acc,
  digits_value acc (frac_digits d r)
  = Some (acc * 10 ^ N.of_nat d + r mod 10 ^ N.of_nat d)%N.
Proof.
  induction d as [|d IH]; intros r acc.
  - cbn [frac_digits digits_value]; change (10 ^ N.of_nat 0)%N with 1%N.
    rewrite N.mod_1_r; f_equal; lia.
  - cbn [frac_digits]; rewrite digits_value_app, IH; cbn [digits_value].
    destruct (digit_char_spec r) as [-> ->]; f_equal.
    rewrite Nat2N.inj_succ, N.pow_succ_r', (N.Div0.mod_mul_r r 10); lia.
Qed.

Lemma frac_digits_length d : forall r, length (frac_digits d r) = d.
Proof.
  induction d as [|d IH]; intros r; cbn [frac_digits]; [reflexivity|].
  rewrite length_app, IH; simpl; lia.
Qed.

Lemma frac_digits_digits d : forall r,
  Forall (fun c => is_digit c = true) (frac_digits d r).
Proof.
  induction d as [|d IH]; intros r; cbn [frac_digits]; [constructor|].
  apply Forall_app; split; [apply IH|].
  repeat constructor; apply digit_char_spec.
Qed.

Lemma cut_point_digits s rest :
  Forall (fun c => is_digit c = true) s ->
  cut_point (s ++ rest) = (s ++ fst (cut_point rest), snd (cut_point rest)).
Proof.
  induction 1 as [|c s Hc _ IH]; cbn [app].
  - destruct (cut_point rest); reflexivity.
  - cbn [cut_point].
    destruct (Ascii.eqb_spec c "."%char) as [->|_]; [discriminate Hc|].
    rewrite IH; reflexivity.
Qed.

Lemma of_token_digit c r :
  is_digit c = true -> of_token (c :: r) = unsigned_of_token (c :: r).
Proof.
  destruct c as [[|] [|] [|] [|] [|] [|] [|] [|]]; intros H;
    try discriminate H; reflexivity.
Qed.

Lemma of_token_digits (s t : str) :
  s <> [] -> Forall (fun c => is_digit c = true) s ->
  of_token (s ++ t) = unsigned_of_token (s ++ t).
Proof.
  intros Hne F; destruct s as [|c r]; [contradiction|].
  inversion F as [|? ? Hc _]; subst.
  cbn [app]; apply of_token_digit; exact Hc.
Qed.

Lemma pow10_pos d : (0 < pow10 d)%Z.
Proof. unfold pow10; apply Z.pow_pos_nonneg; lia. Qed.

Lemma pow10_N d : Z.of_N (10 ^ N.of_nat d) = pow10 d.
Proof. unfold pow10; rewrite N2Z.inj_pow, nat_N_Z; reflexivity. Qed.

Lemma unsigned_format d a :
  (0 <= a)%Z ->
  unsigned_of_token (nat_chars (Z.to_nat (a / pow10 d)) ++ frac_text d a)
  = Some (Qmake a (Z.to_pos (pow10 d))).
Proof.
  intros Ha; pose proof (pow10_pos d) as HP.
  assert (Hq : (0 <= a / pow10 d)%Z) by (apply Z.div_pos; lia).
  assert (Hr : (0 <= a mod pow10 d < pow10 d)%Z) by (apply Z.mod_pos_bound; exact HP).
  unfold unsigned_of_token.
  rewrite (cut_point_digits (nat_chars (Z.to_nat (a / pow10 d))) _
             (uint_chars_digits _)).
  pose proof (nat_chars_nonempty (Z.to_nat (a / pow10 d))) as Hne.
  assert (Ev : forall s, digits_value 0 (nat_chars (Z.to_nat (a / pow10 d)) ++ s)
                         = digits_value (Z.to_N (a / pow10 d)) s).
  { intros s; rewrite digits_value_app; unfold nat_chars.
    rewrite digits_value_uint.
    change (Nat.of_uint_acc (Nat.to_uint (Z.to_nat (a / pow10 d))) (N.to_nat 0))
      with (Nat.of_uint (Nat.to_uint (Z.to_nat (a / pow10 d)))).
    rewrite DecimalNat.Unsigned.of_to; f_equal; lia. }
  pose proof (Ev []) as Ev0; rewrite app_nil_r in Ev0; cbn [digits_value] in Ev0.
  clear Ev.
  destruct d as [|d].
  - cbn [frac_text cut_point fst snd]; rewrite app_nil_r.
    revert Ev0 Hne.
    destruct (nat_chars (Z.to_nat (a / pow10 0))) as [|c r]; intros Ev0 Hne;
      [contradiction|].
    rewrite Ev0; cbn [digits_value length].
    f_equal; change (pow10 0) with 1%Z in *.
    rewrite Z.div_1_r in *; f_equal; lia.
  - cbn [frac_text cut_point fst snd].
    change (Ascii.eqb "."%char "."%char) with true; cbv iota; cbn [fst snd].
    rewrite app_nil_r.
    revert Ev0 Hne.
    destruct (nat_chars (Z.to_nat (a / pow10 (S d)))) as [|c r]; intros Ev0 Hne;
      [contradiction|].
    rewrite Ev0, frac_digits_value, frac_digits_length.
    f_equal; f_equal.
    rewrite N.mul_0_l, N.add_0_l, N2Z.inj_mod, pow10_N, !Z2N.id by lia.
    rewrite (Z.mod_small (a mod pow10 (S d))) by exact Hr.
    pose proof (Z.div_mod a (pow10 (S d))); lia.
Qed.

Lemma of_token_format d q :
  of_token (format d q)
  = Some (Qmake (around (q * inject_Z (pow10 d))) (Z.to_pos (pow10 d))).
Proof.
  unfold format; cbv zeta.
  set (m := around (q * inject_Z (pow10 d))).
  fold (frac_text d (Z.abs m)).
  destruct (Z.ltb_spec m 0) as [Hneg|Hpos]; cbn [app].
  - cbn [of_token]; rewrite unsigned_format by lia; cbn [option_map].
    unfold Qopp; cbn [Qnum Qden]; do 2 f_equal; lia.
  - rewrite of_token_digits;
      [| apply nat_chars_nonempty | apply uint_chars_digits].
    rewrite unsigned_format by lia.
    do 2 f_equal; lia.
Qed.

Lemma close_format d q :
  close d q (Qmake (around (q * inject_Z (pow10 d))) (Z.to_pos (pow10 d))).
Proof.
  unfold close; pose proof (pow10_pos d) as HP.
  set (P := Z.to_pos (pow10 d)).
  assert (EP : pow10 d = Z.pos P) by (unfold P; rewrite Z2Pos.id; [reflexivity | exact HP]).
  rewrite EP; set (m := around (q * inject_Z (Z.pos P))).
  pose proof (around_spec (q * inject_Z (Z.pos P))) as A; fold m in A.
  assert (E1 : (q - (m # P) == (q * inject_Z (Z.pos P) - inject_Z m) * (1 # P))%Q).
  { destruct q as [a b]; generalize m; intros z.
    unfold Qeq, Qminus, Qplus, Qmult, Qopp, inject_Z; cbn [Qnum Qden].
    rewrite !Pos2Z.inj_mul; ring. }
  assert (E2 : (1 # 2 * P == (1 # 2) * (1 # P))%Q) by reflexivity.
  rewrite E1, E2, Qabs_Qmult.
  replace (Qabs (1 # P)) with (1 # P)%Q by reflexivity.
  apply Qmult_le_compat_r; [exact A | discriminate].
Qed.

Lemma format_token d q : token (format d q).
Proof.
  unfold format; cbv zeta.
  set (m := around (q * inject_Z (pow10 d))).
  assert (Fn : Forall (fun c => isspace c = false)
                 (nat_chars (Z.to_nat (Z.abs m / pow10 d)))) by apply nat_chars_token.
  assert (Ff : Forall (fun c => isspace c = false)
                 (match d with
                  | O => []
                  | _ => "."%char :: frac_digits d (Z.to_N (Z.abs m mod pow10 d))
                  end)).
  { destruct d; [constructor|]; constructor; [reflexivity|].
    eapply Forall_impl; [|apply frac_digits_digits].
    intros c; apply is_digit_not_space. }
  split.
  - pose proof (nat_chars_nonempty (Z.to_nat (Z.abs m / pow10 d))) as Hne.
    destruct (m <? 0)%Z; cbn [app]; [discriminate|].
    destruct (nat_chars _); [contradiction | discriminate].
  - apply Forall_app; split; [destruct (m <? 0)%Z; repeat constructor|].
    apply Forall_app; split; assumption.
Qed.

#[export] Instance decimal_format : FloatFormat (FM := model) close.
Proof.
  split.
  - apply format_token.
  - intros d v; eexists; split; [apply of_token_format | apply close_format].
Qed.

End DecimalFloatFacts.

(** ** The theorems at concrete files *)

Module Witnesses.

Import DecimalFloat Examples.

Lemma Forall_forallb {B} (p : B -> bool) (P : B -> Prop) (l : list B) :
  (forall x, p x = true -> P x) -> forallb p l = true -> Forall P l.
Proof.
  intros H E; apply Forall_forall; intros x Hx; apply H.
  rewrite forallb_forall in E; apply E; exact Hx.
Defined.

Lemma rows_of_three (l : list (list Q)) :
  forallb (fun r => length r =? 3) l = true ->
  Forall (fun r => length r = 3) l.
Proof.
  apply Forall_forallb; intros x; apply Nat.eqb_eq.
Defined.


Lemma read_LUT_ResolveCube_composite_comments_witness :
  exists a b,
    composite_ops = [Table a; Table b]
    /\ class a = class_LUT3x1D /\ class b = class_LUT3D
    /\ comments a = []
    /\ comments b = file_comments composite_file.
Proof.
  apply (read_LUT_ResolveCube_composite_comments (FM := model) title
           (lit "composite.cube") composite_file composite_ops).
  reflexivity.
Defined.

Lemma read_LUT_ResolveCube_without_size_directive_witness :
  read_LUT_ResolveCube (FM := model) title (lit "rows.cube") no_size_file
  = Raise UnboundLocalError.
Proof.
  apply (read_LUT_ResolveCube_without_size_directive (FM := model) title
           (lit "rows.cube") no_size_file no_size_state no_size_table);
    reflexivity.
Defined.

Lemma read_LUT_SonySPI3D_non_uniform_size_witness :
  read_LUT_SonySPI3D (FM := model) title (lit "bad.spi3d") non_uniform_file
  = Raise (AssertionError msg_non_uniform).
Proof.
  apply (read_LUT_SonySPI3D_non_uniform_size (FM := model) title
           (lit "bad.spi3d") non_uniform_file
           [lit "SPILUT 1.0"; lit "3 3"] [lit "0 0 0 0.0 0.0 0.0"]
           (lit "3 4 5") (lit "3") (lit "4") (lit "5")).
  - reflexivity.
  - reflexivity.
  - reflexivity.
  - intros [E _]; discriminate E.
  - repeat (apply Forall_cons;
              [right; split; apply Nat.eqb_neq; reflexivity|]).
    apply Forall_nil.
Defined.

Lemma resolve_cube_index_order_witness :
  exists l,
    read_LUT_ResolveCube (FM := model) title (lit "cube4.cube") cube4_file
    = Ok (Single (Table l))
    /\ grid_point (table l) 0 0 1 = [(160 # 10)%Q; (160 # 10)%Q; (160 # 10)%Q]
    /\ nth 1 cube4_values [] = [(10 # 10)%Q; (10 # 10)%Q; (10 # 10)%Q].
Proof.
  destruct (proj1 (resolve_cube_index_order (FM := model) title unity unity
                     [] [])
              (lit "cube4.cube") cube4_file cube4_state cube4_values 4)
    as (l & E & _ & _ & _ & H16);
    try reflexivity.
  - apply rows_of_three; reflexivity.
  - exists l; split; [exact E|].
    split; [rewrite (H16 eq_refl)|]; reflexivity.
Defined.

Lemma plain_lut_wf : wf_LUT3D plain_lut 2.
Proof. repeat split. Defined.

Lemma plain_comments : Forall plain_comment (comments plain_lut).
Proof.
  repeat (apply Forall_cons;
            [split; [reflexivity|];
             repeat (apply Forall_cons; [split; discriminate|]);
             apply Forall_nil|]).
  apply Forall_nil.
Defined.

Lemma write_read_LUT_SonySPI3D_witness :
  exists text l',
    write_LUT_SonySPI3D (FM := model) no_repr (Single (Table plain_lut)) 7
    = mk_outcome [] (Some text) (Ok true)
    /\ read_LUT_SonySPI3D title (lit "plain.spi3d") text = Ok l'
    /\ shape (table l') = shape (table plain_lut)
    /\ Forall2 (close 7) (data (table plain_lut)) (data (table l'))
    /\ comments l' = comments plain_lut.
Proof.
  apply (write_read_LUT_SonySPI3D (FM := model) title no_repr close
           (FF := DecimalFloatFacts.decimal_format) plain_lut 2 7
           (lit "plain.spi3d")).
  - exact plain_lut_wf.
  - split; [apply le_n | apply Nat.leb_le; reflexivity].
  - reflexivity.
  - exact plain_comments.
Defined.

(** A comment that starts with a space is not read back as it was
    written: [padded_lut] is a cubic table with the default domain, its
    file is written, and the table read back from that file carries the
    comment without the space. *)
Lemma write_read_LUT_SonySPI3D_padded_comment :
  wf_LUT3D padded_lut 2
  /\ float_array_equal (domain padded_lut) default_domain = true
  /\ write_LUT_SonySPI3D (FM := model) no_repr (Single (Table padded_lut)) 7
     = mk_outcome [] (Some padded_text) (Ok true)
  /\ exists l',
       read_LUT_SonySPI3D (FM := model) title (lit "padded.spi3d") padded_text
       = Ok l'
       /\ comments l' = [lit "padded"]
       /\ comments l' <> comments padded_lut.
Proof.
  split; [repeat split|].
  split; [reflexivity|].
  split; [reflexivity|].
  assert (H : match read_LUT_SonySPI3D (FM := model) title
                      (lit "padded.spi3d") padded_text with
              | Ok l => Some (comments l)
              | Raise _ => None
              end = Some [lit "padded"]) by (vm_compute; reflexivity).
  destruct (read_LUT_SonySPI3D (FM := model) title (lit "padded.spi3d")
              padded_text) as [l'|e]; [|discriminate H].
  injection H as H.
  exists l'; split; [reflexivity|].
  split; [exact H|].
  rewrite H; intros E; discriminate E.
Qed.

Lemma read_LUT_SonySPI3D_no_data_rows_witness :
  read_LUT_SonySPI3D (FM := model) title (lit "empty.spi3d") no_rows_file
  = Raise IndexError.
Proof.
  apply (read_LUT_SonySPI3D_no_data_rows (FM := model) title
           (lit "empty.spi3d") no_rows_file no_rows_state);
    reflexivity.
Defined.

Lemma write_LUT_ResolveCube_validation_witness :
  let j := mk_cube_job (lit "plain") false true
             (LUT3x1D (FM := model) unity [] None []) plain_lut in
  (cube_violation j ->
   exists msg,
     write_LUT_ResolveCube unity unity [] [] (Single (Table plain_lut)) 7
     = mk_outcome [] None (Raise (AssertionError msg)))
  /\ (~ cube_violation j ->
      (has_3x1D j = true -> exists n, wf_LUT3x1D (shaper j) n) ->
      (has_3D j = true -> exists n, wf_LUT3D (cube j) n) ->
      exists text,
        write_LUT_ResolveCube unity unity [] [] (Single (Table plain_lut)) 7
        = mk_outcome [] (Some text) (Ok true)).
Proof.
  apply (write_LUT_ResolveCube_validation (FM := model) unity unity [] []
           (Single (Table plain_lut)) 7).
  reflexivity.
Defined.

Lemma write_LUT_SonySPI3D_sequence_witness :
  exists w,
    warnings (write_LUT_SonySPI3D (FM := model) no_repr
                (LUTSequence [Table plain_lut; Table padded_lut]) 7) = [w].
Proof.
  exact (proj1 (write_LUT_SonySPI3D_sequence (FM := model) no_repr plain_lut
                  [Table padded_lut] 7)).
Defined.

End Witnesses.

(** * Further properties of the codecs and of the dispatch layer *)

(** ** Dispatch *)

Section DispatchMore.

Variable V : Type.
Variable splitext_ext : str -> str.
Variable read_function : codec -> str -> result V.

(** A key that no key of the mapping equals, case aside, is missing. *)
Lemma getitem_missing {B} (mapping : list (str * B)) (key : str) :
  ~ In (lower key) (map (fun kv => lower (fst kv)) mapping) ->
  getitem mapping key = Raise KeyError.
Proof.
  induction mapping as [|[k v] mapping IH]; intros H; cbn [getitem];
    [reflexivity|].
  rewrite str_eqb_neq.
  - apply IH; intros I; apply H; right; exact I.
  - intros E; apply H; left; exact E.
Qed.

(** X1. The format mapped to the extension is looked up before the method
    argument is considered: for a path whose extension is not one of the
    five registered ones, [read_LUT] raises a key error whatever the method,
    also an explicit and valid one, and no codec is called. *)
Theorem read_LUT_unknown_extension (path : str) (method : option str) :
  ~ In (lower (splitext_ext path))
       [lit ".cube"; lit ".spi1d"; lit ".spi3d"; lit ".spimtx"; lit ".csp"] ->
  read_LUT splitext_ext read_function path method = ([], Raise KeyError).
Proof.
  intros H; unfold read_LUT, resolve_method.
  rewrite getitem_missing; [reflexivity | exact H].
Qed.

(** X2. Only a value error is intercepted: when the codec selected for the
    path returns a value, or raises any exception other than a value error,
    [read_LUT] has called that codec once and returns or raises the same,
    for every method, the Iridas one included. *)
Theorem read_LUT_single_call (path : str) (method : option str) (m : str)
    (c : codec) :
  resolve_method splitext_ext path method = Ok m ->
  getitem LUT_READ_METHODS m = Ok c ->
  read_function c path <> Raise ValueError ->
  read_LUT splitext_ext read_function path method
  = ([c], read_function c path).
Proof.
  intros Hm Hc Hr; unfold read_LUT; rewrite Hm, Hc.
  destruct (read_function c path) as [v|e]; [reflexivity|].
  destruct e; try reflexivity; contradiction Hr; reflexivity.
Qed.

(** X3. Every format named by the extension mapping is a registered
    reading method: with no method given and a registered extension,
    [read_LUT] always reaches a codec, the one registered under the format
    of the extension, and calls it first. *)
Theorem read_LUT_by_extension (path : str) (ext format : str) :
  In (ext, format) EXTENSION_TO_LUT_FORMAT_MAPPING ->
  lower (splitext_ext path) = ext ->
  exists c rest,
    getitem LUT_READ_METHODS format = Ok c
    /\ fst (read_LUT splitext_ext read_function path None) = c :: rest.
Proof.
  intros I E.
  assert (G : getitem EXTENSION_TO_LUT_FORMAT_MAPPING (splitext_ext path)
              = Ok format
              /\ exists c, getitem LUT_READ_METHODS format = Ok c
                           /\ validate_method format LUT_READ_METHODS
                              = Ok (lower format)
                           /\ getitem LUT_READ_METHODS (lower format) = Ok c).
  { cbn [In EXTENSION_TO_LUT_FORMAT_MAPPING] in I.
    destruct I as [I|[I|[I|[I|[I|[]]]]]]; injection I as <- <-;
      (split; [cbn [getitem EXTENSION_TO_LUT_FORMAT_MAPPING]; rewrite E;
               reflexivity
              | eexists; repeat split; reflexivity]). }
  destruct G as (G1 & c & G2 & G3 & G4).
  exists c; unfold read_LUT, resolve_method.
  rewrite G1; cbn [bind]; rewrite G3, G4.
  destruct (read_function c path) as [v|e].
  - exists []; split; [exact G2 | reflexivity].
  - destruct e; try (exists []; split; [exact G2 | reflexivity]).
    destruct (str_eqb (lower format) (lit "iridas cube")).
    + destruct (getitem LUT_READ_METHODS (lit "Resolve Cube"));
        eexists; (split; [exact G2 | reflexivity]).
    + exists []; split; [exact G2 | reflexivity].
Qed.

End DispatchMore.

Section DispatchWriteFacts.

Context {FM : FloatModel}.
Variable splitext_ext : str -> str.
Variable write_function : codec -> LUT_value -> str -> nat -> outcome.

(** X4. [write_LUT] calls one codec, once, and returns its outcome as it
    is: no exception of a codec is intercepted.  When the method settled
    by the extension or given explicitly is "Iridas Cube", a sequence is
    written by the Resolve codec and any other value by the Iridas codec;
    for every other method the codec registered under the method is
    called, for a sequence as for a single value. *)
Theorem write_LUT_dispatch (L : LUT_value) (path : str) (d : nat)
    (method : option str) (by_extension m : str) :
  getitem EXTENSION_TO_LUT_FORMAT_MAPPING (splitext_ext path)
  = Ok by_extension ->
  validate_method (match method with Some m => m | None => by_extension end)
                  LUT_WRITE_METHODS = Ok m ->
  (m = lit "iridas cube" ->
   write_LUT splitext_ext write_function L path d method
   = if is_LUTSequence L
     then ([ResolveCube], write_function ResolveCube L path d)
     else ([IridasCube], write_function IridasCube L path d))
  /\ (m <> lit "iridas cube" ->
      forall c, getitem LUT_WRITE_METHODS m = Ok c ->
                write_LUT splitext_ext write_function L path d method
                = ([c], write_function c L path d)).
Proof.
  intros G Hv; unfold write_LUT, write_method.
  rewrite G; cbn [bind]; rewrite Hv; cbn [bind]; split.
  - intros ->; destruct L; reflexivity.
  - intros Hn c Hc.
    rewrite (str_eqb_neq _ _ Hn); cbn [andb]; rewrite Hc; reflexivity.
Qed.

(** X5. As in [read_LUT], the extension is looked up first: for a path
    whose extension is not registered [write_LUT] raises a key error
    whatever the method, and no codec is called, so nothing is written. *)
Theorem write_LUT_unknown_extension (L : LUT_value) (path : str) (d : nat)
    (method : option str) :
  ~ In (lower (splitext_ext path))
       [lit ".cube"; lit ".spi1d"; lit ".spi3d"; lit ".spimtx"; lit ".csp"] ->
  write_LUT splitext_ext write_function L path d method
  = ([], mk_outcome [] None (Raise KeyError)).
Proof.
  intros H; unfold write_LUT, write_method.
  rewrite getitem_missing; [reflexivity | exact H].
Qed.

End DispatchWriteFacts.

(** ** The reading loop of the Sony codec, line by line *)

Lemma mapM_app_inv {B C} (f : B -> result C) l1 : forall l2 r,
  mapM f (l1 ++ l2) = Ok r ->
  exists r1 r2, mapM f l1 = Ok r1 /\ mapM f l2 = Ok r2 /\ r = r1 ++ r2.
Proof.
  induction l1 as [|x l1 IH]; intros l2 r; cbn [app mapM].
  - intros E; exists [], r; repeat split; exact E.
  - intros E; apply bind_Ok in E as (y & Ey & E).
    apply bind_Ok in E as (ys & Eys & E); injection E as <-.
    destruct (IH _ _ Eys) as (r1 & r2 & E1 & E2 & ->).
    exists (y :: r1), r2; rewrite Ey, E1; cbn [bind]; repeat split; exact E2.
Qed.

Lemma last_cons {B} (x : B) l d : last (x :: l) d = last l x.
Proof.
  revert x d; induction l as [|y l IH]; intros x d; [reflexivity|].
  change (last (x :: y :: l) d) with (last (y :: l) d).
  rewrite (IH y d), (IH y x); reflexivity.
Qed.

(** ** Sorted rows are unique *)

Lemma lex_cmp_refl (a : list Z) : lex_cmp a a = Eq.
Proof.
  induction a as [|x a IH]; [reflexivity|].
  cbn [lex_cmp]; rewrite Z.compare_refl; exact IH.
Qed.

Lemma sorted_head_le (ks : list (list Z)) : forall k,
  Sorted lex_le (k :: ks) ->
  Forall (fun r => length r = 3) (k :: ks) ->
  Forall (lex_le k) ks.
Proof.
  induction ks as [|c ks IH]; intros k S F; [constructor|].
  inversion S as [|? ? S' Hd]; subst.
  inversion Hd as [|? ? Hkc]; subst.
  inversion F as [|? ? Lk F']; subst.
  inversion F' as [|? ? Lc F'']; subst.
  constructor; [exact Hkc|].
  specialize (IH c S' F').
  rewrite Forall_forall in IH, F''; apply Forall_forall; intros y Hy.
  apply (lex_cmp_three_trans k c y); auto.
Qed.

(** A list whose keys are strictly increasing is the only sorted
    arrangement of its elements. *)
Lemma sorted_perm_unique {B} (key : B -> list Z) (l1 : list B) : forall l2,
  Forall (fun r => length r = 3) (map key l1) ->
  StronglySorted (fun a b => lex_cmp a b = Lt) (map key l1) ->
  Permutation l1 l2 ->
  Sorted lex_le (map key l2) ->
  l2 = l1.
Proof.
  induction l1 as [|a l1 IH]; intros l2 F SS P S.
  - apply Permutation_nil in P; exact P.
  - destruct l2 as [|b l2].
    { apply Permutation_sym, Permutation_nil in P; discriminate P. }
    assert (F2 : Forall (fun r => length r = 3) (map key (b :: l2))).
    { apply Forall_forall; intros r Hr; apply in_map_iff in Hr as (x & <- & Hx).
      rewrite Forall_forall in F; apply F, in_map.
      eapply Permutation_in; [apply Permutation_sym; exact P | exact Hx]. }
    cbn [map] in F, SS, S, F2.
    pose proof (sorted_head_le _ _ S F2) as Hb.
    inversion SS as [|? ? SS' Ha]; subst.
    assert (Ia : In a (b :: l2)) by (eapply Permutation_in; [exact P | left; reflexivity]).
    assert (Ib : In b (a :: l1))
      by (eapply Permutation_in; [apply Permutation_sym; exact P | left; reflexivity]).
    assert (E : b = a).
    { destruct Ia as [E|Ia]; [exact E|].
      destruct Ib as [E|Ib]; [symmetry; exact E|].
      exfalso.
      rewrite Forall_forall in Hb, Ha.
      specialize (Hb (key a) (in_map key _ _ Ia)).
      specialize (Ha (key b) (in_map key _ _ Ib)).
      unfold lex_le in Hb; rewrite lex_cmp_antisym, Ha in Hb.
      apply Hb; reflexivity. }
    subst b; f_equal.
    apply IH.
    + inversion F; assumption.
    + exact SS'.
    + eapply Permutation_cons_inv; exact P.
    + inversion S; assumption.
Qed.

Lemma StronglySorted_nth {B} (R : B -> B -> Prop) (d : B) (l : list B) :
  (forall i j, i < j -> j < length l -> R (nth i l d) (nth j l d)) ->
  StronglySorted R l.
Proof.
  induction l as [|x l IH]; intros H; constructor.
  - apply IH; intros i j Hij Hj.
    apply (H (S i) (S j)); cbn [length]; lia.
  - apply Forall_forall; intros y Hy.
    apply (In_nth _ _ d) in Hy as (j & Hj & <-).
    apply (H 0 (S j)); cbn [length]; lia.
Qed.

Lemma grid_lt n p q :
  p < q -> q < n * n * n ->
  lex_cmp (nth p (grid n) []) (nth q (grid n) []) = Lt.
Proof.
  intros Hpq Hq.
  rewrite !nth_grid by lia.
  destruct (grid_position n p) as (E & Hb & Hc); [lia|].
  destruct (grid_position n q) as (E' & Hb' & Hc'); [lia|].
  rewrite (lex_cmp_encode n) by assumption.
  rewrite <- E, <- E'; apply Nat.compare_lt_iff; exact Hpq.
Qed.

Lemma grid_strongly_sorted n :
  StronglySorted (fun a b => lex_cmp a b = Lt) (grid n).
Proof.
  apply (StronglySorted_nth _ []); intros i j Hij Hj.
  rewrite grid_length in Hj; apply grid_lt; assumption.
Qed.

Lemma mapM_perm {B C} (f : B -> result C) (l1 l2 : list B) :
  Permutation l1 l2 ->
  forall r1, mapM f l1 = Ok r1 ->
  exists r2, mapM f l2 = Ok r2 /\ Permutation r1 r2.
Proof.
  induction 1 as [|x l1 l2 P IH|x y l|l1 l2 l3 P1 IH1 P2 IH2]; intros r1 E.
  - exists r1; split; [exact E | reflexivity].
  - cbn [mapM] in *; apply bind_Ok in E as (y & Ey & E).
    apply bind_Ok in E as (ys & Eys & E); injection E as <-.
    destruct (IH _ Eys) as (r2 & E2 & P2).
    exists (y :: r2); rewrite Ey, E2; split; [reflexivity|].
    apply perm_skip; exact P2.
  - cbn [mapM] in *; apply bind_Ok in E as (b & Eb & E).
    apply bind_Ok in E as (bs & Ebs & E); injection E as <-.
    apply bind_Ok in Ebs as (a & Ea & E).
    apply bind_Ok in E as (r & Er & E); injection E as <-.
    exists (a :: b :: r); rewrite Ea, Eb, Er; split; [reflexivity|].
    apply perm_swap.
  - destruct (IH1 _ E) as (r2 & E2 & Q1).
    destruct (IH2 _ E2) as (r3 & E3 & Q2).
    exists r3; split; [exact E3 | eapply perm_trans; eassumption].
Qed.

Lemma mapM_Forall {B C} (f : B -> result C) (P : C -> Prop) l : forall r,
  (forall x y, In x l -> f x = Ok y -> P y) ->
  mapM f l = Ok r -> Forall P r.
Proof.
  induction l as [|x l IH]; intros r H E; cbn [mapM] in E.
  - injection E as <-; constructor.
  - apply bind_Ok in E as (y & Ey & E).
    apply bind_Ok in E as (ys & Eys & E); injection E as <-.
    constructor.
    + apply (H x); [left; reflexivity | exact Ey].
    + apply IH; [|exact Eys].
      intros x' y' Hx; apply H; right; exact Hx.
Qed.

Lemma filter_filter_sub {B} (p q : B -> bool) (l : list B) :
  (forall x, p x = true -> q x = true) ->
  filter p (filter q l) = filter p l.
Proof.
  intros H; induction l as [|x l IH]; [reflexivity|]; cbn [filter].
  destruct (q x) eqn:Eq; cbn [filter].
  - rewrite IH; reflexivity.
  - destruct (p x) eqn:Ep; [|exact IH].
    rewrite (H x Ep) in Eq; discriminate Eq.
Qed.

Lemma concat_uniform_inj {B} w (a b : list (list B)) :
  Forall (fun r => length r = w) a ->
  Forall (fun r => length r = w) b ->
  length a = length b ->
  concat a = concat b -> a = b.
Proof.
  intros Fa Fb L E.
  rewrite <- (rows_of_concat _ (length a) w a Fa eq_refl).
  rewrite <- (rows_of_concat _ (length a) w b Fb (eq_sym L)).
  rewrite E; reflexivity.
Qed.

Section SonyReaderFacts.

Context {FM : FloatModel}.
Variable path_to_title : str -> str.

Lemma spi3d_line_effect st line :
  spi3d_line st line
  = if startswith line (lit "#") then
      Ok (mk_spi3d_state (sp_size st) (sp_data_table st) (sp_data_indexes st)
            (sp_comments st ++ [strip (tl line)]))
    else if length (split line) =? 3 then
      bind (spi3d_size line) (fun n =>
        Ok (mk_spi3d_state n (sp_data_table st) (sp_data_indexes st)
              (sp_comments st)))
    else if length (split line) =? 6 then
      bind (spi3d_item line) (fun it =>
        Ok (mk_spi3d_state (sp_size st) (sp_data_table st ++ [snd it])
              (sp_data_indexes st ++ [fst it]) (sp_comments st)))
    else Ok st.
Proof.
  unfold spi3d_line, spi3d_size, spi3d_item, msg_non_uniform.
  destruct (startswith line (lit "#")); [reflexivity|].
  destruct (Nat.eqb_spec (length (split line)) 3) as [E3|N3].
  - rewrite E3; cbn [Nat.eqb].
    destruct (attest _ _); cbn [bind]; [|reflexivity].
    destruct (as_int_scalar _); reflexivity.
  - cbn [bind].
    destruct (length (split line) =? 6); [|reflexivity].
    destruct (as_float_tokens _); cbn [bind]; [|reflexivity].
    destruct (as_int_array _); reflexivity.
Qed.

(** The state after the loop, when the loop ends: the size of the last
    size line, the rows of the data lines and the comments of the comment
    lines, each in file order. *)
Lemma spi3d_lines_summary lines : forall st st',
  spi3d_lines st lines = Ok st' ->
  exists sizes items,
    mapM spi3d_size (size_lines lines) = Ok sizes
    /\ mapM spi3d_item (data_lines lines) = Ok items
    /\ st' = mk_spi3d_state (last sizes (sp_size st))
               (sp_data_table st ++ map snd items)
               (sp_data_indexes st ++ map fst items)
               (sp_comments st
                ++ map (fun l => strip (tl l)) (comment_lines lines)).
Proof.
  induction lines as [|line lines IH]; intros st st'; cbn [spi3d_lines].
  - intros E; injection E as <-; exists [], []; cbn.
    rewrite !app_nil_r; destruct st; repeat split.
  - intros E; apply bind_Ok in E as (st1 & E1 & E).
    destruct (IH _ _ E) as (sizes & items & Hs & Hi & ->); clear IH E.
    rewrite spi3d_line_effect in E1.
    unfold size_lines, data_lines, comment_lines; cbn [filter].
    fold (size_lines lines); fold (data_lines lines);
      fold (comment_lines lines).
    destruct (startswith line (lit "#")); cbn [negb andb].
    { injection E1 as <-; exists sizes, items; cbn [sp_size sp_data_table
        sp_data_indexes sp_comments map].
      rewrite <- app_assoc; repeat split; assumption. }
    destruct (Nat.eqb_spec (length (split line)) 3) as [E3|N3].
    { rewrite E3; cbn [Nat.eqb].
      apply bind_Ok in E1 as (n & En & E1); injection E1 as <-.
      exists (n :: sizes), items; cbn [mapM].
      rewrite En, Hs; cbn [bind sp_size sp_data_table sp_data_indexes
                             sp_comments].
      rewrite last_cons; repeat split; assumption. }
    destruct (length (split line) =? 6).
    { apply bind_Ok in E1 as (it & Ei & E1); injection E1 as <-.
      exists sizes, (it :: items); cbn [mapM].
      rewrite Ei, Hi; cbn [bind sp_size sp_data_table sp_data_indexes
                             sp_comments map].
      rewrite <- !app_assoc; repeat split; assumption. }
    injection E1 as <-; exists sizes, items; repeat split; assumption.
Qed.

(** Conversely the loop ends when every size line and every data line is
    accepted. *)
Lemma spi3d_lines_build lines : forall st sizes items,
  mapM spi3d_size (size_lines lines) = Ok sizes ->
  mapM spi3d_item (data_lines lines) = Ok items ->
  spi3d_lines st lines
  = Ok (mk_spi3d_state (last sizes (sp_size st))
          (sp_data_table st ++ map snd items)
          (sp_data_indexes st ++ map fst items)
          (sp_comments st
           ++ map (fun l => strip (tl l)) (comment_lines lines))).
Proof.
  induction lines as [|line lines IH]; intros st sizes items;
    cbn [spi3d_lines].
  - cbn; intros E1 E2; injection E1 as <-; injection E2 as <-; cbn.
    rewrite !app_nil_r; destruct st; reflexivity.
  - rewrite spi3d_line_effect.
    unfold size_lines, data_lines, comment_lines; cbn [filter].
    fold (size_lines lines); fold (data_lines lines);
      fold (comment_lines lines).
    destruct (startswith line (lit "#")); cbn [negb andb].
    { intros Hs Hi; cbn [bind]; rewrite (IH _ _ _ Hs Hi).
      cbn [sp_size sp_data_table sp_data_indexes sp_comments map].
      rewrite <- app_assoc; reflexivity. }
    destruct (Nat.eqb_spec (length (split line)) 3) as [E3|N3].
    { rewrite E3; cbn [Nat.eqb mapM].
      intros Hs Hi; apply bind_Ok in Hs as (n & En & Hs).
      apply bind_Ok in Hs as (ns & Hs & Hn); injection Hn as <-.
      rewrite En; cbn [bind]; rewrite (IH _ _ _ Hs Hi).
      cbn [sp_size sp_data_table sp_data_indexes sp_comments].
      rewrite last_cons; reflexivity. }
    destruct (length (split line) =? 6).
    { cbn [mapM]; intros Hs Hi; apply bind_Ok in Hi as (it & Ei & Hi).
      apply bind_Ok in Hi as (its & Hi & Hn); injection Hn as <-.
      rewrite Ei; cbn [bind]; rewrite (IH _ _ _ Hs Hi).
      cbn [sp_size sp_data_table sp_data_indexes sp_comments map].
      rewrite <- !app_assoc; reflexivity. }
    intros Hs Hi; cbn [bind]; apply IH; assumption.
Qed.

Lemma spi3d_lines_relevant lines : forall st,
  spi3d_lines st (filter spi3d_relevant lines) = spi3d_lines st lines.
Proof.
  induction lines as [|line lines IH]; intros st; [reflexivity|].
  cbn [filter spi3d_lines]; rewrite (spi3d_line_effect st line).
  unfold spi3d_relevant.
  destruct (startswith line (lit "#")) eqn:Es; cbn [orb].
  { cbn [spi3d_lines]; rewrite spi3d_line_effect, Es; cbn [bind]; apply IH. }
  destruct (length (split line) =? 3) eqn:E3; cbn [orb].
  { cbn [spi3d_lines]; rewrite spi3d_line_effect, Es, E3.
    destruct (spi3d_size line); cbn [bind]; [apply IH | reflexivity]. }
  destruct (length (split line) =? 6) eqn:E6.
  { cbn [spi3d_lines]; rewrite spi3d_line_effect, Es, E3, E6.
    destruct (spi3d_item line); cbn [bind]; [apply IH | reflexivity]. }
  cbn [bind]; apply IH.
Qed.

(** X6. The Sony reader acts only on comments and on lines of three or of
    six tokens: two files whose lines of these kinds are the same, in the
    same order, are read alike, to the same table or the same exception.
    In particular the header lines are never checked. *)
Theorem read_LUT_SonySPI3D_ignores_other_lines (path text1 text2 : str) :
  filter spi3d_relevant (stripped_lines text1)
  = filter spi3d_relevant (stripped_lines text2) ->
  read_LUT_SonySPI3D path_to_title path text1
  = read_LUT_SonySPI3D path_to_title path text2.
Proof.
  intros E; unfold read_LUT_SonySPI3D.
  rewrite <- (spi3d_lines_relevant (stripped_lines text1)), E,
    spi3d_lines_relevant; reflexivity.
Qed.

Lemma spi3d_item_shape line it :
  length (split line) = 6 -> spi3d_item line = Ok it -> row_item it.
Proof.
  intros L E; unfold spi3d_item in E.
  apply bind_Ok in E as (v & Ev & E).
  apply bind_Ok in E as (i & Ei & E); injection E as <-.
  split; cbn [fst snd].
  - rewrite (as_int_array_length _ _ Ei), length_firstn, L; reflexivity.
  - rewrite (as_float_tokens_length _ _ Ev), length_skipn, L; reflexivity.
Qed.

Lemma data_lines_items lines items :
  mapM spi3d_item (data_lines lines) = Ok items -> Forall row_item items.
Proof.
  apply mapM_Forall; intros line it Hl.
  unfold data_lines in Hl; apply filter_In in Hl as (_ & Hl).
  apply andb_prop in Hl as (_ & Hl); apply Nat.eqb_eq in Hl.
  apply spi3d_item_shape; exact Hl.
Qed.

Lemma sorted_items_fst items :
  map fst (sorted_items items) = sorted_indexes (map fst items).
Proof.
  unfold sorted_items, sorted_indexes; rewrite map_map.
  apply map_ext; intros p.
  symmetry; apply (map_nth fst items ([], [])).
Qed.

Lemma sorted_items_snd items :
  map snd (sorted_items items)
  = map (fun p => nth p (map snd items) [])
        (lexsort [map (fun r => nth 2 r 0%Z) (map fst items);
                  map (fun r => nth 1 r 0%Z) (map fst items);
                  map (fun r => nth 0 r 0%Z) (map fst items)]).
Proof.
  unfold sorted_items; rewrite map_map.
  apply map_ext; intros p.
  symmetry; apply (map_nth snd items ([], [])).
Qed.

Lemma sorted_items_perm items : Permutation (sorted_items items) items.
Proof.
  unfold sorted_items.
  rewrite (Permutation_map _ (lexsort_rows_perm (map fst items))).
  rewrite length_map, map_nth_seq; reflexivity.
Qed.

Lemma sorted_items_rows items :
  Forall row_item items ->
  Forall (fun r => length r = 3) (map fst (sorted_items items))
  /\ Forall (fun r => length r = 3) (map snd (sorted_items items))
  /\ length (sorted_items items) = length items.
Proof.
  intros F.
  assert (F' : Forall row_item (sorted_items items)).
  { apply Forall_forall; intros it Hit.
    rewrite Forall_forall in F; apply F.
    eapply Permutation_in; [apply sorted_items_perm | exact Hit]. }
  repeat split.
  - apply Forall_forall; intros r Hr; apply in_map_iff in Hr as (it & <- & Hit).
    rewrite Forall_forall in F'; apply (F' it Hit).
  - apply Forall_forall; intros r Hr; apply in_map_iff in Hr as (it & <- & Hit).
    rewrite Forall_forall in F'; apply (F' it Hit).
  - apply Permutation_length, sorted_items_perm.
Qed.

Lemma items_rows_ok sz items cs :
  Forall row_item items ->
  spi3d_rows_ok (mk_spi3d_state sz (map snd items) (map fst items) cs).
Proof.
  intros F; unfold spi3d_rows_ok; cbn [sp_data_indexes sp_data_table].
  rewrite !length_map; repeat split.
  - apply Forall_forall; intros r Hr; apply in_map_iff in Hr as (it & <- & Hit).
    rewrite Forall_forall in F; apply (F it Hit).
  - apply Forall_forall; intros r Hr; apply in_map_iff in Hr as (it & <- & Hit).
    rewrite Forall_forall in F; apply (F it Hit).
Qed.

(** The second part of the reader in terms of the sorted rows. *)
Lemma spi3d_finish_items title sz items cs :
  Forall row_item items ->
  items <> [] ->
  spi3d_finish title (mk_spi3d_state sz (map snd items) (map fst items) cs)
  = bind (expected_indexes sz) (fun expected =>
    bind (attest (array_equal Z.eqb
                    (mk_ndarray [length items; 3]
                       (concat (map fst (sorted_items items))))
                    expected) msg_indexes) (fun _ =>
    bind (shape_cube sz) (fun sh =>
    bind (reshape_C sh
            (mk_ndarray [length items; 3]
               (concat (map snd (sorted_items items)))))
         (fun table => Ok (LUT3D table title (Some default_domain) cs))))).
Proof.
  intros F Hne.
  rewrite spi3d_finish_spec.
  - cbn [sp_size sp_data_table sp_data_indexes sp_comments].
    rewrite sorted_items_fst, sorted_items_snd, !length_map; reflexivity.
  - apply items_rows_ok; exact F.
  - cbn [sp_data_indexes]; destruct items; [contradiction | discriminate].
Qed.

Lemma spi3d_finish_Ok title sz items cs l :
  Forall row_item items ->
  spi3d_finish title (mk_spi3d_state sz (map snd items) (map fst items) cs)
  = Ok l ->
  exists n,
    sz = Z.of_nat n /\ 1 <= n /\ length items = n * n * n
    /\ map fst (sorted_items items) = grid n
    /\ l = LUT3D (mk_ndarray [n; n; n; 3]
                    (concat (map snd (sorted_items items))))
              title (Some default_domain) cs.
Proof.
  intros F E.
  destruct items as [|it0 items0] eqn:Ei.
  { rewrite spi3d_finish_no_rows in E by reflexivity; discriminate E. }
  rewrite <- Ei in *.
  assert (Hne : items <> []) by (rewrite Ei; discriminate).
  clear Ei it0 items0.
  rewrite (spi3d_finish_items _ _ _ _ F Hne) in E.
  apply bind_Ok in E as (expected & Ee & E).
  apply bind_Ok in E as (u & Ea & E).
  apply bind_Ok in E as (sh & Es & E).
  apply bind_Ok in E as (t & Er & E); injection E as <-.
  apply attest_Ok, array_equal_Z in Ea.
  unfold shape_cube in Es.
  destruct (Z.ltb_spec sz 0) as [|Hsz]; [discriminate Es|].
  injection Es as <-.
  set (n := Z.to_nat sz) in *.
  assert (Hz : sz = Z.of_nat n) by (unfold n; rewrite Z2Nat.id; [reflexivity | exact Hsz]).
  rewrite Hz, expected_indexes_grid in Ee; injection Ee as <-.
  injection Ea as Hl Hc.
  destruct (sorted_items_rows items F) as (F1 & F2 & L).
  unfold reshape_C in Er; cbn [data] in Er.
  destruct (Nat.eqb _ _); [|discriminate Er]; injection Er as <-.
  exists n; repeat split; try assumption.
  - destruct n; [|lia].
    destruct items; [contradiction | discriminate Hl].
  - apply (concat_uniform_inj 3); [exact F1 | apply grid_rows | | exact Hc].
    rewrite length_map, L, grid_length; exact Hl.
Qed.

Lemma spi3d_finish_grid title n items cs :
  Forall row_item items ->
  1 <= n ->
  map fst (sorted_items items) = grid n ->
  spi3d_finish title
    (mk_spi3d_state (Z.of_nat n) (map snd items) (map fst items) cs)
  = Ok (LUT3D (mk_ndarray [n; n; n; 3]
                 (concat (map snd (sorted_items items))))
          title (Some default_domain) cs).
Proof.
  intros F Hn G.
  destruct (sorted_items_rows items F) as (F1 & F2 & L).
  assert (Hl : length items = n * n * n).
  { rewrite <- L, <- (length_map fst), G; apply grid_length. }
  assert (Hne : items <> []).
  { intros ->; cbn [length] in Hl; nia. }
  rewrite (spi3d_finish_items _ _ _ _ F Hne).
  rewrite expected_indexes_grid; cbn [bind].
  rewrite G, Hl.
  rewrite (proj2 (array_equal_Z _ _) eq_refl); cbn [attest bind].
  rewrite shape_cube_nat; cbn [bind].
  unfold reshape_C; cbn [data prod_shape fold_right].
  rewrite (length_concat_uniform _ 3 _ F2), length_map, L, Hl.
  rewrite (proj2 (Nat.eqb_eq _ _)) by lia.
  reflexivity.
Qed.

(** What a successful run of the loop leaves, from the initial state. *)
Lemma spi3d_read_summary text st :
  spi3d_lines spi3d_initial (stripped_lines text) = Ok st ->
  exists sizes items,
    mapM spi3d_size (size_lines (stripped_lines text)) = Ok sizes
    /\ mapM spi3d_item (data_lines (stripped_lines text)) = Ok items
    /\ Forall row_item items
    /\ st = mk_spi3d_state (last sizes 2%Z) (map snd items) (map fst items)
              (map (fun l => strip (tl l))
                   (comment_lines (stripped_lines text))).
Proof.
  intros E; destruct (spi3d_lines_summary _ _ _ E) as (sizes & items & Hs & Hi & ->).
  exists sizes, items; repeat split; try assumption.
  eapply data_lines_items; exact Hi.
Qed.

Lemma comment_lines_stripped text :
  map (fun l => strip (tl l)) (comment_lines (stripped_lines text))
  = file_comments text.
Proof.
  unfold comment_lines, stripped_lines, file_comments.
  rewrite filter_filter_sub; [reflexivity|].
  intros [|c x] H; [discriminate H | reflexivity].
Qed.

(** Where the values of a row stand in the table built from the sorted
    rows: at the grid point that the index of the row names. *)
Lemma sorted_items_grid_point n items it :
  Forall row_item items ->
  map fst (sorted_items items) = grid n ->
  In it items ->
  exists i j k,
    i < n /\ j < n /\ k < n
    /\ fst it = [Z.of_nat i; Z.of_nat j; Z.of_nat k]
    /\ grid_point (mk_ndarray [n; n; n; 3]
                     (concat (map snd (sorted_items items)))) i j k
       = snd it.
Proof.
  intros F G Hit.
  destruct (sorted_items_rows items F) as (_ & F2 & L).
  assert (Ls : length (sorted_items items) = n * n * n).
  { rewrite <- (length_map fst), G; apply grid_length. }
  apply (Permutation_in _ (Permutation_sym (sorted_items_perm items))) in Hit.
  apply (In_nth _ _ ([], [])) in Hit as (p & Hp & <-).
  rewrite Ls in Hp.
  destruct (grid_position n p Hp) as (E & Hj & Hk).
  assert (Hi : p / (n * n) < n) by (apply Nat.Div0.div_lt_upper_bound; lia).
  exists (p / (n * n)), (p mod (n * n) / n), (p mod (n * n) mod n).
  repeat split; try assumption.
  - rewrite <- (nth_grid n p Hp), <- G.
    symmetry; apply (map_nth fst (sorted_items items) ([], [])).
  - unfold grid_point; cbn [shape data].
    replace (ravel_C [n; n; n; 3]
               [p / (n * n); p mod (n * n) / n; p mod (n * n) mod n; 0])
      with (p * 3) by (cbn [ravel_C prod_shape fold_right]; lia).
    rewrite (chunk_concat _ 3 (map snd (sorted_items items)) p F2)
      by (rewrite length_map, Ls; exact Hp).
    apply (map_nth snd (sorted_items items) ([], [])).
Qed.

Lemma sorted_items_grid_values n items i j k vals :
  Forall row_item items ->
  map fst (sorted_items items) = grid n ->
  In ([Z.of_nat i; Z.of_nat j; Z.of_nat k], vals) items ->
  grid_point (mk_ndarray [n; n; n; 3]
                (concat (map snd (sorted_items items)))) i j k
  = vals.
Proof.
  intros F G Hit.
  destruct (sorted_items_grid_point n items _ F G Hit)
    as (i' & j' & k' & _ & _ & _ & E & Hg).
  cbn [fst snd] in E, Hg.
  injection E as Ei Ej Ek.
  apply Nat2Z.inj in Ei, Ej, Ek; subst i' j' k'; exact Hg.
Qed.

(** The sorted index rows are the grid exactly when the index rows are
    the grid points in some order. *)
Lemma sorted_items_grid n items :
  Forall row_item items ->
  Permutation (map fst items) (grid n) <->
  map fst (sorted_items items) = grid n.
Proof.
  intros F; split.
  - intros P.
    assert (F1 : Forall (fun r => length r = 3) (map fst items)).
    { apply Forall_forall; intros r Hr.
      apply in_map_iff in Hr as (it & <- & Hit).
      rewrite Forall_forall in F; apply (F it Hit). }
    rewrite sorted_items_fst.
    apply (sorted_perm_unique (fun r => r)); rewrite ?map_id.
    + apply grid_rows.
    + apply grid_strongly_sorted.
    + rewrite <- P; apply Permutation_sym, sorted_indexes_perm.
    + apply sorted_indexes_sorted; exact F1.
  - intros G; rewrite <- G.
    apply Permutation_sym, Permutation_map, sorted_items_perm.
Qed.

(** X7. What every table read from a Sony file carries: it is a 3D table
    named after the path, with the default domain, since the format has no
    domain, with every comment line of the file, stripped, in file order,
    wherever the comments stand, and it is a cube whose side [n] is at
    least 1 and whose [n^3] rows are the data lines of the file: the
    indexes of the data lines are the grid points of the cube, each once,
    in some order, and the three values of a data line stand in the table
    at the grid point that its three indexes name. *)
Theorem read_LUT_SonySPI3D_result (path text : str) (l : LUT) :
  read_LUT_SonySPI3D path_to_title path text = Ok l ->
  class l = class_LUT3D
  /\ name l = path_to_title path
  /\ domain l = default_domain
  /\ comments l = file_comments text
  /\ exists n items,
       1 <= n
       /\ shape (table l) = [n; n; n; 3]
       /\ length (data (table l)) = n * n * n * 3
       /\ length (data_lines (stripped_lines text)) = n * n * n
       /\ mapM spi3d_item (data_lines (stripped_lines text)) = Ok items
       /\ Permutation (map fst items) (grid n)
       /\ forall i j k vals,
            In ([Z.of_nat i; Z.of_nat j; Z.of_nat k], vals) items ->
            grid_point (table l) i j k = vals.
Proof.
  intros E; unfold read_LUT_SonySPI3D in E.
  apply bind_Ok in E as (st & Hs & E).
  destruct (spi3d_read_summary _ _ Hs) as (sizes & items & _ & Hi & F & ->).
  destruct (spi3d_finish_Ok _ _ _ _ _ F E) as (n & _ & Hn & Hl & G & ->).
  cbn [class name domain comments table LUT3D optional shape data].
  repeat split; [apply comment_lines_stripped|].
  destruct (sorted_items_rows items F) as (_ & F2 & L).
  exists n, items; split; [exact Hn|]; split; [reflexivity|].
  split; [|split; [|split; [exact Hi|split]]].
  - rewrite (length_concat_uniform _ 3 _ F2), length_map, L, Hl; reflexivity.
  - rewrite <- Hl; symmetry; eapply mapM_length; exact Hi.
  - apply sorted_items_grid; assumption.
  - intros i j k vals Hit.
    apply (sorted_items_grid_values n items i j k vals F G Hit).
Qed.

(** X8. The side of the cube is the size declared by the last line of
    three tokens of the file, wherever that line stands, also after the
    rows; a file without such a line is read as a cube of side 2. *)
Theorem read_LUT_SonySPI3D_declared_size (path text : str) (l : LUT) :
  read_LUT_SonySPI3D path_to_title path text = Ok l ->
  match rev (size_lines (stripped_lines text)) with
  | [] => size l = 2
  | line :: _ => as_int_scalar (hd [] (split line)) = Ok (Z.of_nat (size l))
  end.
Proof.
  intros E; unfold read_LUT_SonySPI3D in E.
  apply bind_Ok in E as (st & Hs & E).
  destruct (spi3d_read_summary _ _ Hs) as (sizes & items & Hz & _ & F & ->).
  destruct (spi3d_finish_Ok _ _ _ _ _ F E) as (n & Hn & _ & _ & _ & ->).
  unfold size; cbn [table LUT3D shape hd].
  destruct (rev (size_lines (stripped_lines text))) as [|line r] eqn:Er.
  - apply (f_equal (@rev str)) in Er; rewrite rev_involutive in Er.
    cbn [rev] in Er; rewrite Er in Hz; injection Hz as <-.
    cbn [last] in Hn; lia.
  - apply (f_equal (@rev str)) in Er; rewrite rev_involutive in Er.
    cbn [rev] in Er; rewrite Er in Hz.
    apply mapM_app_inv in Hz as (s1 & s2 & _ & H2 & ->).
    cbn [mapM] in H2; apply bind_Ok in H2 as (m & Hm & H2).
    injection H2 as <-.
    rewrite last_last in Hn; subst m.
    unfold spi3d_size in Hm; apply bind_Ok in Hm as (u & _ & Hm); exact Hm.
Qed.

(** X9. The Sony reader does not depend on the order of the rows: when
    a file is read to a table, any file with the same data lines in another
    order, among the same other lines, is read to the same table. *)
Theorem read_LUT_SonySPI3D_row_order (path text1 text2 : str) (l : LUT) :
  Permutation (data_lines (stripped_lines text1))
              (data_lines (stripped_lines text2)) ->
  other_lines (stripped_lines text1) = other_lines (stripped_lines text2) ->
  read_LUT_SonySPI3D path_to_title path text1 = Ok l ->
  read_LUT_SonySPI3D path_to_title path text2 = Ok l.
Proof.
  intros P O E; unfold read_LUT_SonySPI3D in *.
  apply bind_Ok in E as (st & Hs & E).
  destruct (spi3d_read_summary _ _ Hs) as (sizes & items & Hz & Hi & F & ->).
  destruct (spi3d_finish_Ok _ _ _ _ _ F E) as (n & Hn & Hn1 & Hl & G & ->).
  destruct (mapM_perm _ _ _ P _ Hi) as (items2 & Hi2 & Pi).
  assert (Sz : size_lines (stripped_lines text2)
               = size_lines (stripped_lines text1)).
  { unfold size_lines.
    rewrite <- (filter_filter_sub _
                  (fun l => negb (negb (startswith l (lit "#"))
                                  && (length (split l) =? 6)))
                  (stripped_lines text2)),
            <- (filter_filter_sub _
                  (fun l => negb (negb (startswith l (lit "#"))
                                  && (length (split l) =? 6)))
                  (stripped_lines text1)).
    - fold (other_lines (stripped_lines text1)).
      fold (other_lines (stripped_lines text2)).
      rewrite O; reflexivity.
    - intros x Hx; apply andb_prop in Hx as (H1 & H3).
      rewrite H1; apply Nat.eqb_eq in H3; rewrite H3; reflexivity.
    - intros x Hx; apply andb_prop in Hx as (H1 & H3).
      rewrite H1; apply Nat.eqb_eq in H3; rewrite H3; reflexivity. }
  assert (Cm : comment_lines (stripped_lines text2)
               = comment_lines (stripped_lines text1)).
  { unfold comment_lines.
    rewrite <- (filter_filter_sub _
                  (fun l => negb (negb (startswith l (lit "#"))
                                  && (length (split l) =? 6)))
                  (stripped_lines text2)),
            <- (filter_filter_sub _
                  (fun l => negb (negb (startswith l (lit "#"))
                                  && (length (split l) =? 6)))
                  (stripped_lines text1)).
    - fold (other_lines (stripped_lines text1)).
      fold (other_lines (stripped_lines text2)).
      rewrite O; reflexivity.
    - intros x Hx; rewrite Hx; reflexivity.
    - intros x Hx; rewrite Hx; reflexivity. }
  rewrite <- Sz in Hz.
  rewrite (spi3d_lines_build _ _ _ _ Hz Hi2); cbn [bind].
  cbn [spi3d_initial sp_size sp_data_table sp_data_indexes sp_comments app].
  rewrite Cm, Hn.
  pose proof (data_lines_items _ _ Hi2) as F2.
  assert (U : sorted_items items2 = sorted_items items).
  { apply (sorted_perm_unique fst).
    - rewrite G; apply grid_rows.
    - rewrite G; apply grid_strongly_sorted.
    - rewrite (sorted_items_perm items), Pi.
      apply Permutation_sym, sorted_items_perm.
    - rewrite sorted_items_fst; apply sorted_indexes_sorted.
      apply Forall_forall; intros r Hr.
      apply in_map_iff in Hr as (it & <- & Hit).
      rewrite Forall_forall in F2; apply (F2 it Hit). }
  rewrite (spi3d_finish_grid _ n items2); [rewrite U; reflexivity | exact F2 | exact Hn1 |].
  rewrite U; exact G.
Qed.

(** X20. How the Sony reader checks the indexes of a file that holds at
    least one data line and declares a side of at least 1.  The rows are
    accepted in any order: when the indexes of the data lines are the grid
    points of the declared cube, each once, the file is read, and the
    values of each data line stand in the table at the grid point that its
    indexes name, the first index being the first axis.  When they are
    not, because an index is missing, repeated or outside the cube, the
    validation failure for the indexes is raised and no table is built. *)
Theorem read_LUT_SonySPI3D_index_validation (path text : str)
    (sizes : list Z) (items : list (list Z * list float)) (n : nat) :
  mapM spi3d_size (size_lines (stripped_lines text)) = Ok sizes ->
  mapM spi3d_item (data_lines (stripped_lines text)) = Ok items ->
  last sizes 2%Z = Z.of_nat n ->
  1 <= n ->
  items <> [] ->
  (Permutation (map fst items) (grid n) ->
   exists l,
     read_LUT_SonySPI3D path_to_title path text = Ok l
     /\ shape (table l) = [n; n; n; 3]
     /\ forall i j k vals,
          In ([Z.of_nat i; Z.of_nat j; Z.of_nat k], vals) items ->
          grid_point (table l) i j k = vals)
  /\ (~ Permutation (map fst items) (grid n) ->
      read_LUT_SonySPI3D path_to_title path text
      = Raise (AssertionError msg_indexes)).
Proof.
  intros Hz Hi Hn Hn1 Hne.
  pose proof (data_lines_items _ _ Hi) as F.
  unfold read_LUT_SonySPI3D.
  rewrite (spi3d_lines_build _ _ _ _ Hz Hi); cbn [bind].
  cbn [spi3d_initial sp_size sp_data_table sp_data_indexes sp_comments app].
  rewrite Hn; split.
  - intros P; apply (sorted_items_grid n items F) in P.
    rewrite (spi3d_finish_grid _ n items _ F Hn1 P).
    eexists; split; [reflexivity|].
    cbn [table LUT3D shape]; split; [reflexivity|].
    intros i j k vals Hit.
    apply (sorted_items_grid_values n items i j k vals F P Hit).
  - intros NP.
    rewrite (spi3d_finish_items _ _ _ _ F Hne).
    rewrite expected_indexes_grid; cbn [bind].
    rewrite attest_false; [reflexivity|].
    destruct (array_equal Z.eqb _ _) eqn:Eq; [|reflexivity].
    exfalso; apply NP, (sorted_items_grid n items F).
    apply array_equal_Z in Eq; injection Eq as Hl Hc.
    destruct (sorted_items_rows items F) as (F1 & _ & L).
    apply (concat_uniform_inj 3); [exact F1 | apply grid_rows | | exact Hc].
    rewrite length_map, L, grid_length; exact Hl.
Qed.

End SonyReaderFacts.

(** ** The text written by the Sony and Resolve codecs *)

Section WriterFacts.

Context {FM : FloatModel}.
Variable str_LUTSequence : list operator -> str.
Variable unity_table_3x1D unity_table_3D : ndarray float.
Variable unity_name_3x1D unity_name_3D : str.

Abbreviation prepare :=
  (cube_prepare unity_table_3x1D unity_table_3D unity_name_3x1D
     unity_name_3D).
Abbreviation write_cube :=
  (write_LUT_ResolveCube unity_table_3x1D unity_table_3D unity_name_3x1D
     unity_name_3D).

(** X10. The file that [write_LUT_SonySPI3D] writes for a cubic table of
    side [n] with the default domain, whatever [n] is: the lines
    [SPILUT 1.0] and [3 3], the side three times, one line per grid point
    in lexicographic order of the indexes, axis 0 being the slowest, with
    the three indexes and the three values, and after the rows the
    comments, each after the marker and a space. *)
Theorem write_LUT_SonySPI3D_layout (l : LUT) (n d : nat) :
  wf_LUT3D l n ->
  float_array_equal (domain l) default_domain = true ->
  write_LUT_SonySPI3D str_LUTSequence (Single (Table l)) d
  = mk_outcome [] (Some (file_of (spi3d_file_lines d l n))) (Ok true).
Proof.
  intros W Hd; pose proof W as (Hc & _ & _ & Hs & _).
  unfold write_LUT_SonySPI3D; cbn [spi3d_select bind].
  rewrite (proj2 (spi3d_validate_spec l) Hc); [| |exact Hd].
  - rewrite (spi3d_body_writes d l n W []); reflexivity.
  - unfold is_domain_explicit; rewrite Hc, Hs.
    destruct (list_eq_dec Nat.eq_dec [2; 3] [2; 3]); [reflexivity | contradiction].
Qed.

Lemma write_size_and_range_layout d k1 k2 l :
  wf_domain l ->
  writes (write_size_and_range d k1 k2 l)
         (file_of (size_and_range_lines d k1 k2 l)) tt.
Proof.
  intros [Hs Hl]; unfold write_size_and_range, size_and_range_lines.
  destruct (float_array_equal (domain l) default_domain).
  - eapply writes_eq.
    + eapply writes_bind; [apply writes_fwrite | apply writes_ret].
    + unfold file_of; cbn [flat_map]; rewrite !app_nil_r, <- !app_assoc.
      reflexivity.
  - unfold domain_lo, domain_hi.
    destruct (data (domain l)) as [|a [|b [|c [|x [|y [|z [|? ?]]]]]]] eqn:Ed;
      try discriminate.
    assert (I0 : item (domain l) 0 0 = Ok a).
    { unfold item, row, row_width; rewrite Hs, Ed; reflexivity. }
    assert (I1 : item (domain l) 1 0 = Ok x).
    { unfold item, row, row_width; rewrite Hs, Ed; reflexivity. }
    eapply writes_eq.
    + eapply writes_bind; [apply writes_fwrite|].
      eapply writes_bind; [apply writes_lift; exact I0|].
      eapply writes_bind; [apply writes_lift; exact I1|].
      apply writes_fwrite.
    + unfold file_of; cbn [flat_map nth cube_format_tuple].
      rewrite !app_nil_r, !app_nil_l, <- !app_assoc; reflexivity.
Qed.

Lemma file_of_comments (cs : list str) :
  concat (map (fun c => lit "# " ++ c ++ [LF]) cs)
  = file_of (map (fun c => lit "# " ++ c) cs).
Proof.
  rewrite file_of_map; reflexivity.
Qed.

(** The text written by the body of the Resolve writer. *)
Lemma cube_body_layout d (j : cube_job) :
  (has_3x1D j = true -> exists n, wf_LUT3x1D (shaper j) n) ->
  (has_3D j = true -> exists n, wf_LUT3D (cube j) n) ->
  writes (cube_body d j) (file_of (cube_file_lines d j)) tt.
Proof.
  intros W1 W3; unfold cube_body, cube_file_lines.
  rewrite !file_of_app, map_app, file_of_app, <- app_assoc.
  eapply writes_bind.
  { eapply writes_eq; [apply writes_fwrite|].
    unfold file_of; cbn [flat_map]; rewrite app_nil_r, <- !app_assoc.
    reflexivity. }
  eapply writes_bind.
  { eapply writes_eq; [apply writes_comments | apply file_of_comments]. }
  eapply writes_bind.
  { eapply writes_eq; [apply writes_comments | apply file_of_comments]. }
  eapply writes_bind.
  { destruct (has_3x1D j); [|apply writes_ret].
    destruct (W1 eq_refl) as (n1 & _ & _ & _ & Hd1).
    apply write_size_and_range_layout; exact Hd1. }
  eapply writes_bind.
  { destruct (has_3D j); [|apply writes_ret].
    destruct (W3 eq_refl) as (n3 & _ & _ & _ & Hd3).
    apply write_size_and_range_layout; exact Hd3. }
  eapply writes_bind.
  { destruct (has_3x1D j); [|apply writes_ret].
    destruct (W1 eq_refl) as (n1 & _ & Hs1 & Hl1 & _).
    rewrite file_of_app.
    eapply writes_bind.
    - eapply writes_eq.
      + apply write_rows_writes, (rows_uniform _ _ n1 3 Hs1 Hl1).
      + symmetry; apply file_of_map.
    - apply writes_fwrite. }
  destruct (has_3D j); [|apply writes_ret].
  destruct (W3 eq_refl) as (n3 & Hw3).
  assert (Hz : size (cube j) = n3).
  { destruct Hw3 as (_ & Hs & _); unfold size; rewrite Hs; reflexivity. }
  rewrite Hz; eapply writes_eq; [apply (cube_rows_writes d _ n3 Hw3)|].
  unfold cube_rows_F; rewrite file_of_map, map_map; reflexivity.
Qed.

(** The outcome of the Resolve writer when its validations pass. *)
Lemma cube_written_text (L : LUT_value) (d : nat) (j : cube_job) :
  prepare L = Ok j ->
  ~ cube_violation j ->
  (has_3x1D j = true -> exists n, wf_LUT3x1D (shaper j) n) ->
  (has_3D j = true -> exists n, wf_LUT3D (cube j) n) ->
  write_cube L d
  = mk_outcome [] (Some (file_of (cube_file_lines d j))) (Ok true).
Proof.
  intros Hp V W1 W3; unfold write_LUT_ResolveCube; rewrite Hp; cbn [bind].
  rewrite (proj2 (cube_validate_spec j) V); cbn [bind].
  rewrite (cube_body_layout d j W1 W3 []); reflexivity.
Qed.

(** X11. The file that [write_LUT_ResolveCube] writes when its validations
    pass: the title line with the name between double quotes, the comments
    of the shaper and then those of the cube, the size line of each table
    present, each followed by its range line when the domain is not the
    default one, the rows of the shaper followed by an empty line, and the
    rows of the cube with the first index changing fastest. *)
Theorem write_LUT_ResolveCube_layout (L : LUT_value) (d : nat) (j : cube_job) :
  prepare L = Ok j ->
  ~ cube_violation j ->
  (has_3x1D j = true -> exists n, wf_LUT3x1D (shaper j) n) ->
  (has_3D j = true -> exists n, wf_LUT3D (cube j) n) ->
  write_cube L d
  = mk_outcome [] (Some (file_of (cube_file_lines d j))) (Ok true).
Proof.
  intros Hp V W1 W3; unfold write_LUT_ResolveCube; rewrite Hp; cbn [bind].
  rewrite (proj2 (cube_validate_spec j) V); cbn [bind].
  rewrite (cube_body_layout d j W1 W3 []); reflexivity.
Qed.

End WriterFacts.

(** ** The reading loop of the Resolve codec on the lines of a written file *)

Lemma split_token_prefix (k rest : str) :
  token k -> split (k ++ SP ++ rest) = k :: split rest.
Proof.
  intros [Hne Hk]; unfold split.
  rewrite (split_go_token k [] (SP ++ rest) Hk), app_nil_r.
  change (SP ++ rest) with (" "%char :: rest); cbn [split_go].
  change (isspace " "%char) with true; cbv iota.
  destruct (rev k) as [|c r] eqn:Er.
  - apply (f_equal (@rev ascii)) in Er; rewrite rev_involutive in Er.
    contradiction.
  - rewrite <- Er, rev_involutive; reflexivity.
Qed.

Lemma join_cons_nonempty (x : str) (l : list str) :
  l <> [] -> join SP (x :: l) = x ++ SP ++ join SP l.
Proof. destruct l; [contradiction | reflexivity]. Qed.

Lemma single_spaced_join (s : str) : forall cur,
  single_spaced s = true ->
  cur <> [] \/ match s with [] => True | c :: _ => isspace c = false end ->
  join SP (split_go cur (s ++ [DQ])) = rev cur ++ s ++ [DQ].
Proof.
  induction s as [|c s IH]; intros cur Hs Hc.
  - cbn [app split_go]; change (isspace DQ) with false; cbv iota.
    cbn [split_go rev join]; reflexivity.
  - cbn [single_spaced] in Hs; apply andb_prop in Hs as (Hh & Hs).
    cbn [app split_go].
    destruct (isspace c) eqn:Ec.
    + apply andb_prop in Hh as (Hsp & Hn).
      apply Ascii.eqb_eq in Hsp; subst c.
      destruct Hc as [Hc|Hc]; [|discriminate Hc].
      destruct cur as [|x cur]; [contradiction|].
      assert (E : join SP (split_go [] (s ++ [DQ])) = s ++ [DQ]).
      { rewrite (IH [] Hs); [reflexivity|].
        right; destruct s as [|c' s]; [exact I|].
        apply negb_true_iff in Hn; exact Hn. }
      rewrite join_cons_nonempty.
      * rewrite E; reflexivity.
      * intros E'; rewrite E' in E; cbn [join] in E.
        destruct s; discriminate E.
    + rewrite (IH (c :: cur) Hs) by (left; discriminate).
      cbn [rev]; rewrite <- app_assoc; reflexivity.
Qed.

Lemma single_spaced_no_break (s : str) : single_spaced s = true -> no_break s.
Proof.
  induction s as [|c s IH]; intros Hs; [constructor|].
  cbn [single_spaced] in Hs; apply andb_prop in Hs as (Hh & Hs).
  constructor; [|apply IH; exact Hs].
  split; intros ->.
  - change (isspace LF) with true in Hh; cbv iota in Hh.
    apply andb_prop in Hh as (Hh & _); discriminate Hh.
  - change (isspace CR) with true in Hh; cbv iota in Hh.
    apply andb_prop in Hh as (Hh & _); discriminate Hh.
Qed.

Lemma Forall_app_intro {B} (P : B -> Prop) (a b : list B) :
  Forall P a -> Forall P b -> Forall P (a ++ b).
Proof. intros Ha Hb; apply Forall_app; split; assumption. Qed.

Lemma no_break_app (a b : str) : no_break a -> no_break b -> no_break (a ++ b).
Proof. intros Ha Hb; apply Forall_app; split; assumption. Qed.

Lemma cube_lines_app {FM : FloatModel} l1 : forall (st : cube_state) l2,
  cube_lines st (l1 ++ l2)
  = bind (cube_lines st l1) (fun st' => cube_lines st' l2).
Proof.
  induction l1 as [|x l1 IH]; intros st l2; cbn [app cube_lines bind];
    [reflexivity|].
  destruct (cube_line st x); cbn [bind]; [apply IH | reflexivity].
Qed.

Section ResolveLines.

Context {FM : FloatModel}.
Variable close : nat -> float -> float -> Prop.
Context {FF : FloatFormat close}.
Hypothesis float_text : float_text_plain.

(** The title line. *)
Lemma title_line_shape (name : str) :
  single_spaced name = true ->
  no_break (lit "TITLE " ++ [DQ] ++ name ++ [DQ])
  /\ trimmed (lit "TITLE " ++ [DQ] ++ name ++ [DQ]).
Proof.
  intros Hs; split.
  - apply no_break_app; [repeat constructor; discriminate|].
    apply no_break_app; [repeat constructor; discriminate|].
    apply no_break_app; [apply single_spaced_no_break; exact Hs|].
    repeat constructor; discriminate.
  - split; [reflexivity|].
    rewrite !app_assoc, trimmed_last_app by discriminate.
    reflexivity.
Qed.

Lemma cube_line_title st (name : str) :
  single_spaced name = true ->
  cube_line st ((lit "TITLE " ++ [DQ] ++ name ++ [DQ]) ++ [LF])
  = Ok (set_title st name).
Proof.
  intros Hs; destruct (title_line_shape name Hs) as (_ & Ht).
  unfold cube_line; rewrite (strip_trimmed_line _ Ht).
  change (lit "TITLE " ++ [DQ] ++ name ++ [DQ])
    with (lit "TITLE" ++ SP ++ DQ :: name ++ [DQ]).
  rewrite split_token_prefix
    by (split; [discriminate | repeat constructor]).
  change (length (lit "TITLE" ++ SP ++ DQ :: name ++ [DQ]) =? 0) with false.
  change (startswith (lit "TITLE" ++ SP ++ DQ :: name ++ [DQ]) (lit "#"))
    with false.
  cbv iota.
  change (str_eqb (lit "TITLE") (lit "TITLE")) with true; cbv iota.
  unfold split; cbn [split_go]; change (isspace DQ) with false; cbv iota.
  rewrite (single_spaced_join name [DQ] Hs) by (left; discriminate).
  cbn [rev app]; unfold slice_1_m1; cbn [tl].
  rewrite removelast_last; reflexivity.
Qed.

(** The comment lines. *)
Lemma cube_line_comment st (c : str) :
  plain_comment c ->
  cube_line st ((lit "# " ++ c) ++ [LF]) = Ok (add_comment st c).
Proof.
  intros [Hc _].
  destruct (strip_comment_line c Hc) as (sl & Hsl & Hne & Hst & Htl).
  unfold cube_line.
  change ((lit "# " ++ c) ++ [LF]) with (lit "# " ++ c ++ [LF]).
  rewrite Hsl, Hst, Htl.
  destruct sl; [contradiction | reflexivity].
Qed.

Lemma cube_lines_comments_written (cs : list str) : forall st,
  Forall plain_comment cs ->
  cube_lines st (map (fun x => x ++ [LF]) (map (fun c => lit "# " ++ c) cs))
  = Ok (mk_cube_state (cs_title st) (cs_domain_3x1D st) (cs_domain_3D st)
          (cs_size_3x1D st) (cs_size_3D st) (cs_data st)
          (cs_comments st ++ cs) (cs_has_3x1D st) (cs_has_3D st)).
Proof.
  induction cs as [|c cs IH]; intros st F; cbn [map cube_lines].
  - rewrite app_nil_r; destruct st; reflexivity.
  - inversion F as [|? ? Hc F']; subst.
    rewrite (cube_line_comment st c Hc); cbn [bind].
    rewrite (IH _ F'); unfold add_comment; cbn.
    rewrite <- app_assoc; reflexivity.
Qed.

Ltac decide_keywords :=
  repeat match goal with
         | |- context [str_eqb (lit ?a) (lit ?b)] =>
             let v := eval vm_compute in (str_eqb (lit a) (lit b)) in
             change (str_eqb (lit a) (lit b)) with v; cbv iota
         end.

(** The size lines. *)
Lemma size_line_shape (key : str) n :
  token key ->
  no_break (key ++ SP ++ format_int (Z.of_nat n))
  /\ trimmed (key ++ SP ++ format_int (Z.of_nat n))
  /\ split (key ++ SP ++ format_int (Z.of_nat n))
     = [key; format_int (Z.of_nat n)].
Proof.
  intros Hk.
  assert (Ft : Forall token [key; format_int (Z.of_nat n)])
    by (apply Forall_cons; [exact Hk|]; apply Forall_cons;
        [apply format_int_token | apply Forall_nil]).
  change (key ++ SP ++ format_int (Z.of_nat n))
    with (join SP [key; format_int (Z.of_nat n)]).
  repeat split.
  - apply join_no_break; exact Ft.
  - apply join_trimmed; [discriminate | exact Ft].
  - apply join_trimmed; [discriminate | exact Ft].
  - apply split_join; exact Ft.
Qed.

Lemma cube_line_size_1D st n :
  (Z.of_nat n < 2 ^ 63)%Z ->
  cube_line st ((lit "LUT_1D_SIZE" ++ SP ++ format_int (Z.of_nat n)) ++ [LF])
  = Ok (set_size_3x1D st (Z.of_nat n)).
Proof.
  intros Hn.
  destruct (size_line_shape (lit "LUT_1D_SIZE") n) as (_ & Ht & Hsp);
    [split; [discriminate | repeat constructor]|].
  unfold cube_line; rewrite (strip_trimmed_line _ Ht), Hsp.
  change (length (lit "LUT_1D_SIZE" ++ SP ++ format_int (Z.of_nat n)) =? 0)
    with false.
  change (startswith (lit "LUT_1D_SIZE" ++ SP ++ format_int (Z.of_nat n))
            (lit "#")) with false.
  cbv iota; decide_keywords.
  cbn [second bind]; unfold as_int_scalar.
  rewrite (int64_of_token_format n Hn); reflexivity.
Qed.

Lemma cube_line_size_3D st n :
  (Z.of_nat n < 2 ^ 63)%Z ->
  cube_line st ((lit "LUT_3D_SIZE" ++ SP ++ format_int (Z.of_nat n)) ++ [LF])
  = Ok (set_size_3D st (Z.of_nat n)).
Proof.
  intros Hn.
  destruct (size_line_shape (lit "LUT_3D_SIZE") n) as (_ & Ht & Hsp);
    [split; [discriminate | repeat constructor]|].
  unfold cube_line; rewrite (strip_trimmed_line _ Ht), Hsp.
  change (length (lit "LUT_3D_SIZE" ++ SP ++ format_int (Z.of_nat n)) =? 0)
    with false.
  change (startswith (lit "LUT_3D_SIZE" ++ SP ++ format_int (Z.of_nat n))
            (lit "#")) with false.
  cbv iota; decide_keywords.
  cbn [second bind]; unfold as_int_scalar.
  rewrite (int64_of_token_format n Hn); reflexivity.
Qed.

(** The range lines. *)
Lemma range_line_shape (key : str) d (lo hi : float) :
  token key ->
  no_break (key ++ SP ++ format_float d lo ++ SP ++ format_float d hi)
  /\ trimmed (key ++ SP ++ format_float d lo ++ SP ++ format_float d hi)
  /\ split (key ++ SP ++ format_float d lo ++ SP ++ format_float d hi)
     = [key; format_float d lo; format_float d hi].
Proof.
  intros Hk.
  assert (Ft : Forall token [key; format_float d lo; format_float d hi])
    by (apply Forall_cons; [exact Hk|];
        repeat (apply Forall_cons; [apply format_float_token|]);
        apply Forall_nil).
  change (key ++ SP ++ format_float d lo ++ SP ++ format_float d hi)
    with (join SP [key; format_float d lo; format_float d hi]).
  repeat split.
  - apply join_no_break; exact Ft.
  - apply join_trimmed; [discriminate | exact Ft].
  - apply join_trimmed; [discriminate | exact Ft].
  - apply split_join; exact Ft.
Qed.

Lemma cube_line_range_1D st d (lo hi : float) :
  cube_line st ((lit "LUT_1D_INPUT_RANGE" ++ SP ++ format_float d lo ++ SP
                 ++ format_float d hi) ++ [LF])
  = Ok (set_domain_3x1D st (tstack3 [reread d lo; reread d hi])).
Proof.
  destruct (range_line_shape (lit "LUT_1D_INPUT_RANGE") d lo hi)
    as (_ & Ht & Hsp); [split; [discriminate | repeat constructor]|].
  unfold cube_line; rewrite (strip_trimmed_line _ Ht), Hsp.
  change (length (lit "LUT_1D_INPUT_RANGE" ++ SP ++ format_float d lo ++ SP
                  ++ format_float d hi) =? 0) with false.
  change (startswith (lit "LUT_1D_INPUT_RANGE" ++ SP ++ format_float d lo
                      ++ SP ++ format_float d hi) (lit "#")) with false.
  cbv iota; decide_keywords.
  pose proof (as_float_tokens_format close d [lo; hi]) as E.
  cbn [map] in E; rewrite E; reflexivity.
Qed.

Lemma cube_line_range_3D st d (lo hi : float) :
  cube_line st ((lit "LUT_3D_INPUT_RANGE" ++ SP ++ format_float d lo ++ SP
                 ++ format_float d hi) ++ [LF])
  = Ok (set_domain_3D st (tstack3 [reread d lo; reread d hi])).
Proof.
  destruct (range_line_shape (lit "LUT_3D_INPUT_RANGE") d lo hi)
    as (_ & Ht & Hsp); [split; [discriminate | repeat constructor]|].
  unfold cube_line; rewrite (strip_trimmed_line _ Ht), Hsp.
  change (length (lit "LUT_3D_INPUT_RANGE" ++ SP ++ format_float d lo ++ SP
                  ++ format_float d hi) =? 0) with false.
  change (startswith (lit "LUT_3D_INPUT_RANGE" ++ SP ++ format_float d lo
                      ++ SP ++ format_float d hi) (lit "#")) with false.
  cbv iota; decide_keywords.
  pose proof (as_float_tokens_format close d [lo; hi]) as E.
  cbn [map] in E; rewrite E; reflexivity.
Qed.

(** The data rows. *)
Lemma float_text_head d (x : float) :
  exists c r, format_float d x = c :: r /\ Ascii.eqb "#"%char c = false
  /\ Forall (fun k => str_eqb (format_float d x) k = false) cube_keywords.
Proof.
  destruct (float_text _ _ (proj1 (reread_spec close d x))) as (Hs & Hk).
  destruct (format_float_token d x) as (Hne & _).
  destruct (format_float d x) as [|c r] eqn:E; [contradiction|].
  exists c, r; split; [reflexivity|]; split.
  - change (lit "#") with ["#"%char] in Hs; cbn [startswith] in Hs.
    apply andb_false_iff in Hs as [Hs|Hs];
      [exact Hs | destruct r; discriminate Hs].
  - apply Forall_forall; intros k Hin; apply str_eqb_neq.
    intros Ek; apply Hk; rewrite Ek; exact Hin.
Qed.

Lemma row_line_shape_cube d (v : list float) :
  length v = 3 ->
  no_break (cube_row_text d v) /\ trimmed (cube_row_text d v)
  /\ split (cube_row_text d v) = map (format_float d) v.
Proof.
  intros Hl; destruct v as [|x [|y [|z [|? ?]]]]; try discriminate Hl.
  assert (Ft : Forall token (map (format_float d) [x; y; z]))
    by (repeat (apply Forall_cons; [apply format_float_token|]);
        apply Forall_nil).
  change (cube_row_text d [x; y; z])
    with (join SP (map (format_float d) [x; y; z])).
  repeat split.
  - apply join_no_break; exact Ft.
  - apply join_trimmed; [discriminate | exact Ft].
  - apply join_trimmed; [discriminate | exact Ft].
  - apply split_join; exact Ft.
Qed.

Lemma cube_line_row st d (v : list float) :
  length v = 3 ->
  cube_line st (cube_row_text d v ++ [LF])
  = Ok (add_data st (map (format_float d) v)).
Proof.
  intros Hl; destruct (row_line_shape_cube d v Hl) as (_ & Ht & Hsp).
  unfold cube_line; rewrite (strip_trimmed_line _ Ht), Hsp.
  destruct v as [|x [|y [|z [|? ?]]]]; try discriminate Hl.
  destruct (float_text_head d x) as (c & r & Ex & Hc & Hk).
  assert (Es : startswith (cube_row_text d [x; y; z]) (lit "#") = false).
  { cbn [cube_row_text]; rewrite Ex.
    change (lit "#") with ["#"%char]; cbn [app startswith].
    rewrite Hc; reflexivity. }
  assert (El : (length (cube_row_text d [x; y; z]) =? 0) = false).
  { cbn [cube_row_text]; rewrite Ex; reflexivity. }
  rewrite Es, El; cbn [map].
  unfold cube_keywords in Hk.
  inversion Hk as [|? ? K1 Hk1]; subst; inversion Hk1 as [|? ? K2 Hk2]; subst.
  inversion Hk2 as [|? ? K3 Hk3]; subst; inversion Hk3 as [|? ? K4 Hk4]; subst.
  inversion Hk4 as [|? ? K5 _]; subst.
  rewrite K1, K2, K3, K4, K5; reflexivity.
Qed.

Lemma cube_lines_rows d (vs : list (list float)) : forall st,
  Forall (fun r => length r = 3) vs ->
  cube_lines st (map (fun x => x ++ [LF]) (map (cube_row_text d) vs))
  = Ok (mk_cube_state (cs_title st) (cs_domain_3x1D st) (cs_domain_3D st)
          (cs_size_3x1D st) (cs_size_3D st)
          (cs_data st ++ map (map (format_float d)) vs)
          (cs_comments st) (cs_has_3x1D st) (cs_has_3D st)).
Proof.
  induction vs as [|v vs IH]; intros st F; cbn [map cube_lines].
  - rewrite app_nil_r; destruct st; reflexivity.
  - inversion F as [|? ? Hv F']; subst.
    rewrite (cube_line_row st d v Hv); cbn [bind].
    rewrite (IH _ F'); unfold add_data; cbn.
    rewrite <- app_assoc; reflexivity.
Qed.

Lemma cube_line_blank (st : cube_state) : cube_line st ([] ++ [LF]) = Ok st.
Proof. reflexivity. Qed.

Lemma size_and_range_no_break d (key_size key_range : str) (l : LUT) :
  token key_size -> token key_range ->
  Forall no_break (size_and_range_lines d key_size key_range l).
Proof.
  intros K1 K2; unfold size_and_range_lines.
  apply Forall_cons; [apply (size_line_shape key_size (size l) K1)|].
  destruct (float_array_equal (domain l) default_domain); [apply Forall_nil|].
  apply Forall_cons; [|apply Forall_nil].
  apply (range_line_shape key_range d _ _ K2).
Qed.

Lemma cube_lines_size_range_1D st d (l : LUT) :
  (Z.of_nat (size l) < 2 ^ 63)%Z ->
  cube_lines st
    (map (fun x => x ++ [LF])
         (size_and_range_lines d (lit "LUT_1D_SIZE")
            (lit "LUT_1D_INPUT_RANGE") l))
  = Ok (mk_cube_state (cs_title st)
          (match read_back_domain d l with
           | Some x => Some x
           | None => cs_domain_3x1D st
           end)
          (cs_domain_3D st) (Z.of_nat (size l)) (cs_size_3D st) (cs_data st)
          (cs_comments st) true (cs_has_3D st)).
Proof.
  intros Hn; unfold size_and_range_lines, read_back_domain.
  cbn [map cube_lines]; rewrite (cube_line_size_1D st _ Hn); cbn [bind].
  destruct (float_array_equal (domain l) default_domain);
    cbn [map cube_lines]; [reflexivity|].
  rewrite cube_line_range_1D; reflexivity.
Qed.

Lemma cube_lines_size_range_3D st d (l : LUT) :
  (Z.of_nat (size l) < 2 ^ 63)%Z ->
  cube_lines st
    (map (fun x => x ++ [LF])
         (size_and_range_lines d (lit "LUT_3D_SIZE")
            (lit "LUT_3D_INPUT_RANGE") l))
  = Ok (mk_cube_state (cs_title st) (cs_domain_3x1D st)
          (match read_back_domain d l with
           | Some x => Some x
           | None => cs_domain_3D st
           end)
          (cs_size_3x1D st) (Z.of_nat (size l)) (cs_data st)
          (cs_comments st) (cs_has_3x1D st) true).
Proof.
  intros Hn; unfold size_and_range_lines, read_back_domain.
  cbn [map cube_lines]; rewrite (cube_line_size_3D st _ Hn); cbn [bind].
  destruct (float_array_equal (domain l) default_domain);
    cbn [map cube_lines]; [reflexivity|].
  rewrite cube_line_range_3D; reflexivity.
Qed.

Lemma cube_rows_F_rows (t : ndarray float) n :
  shape t = [n; n; n; 3] ->
  length (data t) = n * n * n * 3 ->
  Forall (fun r => length r = 3) (cube_rows_F t n)
  /\ length (cube_rows_F t n) = n * n * n.
Proof.
  intros Hs Hl; unfold cube_rows_F; split.
  - apply Forall_forall; intros v Hv.
    apply in_map_iff in Hv as (r & <- & Hin); apply in_seq in Hin.
    destruct (div_mod_3 n r) as (_ & Hi & Hj & Hk); [lia|].
    apply (grid_point_nth _ t n _ _ _ Hs Hl Hi Hj Hk).
  - rewrite length_map, length_seq; reflexivity.
Qed.

Lemma rows_no_break d (vs : list (list float)) :
  Forall (fun r => length r = 3) vs ->
  Forall no_break (map (cube_row_text d) vs).
Proof.
  intros F; apply Forall_forall; intros x Hx.
  apply in_map_iff in Hx as (v & <- & Hv).
  rewrite Forall_forall in F.
  apply (row_line_shape_cube d v (F v Hv)).
Qed.

Lemma comments_no_break (cs : list str) :
  Forall plain_comment cs ->
  Forall no_break (map (fun c => lit "# " ++ c) cs).
Proof.
  intros F; apply Forall_forall; intros x Hx.
  apply in_map_iff in Hx as (c & <- & Hc).
  rewrite Forall_forall in F; destruct (F c Hc) as (_ & Hb).
  apply no_break_app; [repeat constructor; discriminate | exact Hb].
Qed.

(** The lines of a written file have no line break. *)
Lemma cube_file_lines_no_break d (j : cube_job) n1 n3 :
  single_spaced (job_name j) = true ->
  Forall plain_comment (comments (shaper j) ++ comments (cube j)) ->
  (has_3x1D j = true -> wf_LUT3x1D (shaper j) n1) ->
  (has_3D j = true -> wf_LUT3D (cube j) n3) ->
  Forall no_break (cube_file_lines d j).
Proof.
  intros Hs Hc W1 W3; unfold cube_file_lines.
  assert (K : forall k : string, lit k <> [] ->
                Forall (fun c => isspace c = false) (lit k) -> token (lit k))
    by (intros k H1 H2; split; assumption).
  apply Forall_app_intro; [|apply Forall_app_intro; [|apply Forall_app_intro;
    [|apply Forall_app_intro; [|apply Forall_app_intro]]]].
  - apply Forall_cons; [apply (title_line_shape _ Hs) | apply Forall_nil].
  - apply comments_no_break; exact Hc.
  - destruct (has_3x1D j); [|apply Forall_nil].
    apply size_and_range_no_break; apply K;
      (discriminate || (repeat (apply Forall_cons; [reflexivity|]);
                        apply Forall_nil)).
  - destruct (has_3D j); [|apply Forall_nil].
    apply size_and_range_no_break; apply K;
      (discriminate || (repeat (apply Forall_cons; [reflexivity|]);
                        apply Forall_nil)).
  - destruct (has_3x1D j); [|apply Forall_nil].
    destruct (W1 eq_refl) as (_ & Hs1 & Hl1 & _).
    apply Forall_app_intro;
      [|apply Forall_cons; [apply Forall_nil | apply Forall_nil]].
    apply rows_no_break, (rows_uniform _ _ n1 3 Hs1 Hl1).
  - destruct (has_3D j); [|apply Forall_nil].
    destruct (W3 eq_refl) as (_ & Hs3 & Hl3 & _).
    assert (Hz : size (cube j) = n3) by (unfold size; rewrite Hs3; reflexivity).
    rewrite Hz; apply rows_no_break, (cube_rows_F_rows _ n3 Hs3 Hl3).
Qed.

(** The state of the reader after the lines of a written file. *)
Lemma cube_lines_written d (j : cube_job) n1 n3 title0 :
  single_spaced (job_name j) = true ->
  Forall plain_comment (comments (shaper j) ++ comments (cube j)) ->
  (has_3x1D j = true -> wf_LUT3x1D (shaper j) n1) ->
  (has_3D j = true -> wf_LUT3D (cube j) n3) ->
  (Z.of_nat n1 < 2 ^ 63)%Z -> (Z.of_nat n3 < 2 ^ 63)%Z ->
  cube_lines (cube_initial title0) (readlines (file_of (cube_file_lines d j)))
  = Ok (mk_cube_state (job_name j)
          (if has_3x1D j then read_back_domain d (shaper j) else None)
          (if has_3D j then read_back_domain d (cube j) else None)
          (if has_3x1D j then Z.of_nat n1 else 2%Z)
          (if has_3D j then Z.of_nat n3 else 2%Z)
          ((if has_3x1D j
            then map (map (format_float d)) (rows (table (shaper j)))
            else [])
           ++ (if has_3D j
               then map (map (format_float d))
                        (cube_rows_F (table (cube j)) n3)
               else []))
          (comments (shaper j) ++ comments (cube j))
          (has_3x1D j) (has_3D j)).
Proof.
  intros Hs Hc W1 W3 B1 B3.
  rewrite readlines_file_of
    by (apply (cube_file_lines_no_break d j n1 n3); assumption).
  unfold cube_file_lines.
  cbn [app map cube_lines]; rewrite (cube_line_title _ _ Hs); cbn [bind].
  rewrite map_app, cube_lines_app, (cube_lines_comments_written _ _ Hc).
  cbn [bind set_title cube_initial cs_title cs_domain_3x1D cs_domain_3D
         cs_size_3x1D cs_size_3D cs_data cs_comments cs_has_3x1D cs_has_3D
         app].
  destruct (has_3x1D j) eqn:H1.
  - destruct (W1 eq_refl) as (_ & Hs1 & Hl1 & _).
    assert (Hz1 : size (shaper j) = n1) by (unfold size; rewrite Hs1; reflexivity).
    rewrite map_app, cube_lines_app, cube_lines_size_range_1D
      by (rewrite Hz1; exact B1).
    cbn [bind cs_title cs_domain_3x1D cs_domain_3D cs_size_3x1D cs_size_3D
           cs_data cs_comments cs_has_3x1D cs_has_3D].
    rewrite Hz1.
    destruct (has_3D j) eqn:H3.
    + destruct (W3 eq_refl) as (_ & Hs3 & Hl3 & _).
      assert (Hz3 : size (cube j) = n3) by (unfold size; rewrite Hs3; reflexivity).
      rewrite map_app, cube_lines_app, cube_lines_size_range_3D
        by (rewrite Hz3; exact B3).
      cbn [bind cs_title cs_domain_3x1D cs_domain_3D cs_size_3x1D cs_size_3D
             cs_data cs_comments cs_has_3x1D cs_has_3D].
      rewrite Hz3, map_app, cube_lines_app, map_app, cube_lines_app.
      rewrite cube_lines_rows by apply (rows_uniform _ _ n1 3 Hs1 Hl1).
      cbn [bind map cube_lines].
      rewrite cube_line_blank; cbn [bind].
      rewrite cube_lines_rows by apply (cube_rows_F_rows _ n3 Hs3 Hl3).
      cbn [cs_title cs_domain_3x1D cs_domain_3D cs_size_3x1D cs_size_3D
             cs_data cs_comments cs_has_3x1D cs_has_3D app].
      destruct (read_back_domain d (shaper j)),
        (read_back_domain d (cube j)); reflexivity.
    + cbn [app]; rewrite app_nil_r, map_app, cube_lines_app.
      rewrite cube_lines_rows by apply (rows_uniform _ _ n1 3 Hs1 Hl1).
      cbn [bind map cube_lines app].
      rewrite cube_line_blank; cbn [bind].
      cbn [cs_title cs_domain_3x1D cs_domain_3D cs_size_3x1D cs_size_3D
             cs_data cs_comments cs_has_3x1D cs_has_3D app].
      rewrite !app_nil_r.
      destruct (read_back_domain d (shaper j)); reflexivity.
  - cbn [app].
    destruct (has_3D j) eqn:H3.
    + destruct (W3 eq_refl) as (_ & Hs3 & Hl3 & _).
      assert (Hz3 : size (cube j) = n3) by (unfold size; rewrite Hs3; reflexivity).
      rewrite map_app, cube_lines_app, cube_lines_size_range_3D
        by (rewrite Hz3; exact B3).
      cbn [bind cs_title cs_domain_3x1D cs_domain_3D cs_size_3x1D cs_size_3D
             cs_data cs_comments cs_has_3x1D cs_has_3D app].
      rewrite Hz3.
      rewrite cube_lines_rows by apply (cube_rows_F_rows _ n3 Hs3 Hl3).
      cbn [cs_title cs_domain_3x1D cs_domain_3D cs_size_3x1D cs_size_3D
             cs_data cs_comments cs_has_3x1D cs_has_3D app].
      destruct (read_back_domain d (cube j)); reflexivity.
    + reflexivity.
Qed.

End ResolveLines.

(** ** Writing a Resolve file and reading it back *)

Lemma position_F n i j k :
  i < n -> j < n -> k < n ->
  i + n * j + n * n * k < n * n * n
  /\ (i + n * j + n * n * k) mod n = i
  /\ (i + n * j + n * n * k) / n mod n = j
  /\ (i + n * j + n * n * k) / (n * n) = k.
Proof.
  intros Hi Hj Hk.
  assert (E1 : (i + n * j + n * n * k) / n = j + n * k).
  { symmetry; apply (Nat.div_unique _ _ _ i); [exact Hi | nia]. }
  repeat split.
  - nia.
  - symmetry; apply (Nat.mod_unique _ _ (j + n * k)); [exact Hi | nia].
  - rewrite E1; symmetry; apply (Nat.mod_unique _ _ k); [exact Hj | nia].
  - symmetry; apply (Nat.div_unique _ _ _ (i + n * j)); nia.
Qed.

Section ResolveRoundTrip.

Context {FM : FloatModel}.
Variable path_to_title : str -> str.
Variable unity_table_3x1D unity_table_3D : ndarray float.
Variable unity_name_3x1D unity_name_3D : str.
Variable close : nat -> float -> float -> Prop.
Context {FF : FloatFormat close}.
Hypothesis float_text : float_text_plain.

Abbreviation prepare_job :=
  (cube_prepare unity_table_3x1D unity_table_3D unity_name_3x1D
     unity_name_3D).
Abbreviation write_resolve :=
  (write_LUT_ResolveCube unity_table_3x1D unity_table_3D unity_name_3x1D
     unity_name_3D).

Lemma as_float_rows_format d (vs : list (list float)) :
  mapM as_float_tokens (map (map (format_float d)) vs)
  = Ok (map (map (reread d)) vs).
Proof.
  induction vs as [|v vs IH]; cbn [map mapM]; [reflexivity|].
  rewrite (as_float_tokens_format close d v), IH; reflexivity.
Qed.

Lemma reread_rows_close d (vs : list (list float)) :
  Forall2 (Forall2 (close d)) vs (map (map (reread d)) vs).
Proof.
  induction vs as [|v vs IH]; cbn [map]; constructor; [|exact IH].
  exact (reread_close close d v).
Qed.

Lemma reread_rows_shape d (vs : list (list float)) :
  Forall (fun r => length r = 3) vs ->
  Forall (fun r => length r = 3) (map (map (reread d)) vs).
Proof.
  intros F; apply Forall_forall; intros x Hx.
  apply in_map_iff in Hx as (v & <- & Hv).
  rewrite length_map; rewrite Forall_forall in F; apply F; exact Hv.
Qed.

(** The domain read back for a table. *)
Lemma read_back_domain_spec d (l : LUT) :
  (float_array_equal (domain l) default_domain = true ->
   optional (read_back_domain d l) default_domain = default_domain)
  /\ (float_array_equal (domain l) default_domain = false ->
      exists lo hi,
        optional (read_back_domain d l) default_domain = tstack3 [lo; hi]
        /\ close d (domain_lo l) lo /\ close d (domain_hi l) hi).
Proof.
  unfold read_back_domain; split; intros E; rewrite E; [reflexivity|].
  exists (reread d (domain_lo l)), (reread d (domain_hi l)).
  split; [reflexivity|];
    split; exact (proj2 (reread_spec close d _)).
Qed.

Lemma unity_shaper_implicit :
  is_domain_explicit (LUT3x1D unity_table_3x1D unity_name_3x1D None [])
  = false.
Proof. reflexivity. Qed.

Lemma unity_cube_implicit :
  is_domain_explicit (LUT3D unity_table_3D unity_name_3D None []) = false.
Proof.
  unfold is_domain_explicit; cbn.
  destruct (list_eq_dec Nat.eq_dec [2; 3] [2; 3]); [reflexivity | contradiction].
Qed.

Lemma wf_cube_implicit (l : LUT) n : wf_LUT3D l n -> is_domain_explicit l = false.
Proof.
  intros (Hc & _ & _ & Hs & _); unfold is_domain_explicit; rewrite Hc, Hs.
  destruct (list_eq_dec Nat.eq_dec [2; 3] [2; 3]); [reflexivity | contradiction].
Qed.

Lemma wf_shaper_implicit (l : LUT) n :
  wf_LUT3x1D l n -> is_domain_explicit l = false.
Proof.
  intros (Hc & _ & _ & Hs & _); unfold is_domain_explicit; rewrite Hc, Hs.
  reflexivity.
Qed.

(** X12. A 3D table written by [write_LUT_ResolveCube] and read back by
    [read_LUT_ResolveCube] is a 3D table with the same name, comments and
    shape, whose values at each grid point are [close] to the original
    ones: the two reorderings, of the writer and of the reader, cancel.
    The domain read back is the default one when the domain written is,
    and otherwise the domain whose rows repeat [domain[0][0]] and
    [domain[1][0]], which is all that the file holds of it.  The domain
    holds two distinct values, as the writer requires, the name is one
    whose whitespace is single spaces, the comments have no whitespace at
    either end and no line break; of the floats it is assumed that a
    printed value is a token read back [close] to the value, and that no
    text read as a float starts with the comment marker or is a keyword. *)
Theorem write_read_LUT_ResolveCube_3D (l : LUT) (n d : nat) (path : str) :
  wf_LUT3D l n ->
  2 <= n <= 256 ->
  len_unique float_eqb (domain l) = 2 ->
  len_unique float_eqb default_domain = 2 ->
  single_spaced (name l) = true ->
  Forall plain_comment (comments l) ->
  exists text l',
    write_resolve (Single (Table l)) d = mk_outcome [] (Some text) (Ok true)
    /\ read_LUT_ResolveCube path_to_title path text = Ok (Single (Table l'))
    /\ class l' = class_LUT3D
    /\ name l' = name l
    /\ comments l' = comments l
    /\ shape (table l') = shape (table l)
    /\ (forall i j k, i < n -> j < n -> k < n ->
        Forall2 (close d) (grid_point (table l) i j k)
                (grid_point (table l') i j k))
    /\ (float_array_equal (domain l) default_domain = true ->
        domain l' = default_domain)
    /\ (float_array_equal (domain l) default_domain = false ->
        exists lo hi,
          domain l' = tstack3 [lo; hi]
          /\ close d (domain_lo l) lo /\ close d (domain_hi l) hi).
Proof.
  intros W Hn U1 U0 Hs Hc; pose proof W as (Hcl & Hsh & Hl & Hd).
  set (j := mk_cube_job (name l) false true
              (LUT3x1D unity_table_3x1D unity_name_3x1D None []) l).
  assert (Hp : prepare_job (Single (Table l)) = Ok j)
    by (unfold cube_prepare; rewrite Hcl; reflexivity).
  assert (Hz : size l = n) by (unfold size; rewrite Hsh; reflexivity).
  assert (V : ~ cube_violation j).
  { unfold cube_violation, j; cbn [shaper cube has_3x1D has_3D].
    rewrite unity_shaper_implicit, (wf_cube_implicit l n W), Hz.
    intros [H|[H|[H|[H|[[H _]|[_ H]]]]]]; try discriminate H.
    - apply H; exact U0.
    - apply H; exact U1.
    - apply H; lia. }
  assert (W1 : has_3x1D j = true -> exists n, wf_LUT3x1D (shaper j) n)
    by (intros H; discriminate H).
  assert (W3 : has_3D j = true -> exists n, wf_LUT3D (cube j) n)
    by (intros _; exists n; exact W).
  pose proof (cube_written_text unity_table_3x1D unity_table_3D
                unity_name_3x1D unity_name_3D _ d j Hp V W1 W3) as Hw.
  pose proof (cube_lines_written close float_text d j 0 n (path_to_title path))
    as Hr.
  cbn [j job_name shaper cube has_3x1D has_3D comments LUT3x1D app] in Hr.
  specialize (Hr Hs Hc (fun H => False_ind _ (Bool.diff_false_true H))
                (fun _ => W)).
  specialize (Hr ltac:(lia) ltac:(lia)).
  destruct (cube_rows_F_rows (table l) n Hsh Hl) as (Fr & Lr).
  set (st := mk_cube_state _ _ _ _ _ _ _ _ _) in Hr.
  destruct (cube_finish_cube st (map (map (reread d)) (cube_rows_F (table l) n)) n)
    as (t & Ef & Ht & _ & Hg); try reflexivity.
  { apply as_float_rows_format. }
  { apply reread_rows_shape; exact Fr. }
  { rewrite length_map; exact Lr. }
  exists (file_of (cube_file_lines d j)),
    (LUT3D t (name l) (read_back_domain d l) (comments l)).
  split; [exact Hw|].
  split; [unfold read_LUT_ResolveCube; rewrite Hr; cbn [bind]; exact Ef|].
  cbn [class name comments table domain LUT3D].
  repeat split; try reflexivity.
  - rewrite Ht, Hsh; reflexivity.
  - intros i j0 k Hi Hj Hk; rewrite (Hg i j0 k Hi Hj Hk).
    destruct (position_F n i j0 k Hi Hj Hk) as (Hlt & E1 & E2 & E3).
    change (@nil float) with (map (reread d) []).
    rewrite map_nth; unfold cube_rows_F.
    rewrite (nth_map_seq _ _ _ _ Hlt), E1, E2, E3.
    exact (reread_close close d _).
  - apply (read_back_domain_spec d l).
  - apply (read_back_domain_spec d l).
Qed.

Lemma rows_concat (t : ndarray float) n :
  shape t = [n; 3] -> length (data t) = n * 3 ->
  concat (rows t) = data t /\ length (rows t) = n.
Proof.
  intros Hs Hl; unfold rows, row_width; rewrite Hs; cbn [tl hd].
  change (prod_shape [3]) with 3; split.
  - apply concat_chunks; exact Hl.
  - rewrite length_map, length_seq; reflexivity.
Qed.

(** X13. A 3x1D table written by [write_LUT_ResolveCube] and read back is
    a 3x1D table with the same name, comments and shape, whose values are
    [close] to the original ones, row by row in the same order; its domain
    is read back as for a 3D table.  The assumptions on the name, the
    comments and the floats are those of the 3D round trip. *)
Theorem write_read_LUT_ResolveCube_3x1D (l : LUT) (n d : nat) (path : str) :
  wf_LUT3x1D l n ->
  (2 <= Z.of_nat n <= 65536)%Z ->
  len_unique float_eqb (domain l) = 2 ->
  len_unique float_eqb default_domain = 2 ->
  single_spaced (name l) = true ->
  Forall plain_comment (comments l) ->
  exists text l',
    write_resolve (Single (Table l)) d = mk_outcome [] (Some text) (Ok true)
    /\ read_LUT_ResolveCube path_to_title path text = Ok (Single (Table l'))
    /\ class l' = class_LUT3x1D
    /\ name l' = name l
    /\ comments l' = comments l
    /\ shape (table l') = shape (table l)
    /\ Forall2 (close d) (data (table l)) (data (table l'))
    /\ (float_array_equal (domain l) default_domain = true ->
        domain l' = default_domain)
    /\ (float_array_equal (domain l) default_domain = false ->
        exists lo hi,
          domain l' = tstack3 [lo; hi]
          /\ close d (domain_lo l) lo /\ close d (domain_hi l) hi).
Proof.
  intros W Hn U1 U0 Hs Hc; pose proof W as (Hcl & Hsh & Hl & Hd).
  set (j := mk_cube_job (name l) true false l
              (LUT3D unity_table_3D unity_name_3D None [])).
  assert (Hp : prepare_job (Single (Table l)) = Ok j)
    by (unfold cube_prepare; rewrite Hcl; reflexivity).
  assert (Hz : size l = n) by (unfold size; rewrite Hsh; reflexivity).
  assert (V : ~ cube_violation j).
  { unfold cube_violation, j; cbn [shaper cube has_3x1D has_3D].
    rewrite unity_cube_implicit, (wf_shaper_implicit l n W), Hz.
    intros [H|[H|[H|[H|[[_ H]|[H _]]]]]]; try discriminate H.
    - apply H; exact U1.
    - apply H; exact U0.
    - apply H; lia. }
  assert (W1 : has_3x1D j = true -> exists n, wf_LUT3x1D (shaper j) n)
    by (intros _; exists n; exact W).
  assert (W3 : has_3D j = true -> exists n, wf_LUT3D (cube j) n)
    by (intros H; discriminate H).
  pose proof (cube_written_text unity_table_3x1D unity_table_3D
                unity_name_3x1D unity_name_3D _ d j Hp V W1 W3) as Hw.
  pose proof (cube_lines_written close float_text d j n 0 (path_to_title path))
    as Hr.
  cbn [j job_name shaper cube has_3x1D has_3D comments LUT3D] in Hr.
  rewrite !app_nil_r in Hr.
  specialize (Hr Hs Hc (fun _ => W)
                (fun H => False_ind _ (Bool.diff_false_true H))).
  specialize (Hr ltac:(lia) ltac:(lia)).
  destruct (rows_concat (table l) n Hsh Hl) as (Ec & Lr).
  pose proof (rows_uniform _ (table l) n 3 Hsh Hl) as Fr.
  exists (file_of (cube_file_lines d j)),
    (LUT3x1D (mk_ndarray [n; 3] (map (reread d) (data (table l))))
       (name l) (read_back_domain d l) (comments l)).
  split; [exact Hw|].
  split.
  { unfold read_LUT_ResolveCube; rewrite Hr; cbn [bind].
    unfold cube_finish, as_float_table; cbn [cs_data cs_has_3x1D cs_has_3D
      cs_title cs_domain_3x1D cs_comments].
    rewrite as_float_rows_format; cbn [bind andb].
    pose proof (reread_rows_shape d _ Fr) as Fv.
    assert (Lv : length (map (map (reread d)) (rows (table l))) = n)
      by (rewrite length_map; exact Lr).
    assert (Cv : concat (map (map (reread d)) (rows (table l)))
                 = map (reread d) (data (table l)))
      by (rewrite <- concat_map, Ec; reflexivity).
    destruct (map (map (reread d)) (rows (table l))) as [|v vs] eqn:Ev.
    { cbn [length] in Lv; lia. }
    rewrite (as_array_uniform _ 3 v vs Fv); cbn [bind].
    rewrite Lv, Cv; reflexivity. }
  cbn [class name comments table domain LUT3x1D shape data].
  repeat split; try reflexivity.
  - symmetry; exact Hsh.
  - exact (reread_close close d _).
  - apply (read_back_domain_spec d l).
  - apply (read_back_domain_spec d l).
Qed.

(** X14. A sequence of a 3x1D table and a 3D table written by
    [write_LUT_ResolveCube] is read back as a sequence of a 3x1D table and
    a 3D table with values [close] to the original ones, but the names and
    comments of the two tables are not kept apart: both tables are named
    after the title of the file, which joins the two names, followed by
    [- Shaper] and [- Cube], the shaper read back has no comment and the
    cube read back has the comments of the shaper followed by its own.
    The assumptions on the title, the comments and the floats are those of
    the 3D round trip. *)
Theorem write_read_LUT_ResolveCube_sequence (a b : LUT) (n1 n3 d : nat)
    (path : str) :
  wf_LUT3x1D a n1 ->
  wf_LUT3D b n3 ->
  (2 <= Z.of_nat n1 <= 65536)%Z ->
  2 <= n3 <= 256 ->
  len_unique float_eqb (domain a) = 2 ->
  len_unique float_eqb (domain b) = 2 ->
  single_spaced (name a ++ lit " - " ++ name b) = true ->
  Forall plain_comment (comments a) ->
  Forall plain_comment (comments b) ->
  exists text a' b',
    write_resolve (LUTSequence [Table a; Table b]) d
    = mk_outcome [] (Some text) (Ok true)
    /\ read_LUT_ResolveCube path_to_title path text
       = Ok (LUTSequence [Table a'; Table b'])
    /\ class a' = class_LUT3x1D /\ class b' = class_LUT3D
    /\ name a' = (name a ++ lit " - " ++ name b) ++ lit " - Shaper"
    /\ name b' = (name a ++ lit " - " ++ name b) ++ lit " - Cube"
    /\ comments a' = []
    /\ comments b' = comments a ++ comments b
    /\ size a' = n1
    /\ Forall2 (Forall2 (close d)) (rows (table a)) (rows (table a'))
    /\ shape (table b') = shape (table b)
    /\ (forall i j k, i < n3 -> j < n3 -> k < n3 ->
        Forall2 (close d) (grid_point (table b) i j k)
                (grid_point (table b') i j k)).
Proof.
  intros Wa Wb Hn1 Hn3 Ua Ub Hs Hca Hcb.
  pose proof Wa as (Hcla & Hsa & Hla & Hda).
  pose proof Wb as (Hclb & Hsb & Hlb & Hdb).
  set (j := mk_cube_job (name a ++ lit " - " ++ name b) true true a b).
  assert (Hp : prepare_job (LUTSequence [Table a; Table b]) = Ok j)
    by (unfold cube_prepare; rewrite Hcla, Hclb; reflexivity).
  assert (Hza : size a = n1) by (unfold size; rewrite Hsa; reflexivity).
  assert (Hzb : size b = n3) by (unfold size; rewrite Hsb; reflexivity).
  assert (V : ~ cube_violation j).
  { unfold cube_violation, j; cbn [shaper cube has_3x1D has_3D].
    rewrite (wf_shaper_implicit a n1 Wa), (wf_cube_implicit b n3 Wb), Hza, Hzb.
    intros [H|[H|[H|[H|[[_ H]|[_ H]]]]]]; try discriminate H.
    - apply H; exact Ua.
    - apply H; exact Ub.
    - apply H; lia.
    - apply H; lia. }
  assert (W1 : has_3x1D j = true -> exists n, wf_LUT3x1D (shaper j) n)
    by (intros _; exists n1; exact Wa).
  assert (W3 : has_3D j = true -> exists n, wf_LUT3D (cube j) n)
    by (intros _; exists n3; exact Wb).
  pose proof (cube_written_text unity_table_3x1D unity_table_3D
                unity_name_3x1D unity_name_3D _ d j Hp V W1 W3) as Hw.
  pose proof (cube_lines_written close float_text d j n1 n3
                (path_to_title path)) as Hr.
  cbn [j job_name shaper cube has_3x1D has_3D] in Hr.
  specialize (Hr Hs (Forall_app_intro _ _ _ Hca Hcb) (fun _ => Wa)
                (fun _ => Wb)).
  specialize (Hr ltac:(lia) ltac:(lia)).
  destruct (rows_concat (table a) n1 Hsa Hla) as (Ec & Lr).
  pose proof (rows_uniform _ (table a) n1 3 Hsa Hla) as Fa.
  destruct (cube_rows_F_rows (table b) n3 Hsb Hlb) as (Fb & Lb).
  set (st := mk_cube_state _ _ _ _ _ _ _ _ _) in Hr.
  destruct (cube_finish_composite st
              (map (map (reread d)) (rows (table a) ++ cube_rows_F (table b) n3))
              n1 n3)
    as (t1 & t3 & Ef & H1 & R1 & S3 & _ & G3); try reflexivity.
  { unfold st; cbn [cs_data]; rewrite <- map_app; apply as_float_rows_format. }
  { apply reread_rows_shape, Forall_app_intro; assumption. }
  { rewrite length_map, length_app, Lr, Lb; reflexivity. }
  exists (file_of (cube_file_lines d j)),
    (LUT3x1D t1 ((name a ++ lit " - " ++ name b) ++ lit " - Shaper")
       (read_back_domain d a) []),
    (LUT3D t3 ((name a ++ lit " - " ++ name b) ++ lit " - Cube")
       (read_back_domain d b) (comments a ++ comments b)).
  split; [exact Hw|].
  split; [unfold read_LUT_ResolveCube; rewrite Hr; cbn [bind]; exact Ef|].
  unfold size; cbn [class name comments table LUT3x1D LUT3D].
  repeat split; try reflexivity.
  - exact H1.
  - rewrite R1, map_app, <- (Nat.add_0_r n1).
    rewrite <- Lr at 1.
    rewrite <- (length_map (map (reread d)) (rows (table a))).
    rewrite firstn_app_2, firstn_O, app_nil_r.
    apply reread_rows_close.
  - rewrite S3, Hsb; reflexivity.
  - intros i j0 k Hi Hj Hk; rewrite (G3 i j0 k Hi Hj Hk).
    destruct (position_F n3 i j0 k Hi Hj Hk) as (Hlt & E1 & E2 & E3).
    rewrite map_app, <- Lr.
    rewrite <- (length_map (map (reread d)) (rows (table a))).
    rewrite app_nth2_plus.
    change (@nil float) with (map (reread d) []).
    rewrite map_nth; unfold cube_rows_F.
    rewrite (nth_map_seq _ _ _ _ Hlt), E1, E2, E3.
    exact (reread_close close d _).
Qed.

End ResolveRoundTrip.

(** ** What the Resolve reader does not check *)

Section ResolveReaderFacts.

Context {FM : FloatModel}.
Variable path_to_title : str -> str.

Lemma cube_line_title_effect st raw st' :
  cube_line st raw = Ok st' ->
  cs_title st' = if is_title_line raw then title_of_line raw else cs_title st.
Proof.
  unfold cube_line, is_title_line, title_of_line.
  destruct (length (strip raw) =? 0) eqn:E0; cbn [negb andb].
  { intros E; injection E as <-; reflexivity. }
  destruct (startswith (strip raw) (lit "#")); cbn [negb andb].
  { intros E; injection E as <-; reflexivity. }
  destruct (split (strip raw)) as [|t0 rest]; [discriminate|].
  cbn [tl].
  destruct (str_eqb t0 (lit "TITLE")).
  { intros E; injection E as <-; reflexivity. }
  repeat match goal with
         | |- (if ?c then _ else _) = _ -> _ => destruct c
         | |- bind ?r _ = _ -> _ => destruct r; simpl
         | |- Ok _ = Ok _ -> _ => intros E; injection E as <-; reflexivity
         | |- Raise _ = Ok _ -> _ => discriminate
         end.
Qed.

Lemma cube_lines_title lines : forall st st',
  cube_lines st lines = Ok st' ->
  cs_title st'
  = last (map title_of_line (filter is_title_line lines)) (cs_title st).
Proof.
  induction lines as [|raw lines IH]; intros st st'; cbn [cube_lines filter].
  - intros E; injection E as <-; reflexivity.
  - destruct (cube_line st raw) as [st1|] eqn:E1; cbn [bind]; [|discriminate].
    intros E; rewrite (IH _ _ E), (cube_line_title_effect _ _ _ E1).
    destruct (is_title_line raw); [|reflexivity].
    cbn [map]; rewrite last_cons; reflexivity.
Qed.

(** X15. Every table read from a Resolve file is named after the title
    of the file: the text of the last title line, its tokens joined by
    single spaces and its first and last characters dropped, whether they
    are quotes or not, or the title derived from the path when there is no
    title line.  A single table has that name and every comment of the
    file; the two tables of a sequence have that name followed by
    [- Shaper] and [- Cube]. *)
Theorem read_LUT_ResolveCube_names (path text : str) (v : LUT_value) :
  read_LUT_ResolveCube path_to_title path text = Ok v ->
  (exists l,
     v = Single (Table l)
     /\ name l = file_title (path_to_title path) text
     /\ comments l = file_comments text)
  \/ (exists a b,
        v = LUTSequence [Table a; Table b]
        /\ name a = file_title (path_to_title path) text ++ lit " - Shaper"
        /\ name b = file_title (path_to_title path) text ++ lit " - Cube").
Proof.
  unfold read_LUT_ResolveCube; intros E.
  apply bind_Ok in E as (st & Es & E).
  pose proof (cube_lines_comments _ _ _ Es) as Hc.
  pose proof (cube_lines_title _ _ _ Es) as Ht.
  cbn [cube_initial cs_comments cs_title app] in Hc, Ht.
  fold (file_comments text) in Hc.
  fold (file_title (path_to_title path) text) in Ht.
  unfold cube_finish in E.
  apply bind_Ok in E as (t & _ & E).
  destruct (cs_has_3x1D st && cs_has_3D st).
  - apply bind_Ok in E as (t1 & _ & E).
    apply bind_Ok in E as (r & _ & E).
    apply bind_Ok in E as (sh & _ & E).
    apply bind_Ok in E as (t3 & _ & E).
    injection E as <-; right.
    eexists; eexists; split; [reflexivity|].
    cbn [name LUT3x1D LUT3D]; rewrite Ht; split; reflexivity.
  - destruct (cs_has_3x1D st).
    { injection E as <-; left; eexists; split; [reflexivity|].
      cbn [name comments LUT3x1D]; split; assumption. }
    destruct (cs_has_3D st); [|discriminate].
    apply bind_Ok in E as (sh & _ & E).
    apply bind_Ok in E as (t3 & _ & E); injection E as <-.
    left; eexists; split; [reflexivity|].
    cbn [name comments LUT3D]; split; assumption.
Qed.


(** X17. The number of rows of a 3D file is checked by the reshaping
    alone: a file with a [LUT_3D_SIZE] directive and no [LUT_1D_SIZE]
    directive whose number of data rows is not the cube of the size
    declared, or whose size is negative, is not read: a value error is
    raised. *)
Theorem read_LUT_ResolveCube_row_count (path text : str) (st : cube_state)
    (vals : list (list float)) :
  cube_lines (cube_initial (path_to_title path)) (readlines text) = Ok st ->
  cs_has_3x1D st = false ->
  cs_has_3D st = true ->
  mapM as_float_tokens (cs_data st) = Ok vals ->
  Forall (fun r => length r = 3) vals ->
  (cs_size_3D st < 0)%Z
  \/ length vals
     <> Z.to_nat (cs_size_3D st) * Z.to_nat (cs_size_3D st)
        * Z.to_nat (cs_size_3D st) ->
  read_LUT_ResolveCube path_to_title path text = Raise ValueError.
Proof.
  intros Hs H1 H3 Hv F Hbad.
  unfold read_LUT_ResolveCube; rewrite Hs; cbn [bind].
  unfold cube_finish, as_float_table; rewrite Hv, H1, H3; cbn [bind andb].
  assert (Ea : exists arr, as_array vals = Ok arr
                           /\ length (data arr) = length vals * 3).
  { destruct vals as [|v vs].
    - eexists; split; reflexivity.
    - rewrite (as_array_uniform _ 3 v vs F); eexists; split; [reflexivity|].
      cbn [data]; apply length_concat_uniform; exact F. }
  destruct Ea as (arr & -> & La); cbn [bind].
  unfold shape_cube.
  destruct (Z.ltb_spec (cs_size_3D st) 0) as [Hneg|Hpos]; [reflexivity|].
  cbn [bind]; destruct Hbad as [Hbad|Hbad]; [lia|].
  unfold reshape_F; cbn [prod_shape fold_right].
  rewrite La.
  rewrite (proj2 (Nat.eqb_neq _ _)); [reflexivity|].
  intros E; apply Hbad; lia.
Qed.

End ResolveReaderFacts.

(** ** Sequences written to a [.cube] path *)

Section SequenceToCube.

Context {FM : FloatModel}.
Variable splitext_ext : str -> str.
Variable write_function : codec -> LUT_value -> str -> nat -> outcome.
Variable unity_table_3x1D unity_table_3D : ndarray float.
Variable unity_name_3x1D unity_name_3D : str.

(** X18. With no method given, [write_LUT] hands every sequence written
    to a [.cube] path to the Resolve writer, which accepts only a sequence
    of a 1D or 3x1D table followed by a 3D table: for any other sequence,
    also one that holds a single 3D table, the validation failure of the
    Resolve writer is raised and nothing is written. *)
Theorem write_LUT_sequence_to_cube (ops : list operator) (path : str)
    (d : nat) :
  lower (splitext_ext path) = lit ".cube" ->
  (forall L p k,
      write_function ResolveCube L p k
      = write_LUT_ResolveCube unity_table_3x1D unity_table_3D
          unity_name_3x1D unity_name_3D L k) ->
  ~ (exists a b,
        ops = [Table a; Table b]
        /\ (class a = class_LUT1D \/ class a = class_LUT3x1D)
        /\ class b = class_LUT3D) ->
  write_LUT splitext_ext write_function (LUTSequence ops) path d None
  = ([ResolveCube],
     mk_outcome [] None
       (Raise (AssertionError
                 (lit "LUTSequence must be 1D + 3D or 3x1D + 3D!")))).
Proof.
  intros He Hw Hn; unfold write_LUT, write_method.
  cbn [getitem EXTENSION_TO_LUT_FORMAT_MAPPING]; rewrite He.
  change (str_eqb (lower (lit ".cube")) (lit ".cube")) with true; cbv iota.
  cbn [bind].
  change (validate_method (lit "Iridas Cube") LUT_WRITE_METHODS)
    with (@Ok str (lit "iridas cube")).
  cbn [bind is_LUTSequence].
  change (str_eqb (lit "iridas cube") (lit "iridas cube")) with true.
  cbn [andb].
  change (getitem LUT_WRITE_METHODS (lit "resolve cube"))
    with (@Ok codec ResolveCube).
  cbv iota; rewrite Hw; f_equal.
  unfold write_LUT_ResolveCube.
  assert (E : cube_prepare unity_table_3x1D unity_table_3D unity_name_3x1D
                unity_name_3D (LUTSequence ops)
              = Raise (AssertionError
                         (lit "LUTSequence must be 1D + 3D or 3x1D + 3D!"))).
  { unfold cube_prepare.
    destruct ops as [|[a|m1 o1] [|[b|m2 o2] [|x rest]]]; try reflexivity.
    rewrite attest_false; [reflexivity|].
    destruct (LUT_class_eqb (class a) class_LUT1D
              || LUT_class_eqb (class a) class_LUT3x1D) eqn:Ea;
      [|reflexivity].
    destruct (LUT_class_eqb (class b) class_LUT3D) eqn:Eb; [|reflexivity].
    exfalso; apply Hn; exists a, b; split; [reflexivity|].
    apply LUT_class_eqb_eq in Eb; split; [|exact Eb].
    apply orb_prop in Ea as [Ea|Ea]; apply LUT_class_eqb_eq in Ea;
      [left | right]; exact Ea. }
  rewrite E; reflexivity.
Qed.

End SequenceToCube.

(** ** The decimal float model and the Resolve format *)

Module DecimalFloatText.

Import DecimalFloat.

(** In the decimal model no numeral starts with the comment marker and no
    keyword is a numeral. *)
Lemma decimal_float_text : float_text_plain (FM := model).
Proof.
  intros t v E; split.
  - destruct t as [|c r]; [reflexivity|].
    change (lit "#") with ["#"%char]; cbn [startswith].
    destruct (Ascii.eqb "#"%char c) eqn:Ec; [|reflexivity].
    apply Ascii.eqb_eq in Ec; subst c; exfalso.
    cbn [float_of_token model of_token] in E.
    unfold unsigned_of_token in E; cbn [cut_point] in E.
    change (Ascii.eqb "#"%char "."%char) with false in E; cbv iota in E.
    destruct (cut_point r) as [a b].
    cbn [digits_value] in E.
    change (is_digit "#"%char) with false in E; cbv iota in E.
    discriminate E.
  - intros [H|[H|[H|[H|[H|[]]]]]]; subst t; vm_compute in E; discriminate E.
Qed.

End DecimalFloatText.

(** ** The further properties at concrete inputs *)

Module MoreWitnesses.

Import DecimalFloat Examples MoreExamples.

Lemma read_LUT_unknown_extension_witness :
  read_LUT (fun _ => lit ".txt") (fun c _ => Ok c) (lit "table.txt")
    (Some (lit "Resolve Cube"))
  = ([], Raise KeyError).
Proof.
  apply (read_LUT_unknown_extension codec (fun _ => lit ".txt")
           (fun c _ => Ok c) (lit "table.txt") (Some (lit "Resolve Cube"))).
  intros [H|[H|[H|[H|[H|[]]]]]]; discriminate H.
Defined.

Lemma read_LUT_single_call_witness :
  read_LUT (fun _ => lit ".cube")
    (fun c _ => match c with
                | IridasCube => Raise (AssertionError (lit "no table"))
                | _ => Ok c
                end)
    (lit "table.cube") None
  = ([IridasCube], Raise (AssertionError (lit "no table"))).
Proof.
  apply (read_LUT_single_call codec (fun _ => lit ".cube")
           (fun c _ => match c with
                       | IridasCube => Raise (AssertionError (lit "no table"))
                       | _ => Ok c
                       end)
           (lit "table.cube") None (lit "iridas cube") IridasCube).
  - reflexivity.
  - reflexivity.
  - discriminate.
Defined.

Lemma read_LUT_by_extension_witness :
  exists c rest,
    getitem LUT_READ_METHODS (lit "Sony SPI3D") = Ok c
    /\ fst (read_LUT (fun _ => lit ".SPI3D") (fun c _ => Ok c)
              (lit "TABLE.SPI3D") None) = c :: rest.
Proof.
  apply (read_LUT_by_extension codec (fun _ => lit ".SPI3D")
           (fun c _ => Ok c) (lit "TABLE.SPI3D") (lit ".spi3d")
           (lit "Sony SPI3D")).
  - right; right; left; reflexivity.
  - reflexivity.
Defined.

Lemma write_LUT_dispatch_witness :
  write_LUT (fun _ => lit ".cube") writers
    (LUTSequence [Table shaper_lut; Table plain_lut]) (lit "pair.cube") 7 None
  = ([ResolveCube],
     write_LUT_ResolveCube unity unity [] []
       (LUTSequence [Table shaper_lut; Table plain_lut]) 7).
Proof.
  apply (proj1 (write_LUT_dispatch (FM := model) (fun _ => lit ".cube") writers
                  (LUTSequence [Table shaper_lut; Table plain_lut])
                  (lit "pair.cube") 7 None (lit "Iridas Cube")
                  (lit "iridas cube") eq_refl eq_refl)).
  reflexivity.
Defined.

Lemma write_LUT_unknown_extension_witness :
  write_LUT (fun _ => lit ".txt") writers (Single (Table plain_lut))
    (lit "table.txt") 7 (Some (lit "Sony SPI3D"))
  = ([], mk_outcome [] None (Raise KeyError)).
Proof.
  apply (write_LUT_unknown_extension (FM := model) (fun _ => lit ".txt")
           writers (Single (Table plain_lut)) (lit "table.txt") 7
           (Some (lit "Sony SPI3D"))).
  intros [H|[H|[H|[H|[H|[]]]]]]; discriminate H.
Defined.

Lemma read_LUT_SonySPI3D_ignores_other_lines_witness :
  read_LUT_SonySPI3D (FM := model) title (lit "rows.spi3d") unordered_file
  = read_LUT_SonySPI3D (FM := model) title (lit "rows.spi3d") headerless_file.
Proof.
  apply (read_LUT_SonySPI3D_ignores_other_lines (FM := model) title
           (lit "rows.spi3d") unordered_file headerless_file).
  vm_compute; reflexivity.
Defined.

Lemma unordered_read :
  read_LUT_SonySPI3D (FM := model) title (lit "unordered.spi3d") unordered_file
  = Ok unordered_lut.
Proof. reflexivity. Defined.

Lemma read_LUT_SonySPI3D_result_witness :
  class unordered_lut = class_LUT3D
  /\ name unordered_lut = title (lit "unordered.spi3d")
  /\ domain unordered_lut = default_domain
  /\ comments unordered_lut = file_comments unordered_file
  /\ exists n items,
       1 <= n
       /\ shape (table unordered_lut) = [n; n; n; 3]
       /\ length (data (table unordered_lut)) = n * n * n * 3
       /\ length (data_lines (stripped_lines unordered_file)) = n * n * n
       /\ mapM (spi3d_item (FM := model))
            (data_lines (stripped_lines unordered_file)) = Ok items
       /\ Permutation (map fst items) (grid n)
       /\ forall i j k vals,
            In ([Z.of_nat i; Z.of_nat j; Z.of_nat k], vals) items ->
            grid_point (table unordered_lut) i j k = vals.
Proof.
  apply (read_LUT_SonySPI3D_result (FM := model) title
           (lit "unordered.spi3d") unordered_file unordered_lut).
  exact unordered_read.
Defined.

Lemma unordered_items_read :
  mapM (spi3d_item (FM := model))
       (data_lines (stripped_lines unordered_file)) = Ok unordered_items.
Proof. reflexivity. Defined.

Lemma read_LUT_SonySPI3D_index_validation_witness :
  exists l,
    read_LUT_SonySPI3D (FM := model) title (lit "unordered.spi3d")
      unordered_file = Ok l
    /\ shape (table l) = [2; 2; 2; 3]
    /\ forall i j k vals,
         In ([Z.of_nat i; Z.of_nat j; Z.of_nat k], vals) unordered_items ->
         grid_point (table l) i j k = vals.
Proof.
  apply (proj1 (read_LUT_SonySPI3D_index_validation (FM := model) title
                  (lit "unordered.spi3d") unordered_file unordered_sizes
                  unordered_items 2 eq_refl unordered_items_read eq_refl
                  (le_S 1 1 (le_n 1)) ltac:(discriminate))).
  apply (proj2 (sorted_items_grid (FM := model) 2 unordered_items
                  (data_lines_items _ _ unordered_items_read))).
  reflexivity.
Defined.

Lemma read_LUT_SonySPI3D_declared_size_witness :
  match rev (size_lines (stripped_lines unordered_file)) with
  | [] => size unordered_lut = 2
  | line :: _ =>
      as_int_scalar (hd [] (split line)) = Ok (Z.of_nat (size unordered_lut))
  end.
Proof.
  apply (read_LUT_SonySPI3D_declared_size (FM := model) title
           (lit "unordered.spi3d") unordered_file unordered_lut).
  exact unordered_read.
Defined.

Lemma read_LUT_SonySPI3D_row_order_witness :
  read_LUT_SonySPI3D (FM := model) title (lit "unordered.spi3d")
    reordered_file
  = Ok unordered_lut.
Proof.
  apply (read_LUT_SonySPI3D_row_order (FM := model) title
           (lit "unordered.spi3d") unordered_file reordered_file
           unordered_lut).
  - vm_compute; apply perm_swap.
  - vm_compute; reflexivity.
  - exact unordered_read.
Defined.

Lemma write_LUT_SonySPI3D_layout_witness :
  write_LUT_SonySPI3D (FM := model) no_repr (Single (Table plain_lut)) 7
  = mk_outcome [] (Some (file_of (spi3d_file_lines 7 plain_lut 2))) (Ok true).
Proof.
  apply (write_LUT_SonySPI3D_layout (FM := model) no_repr plain_lut 2 7).
  - exact Witnesses.plain_lut_wf.
  - reflexivity.
Defined.

Lemma shaper_lut_wf : wf_LUT3x1D shaper_lut 2.
Proof. repeat split. Defined.

Lemma shaper_comments : Forall plain_comment (comments shaper_lut).
Proof.
  repeat (apply Forall_cons;
            [split; [reflexivity|];
             repeat (apply Forall_cons; [split; discriminate|]);
             apply Forall_nil|]).
  apply Forall_nil.
Defined.

Lemma write_LUT_ResolveCube_layout_witness :
  write_LUT_ResolveCube unity unity [] []
    (LUTSequence [Table shaper_lut; Table plain_lut]) 7
  = mk_outcome []
      (Some (file_of
               (cube_file_lines 7
                  (mk_cube_job (lit "A shaper - plain") true true shaper_lut
                     plain_lut))))
      (Ok true).
Proof.
  apply (write_LUT_ResolveCube_layout (FM := model) unity unity [] []
           (LUTSequence [Table shaper_lut; Table plain_lut]) 7
           (mk_cube_job (lit "A shaper - plain") true true shaper_lut
              plain_lut)).
  - reflexivity.
  - intros [H|[H|[H|[H|[[_ H]|[_ H]]]]]].
    + discriminate H.
    + discriminate H.
    + apply H; reflexivity.
    + apply H; reflexivity.
    + apply H; split; [apply Z.leb_le | apply Z.leb_le]; reflexivity.
    + apply H; split; [apply Z.leb_le | apply Z.leb_le]; reflexivity.
  - intros _; exists 2; exact shaper_lut_wf.
  - intros _; exists 2; exact Witnesses.plain_lut_wf.
Defined.

Lemma write_read_LUT_ResolveCube_3D_witness :
  exists text l',
    write_LUT_ResolveCube unity unity [] [] (Single (Table plain_lut)) 7
    = mk_outcome [] (Some text) (Ok true)
    /\ read_LUT_ResolveCube title (lit "plain.cube") text
       = Ok (Single (Table l'))
    /\ class l' = class_LUT3D
    /\ name l' = name plain_lut
    /\ comments l' = comments plain_lut
    /\ shape (table l') = shape (table plain_lut)
    /\ (forall i j k, i < 2 -> j < 2 -> k < 2 ->
        Forall2 (close 7) (grid_point (table plain_lut) i j k)
                (grid_point (table l') i j k))
    /\ (float_array_equal (domain plain_lut) default_domain = true ->
        domain l' = default_domain)
    /\ (float_array_equal (domain plain_lut) default_domain = false ->
        exists lo hi,
          domain l' = tstack3 [lo; hi]
          /\ close 7 (domain_lo plain_lut) lo
          /\ close 7 (domain_hi plain_lut) hi).
Proof.
  apply (write_read_LUT_ResolveCube_3D (FM := model) title unity unity [] []
           close (FF := DecimalFloatFacts.decimal_format)
           DecimalFloatText.decimal_float_text plain_lut 2 7
           (lit "plain.cube")).
  - exact Witnesses.plain_lut_wf.
  - split; [apply le_n | apply Nat.leb_le; reflexivity].
  - reflexivity.
  - reflexivity.
  - reflexivity.
  - exact Witnesses.plain_comments.
Defined.

Lemma write_read_LUT_ResolveCube_3x1D_witness :
  exists text l',
    write_LUT_ResolveCube unity unity [] [] (Single (Table shaper_lut)) 7
    = mk_outcome [] (Some text) (Ok true)
    /\ read_LUT_ResolveCube title (lit "shaper.cube") text
       = Ok (Single (Table l'))
    /\ class l' = class_LUT3x1D
    /\ name l' = name shaper_lut
    /\ comments l' = comments shaper_lut
    /\ shape (table l') = shape (table shaper_lut)
    /\ Forall2 (close 7) (data (table shaper_lut)) (data (table l'))
    /\ (float_array_equal (domain shaper_lut) default_domain = true ->
        domain l' = default_domain)
    /\ (float_array_equal (domain shaper_lut) default_domain = false ->
        exists lo hi,
          domain l' = tstack3 [lo; hi]
          /\ close 7 (domain_lo shaper_lut) lo
          /\ close 7 (domain_hi shaper_lut) hi).
Proof.
  apply (write_read_LUT_ResolveCube_3x1D (FM := model) title unity unity [] []
           close (FF := DecimalFloatFacts.decimal_format)
           DecimalFloatText.decimal_float_text shaper_lut 2 7
           (lit "shaper.cube")).
  - exact shaper_lut_wf.
  - split; apply Z.leb_le; reflexivity.
  - reflexivity.
  - reflexivity.
  - reflexivity.
  - exact shaper_comments.
Defined.

Lemma write_read_LUT_ResolveCube_sequence_witness :
  exists text a' b',
    write_LUT_ResolveCube unity unity [] []
      (LUTSequence [Table shaper_lut; Table plain_lut]) 7
    = mk_outcome [] (Some text) (Ok true)
    /\ read_LUT_ResolveCube title (lit "pair.cube") text
       = Ok (LUTSequence [Table a'; Table b'])
    /\ class a' = class_LUT3x1D /\ class b' = class_LUT3D
    /\ name a'
       = (name shaper_lut ++ lit " - " ++ name plain_lut) ++ lit " - Shaper"
    /\ name b'
       = (name shaper_lut ++ lit " - " ++ name plain_lut) ++ lit " - Cube"
    /\ comments a' = []
    /\ comments b' = comments shaper_lut ++ comments plain_lut
    /\ size a' = 2
    /\ Forall2 (Forall2 (close 7)) (rows (table shaper_lut)) (rows (table a'))
    /\ shape (table b') = shape (table plain_lut)
    /\ (forall i j k, i < 2 -> j < 2 -> k < 2 ->
        Forall2 (close 7) (grid_point (table plain_lut) i j k)
                (grid_point (table b') i j k)).
Proof.
  apply (write_read_LUT_ResolveCube_sequence (FM := model) title unity unity
           [] [] close (FF := DecimalFloatFacts.decimal_format)
           DecimalFloatText.decimal_float_text shaper_lut plain_lut 2 2 7
           (lit "pair.cube")).
  - exact shaper_lut_wf.
  - exact Witnesses.plain_lut_wf.
  - split; apply Z.leb_le; reflexivity.
  - split; [apply le_n | apply Nat.leb_le; reflexivity].
  - reflexivity.
  - reflexivity.
  - reflexivity.
  - exact shaper_comments.
  - exact Witnesses.plain_comments.
Defined.

Lemma read_LUT_ResolveCube_names_witness :
  (exists l,
     unquoted_value = Single (Table l)
     /\ name l = file_title (title (lit "unquoted.cube")) unquoted_file
     /\ comments l = file_comments unquoted_file)
  \/ (exists a b,
        unquoted_value = LUTSequence [Table a; Table b]
        /\ name a = file_title (title (lit "unquoted.cube")) unquoted_file
                    ++ lit " - Shaper"
        /\ name b = file_title (title (lit "unquoted.cube")) unquoted_file
                    ++ lit " - Cube").
Proof.
  apply (read_LUT_ResolveCube_names (FM := model) title
           (lit "unquoted.cube") unquoted_file unquoted_value).
  reflexivity.
Defined.


Lemma read_LUT_ResolveCube_row_count_witness :
  read_LUT_ResolveCube (FM := model) title (lit "short.cube") short_file
  = Raise ValueError.
Proof.
  apply (read_LUT_ResolveCube_row_count (FM := model) title
           (lit "short.cube") short_file short_state short_values);
    try reflexivity.
  - apply Witnesses.rows_of_three; reflexivity.
  - right; discriminate.
Defined.

Lemma write_LUT_sequence_to_cube_witness :
  write_LUT (fun _ => lit ".cube") writers (LUTSequence [Table plain_lut])
    (lit "single.cube") 7 None
  = ([ResolveCube],
     mk_outcome [] None
       (Raise (AssertionError
                 (lit "LUTSequence must be 1D + 3D or 3x1D + 3D!")))).
Proof.
  apply (write_LUT_sequence_to_cube (FM := model) (fun _ => lit ".cube")
           writers unity unity [] [] [Table plain_lut] (lit "single.cube") 7).
  - reflexivity.
  - reflexivity.
  - intros (a & b & E & _); discriminate E.
Defined.

End MoreWitnesses.
